(** * Action codec of [elefant/data/annotation_action_mapping.py]

    A shallow embedding of the camera quantizer, the event decoder, the
    action transformer and the recursive batcher, with the properties the
    specification states about them.

    Numbers.  The floats of the quantizer are modelled by the real numbers
    [R] (no rounding error, no NaN, no infinities); the properties that
    this could falsify are stated for configurations far from the places
    where binary64 leaves the reals.  Python integers are [Z]; an [int64]
    cell is a [Z] with the wrap-around of NumPy's arithmetic and the
    [OverflowError] of a store that does not fit.  The floats of the event
    decoder are the rationals [Q] they stand for, and their product
    ([mouse.dx * CAMERA_SCALER]) is rounded to binary64, so that the
    decoder computes. *)

From Stdlib Require Import Reals Lra Lia ZArith QArith String List Bool.
From stdpp Require Import gmap strings list pretty.

Import ListNotations.

(** ** Python exceptions *)

Inductive exn : Type :=
| ValueError (msg : string)
| AssertionError (msg : string)
| AttributeError (attr : string)
| KeyError (key : string)
| IndexError
| TypeError
| NameError (name : string)
| RuntimeError
| OverflowError
| ZeroDivisionError.

(** A call either raises ([inl e]) or returns ([inr v]). *)
Definition result (A : Type) : Type := (exn + A)%type.

Definition raise {A : Type} (e : exn) : result A := inl e.

#[global] Instance result_ret : MRet result := fun A a => inr a.

#[global] Instance result_bind : MBind result := fun A B k m =>
  match m with
  | inl e => inl e
  | inr a => k a
  end.

(** [mapM_result f l]: evaluate [f] on the elements from left to right and
    stop at the first exception, as a Python comprehension does;
    [mapMi_result f i l] also passes the position, counted from [i]. *)
Section Traversals.
Context {A B : Type}.

Section MapM.
Variable f : A -> result B.

Fixpoint mapM_result (l : list A) : result (list B) :=
  match l with
  | [] => mret []
  | a :: l' => b ← f a; bs ← mapM_result l'; mret (b :: bs)
  end.
End MapM.

Section MapMi.
Variable f : nat -> A -> result B.

Fixpoint mapMi_result (i : nat) (l : list A) : result (list B) :=
  match l with
  | [] => mret []
  | a :: l' => b ← f i a; bs ← mapMi_result (S i) l'; mret (b :: bs)
  end.
End MapMi.
End Traversals.

(** ** NumPy scalar kernels over the reals *)

Module Np.
Local Open Scope R_scope.

(** [np.clip(x, lo, hi)] is [minimum(hi, maximum(x, lo))]. *)
Definition clip (x lo hi : R) : R := Rmin hi (Rmax x lo).

(** [np.sign]. *)
Definition sign (x : R) : R :=
  if Rlt_dec x 0 then -1 else if Rlt_dec 0 x then 1 else 0.

(** [np.round(x).astype(np.int64)]: round to nearest, ties to even. *)
Definition round (x : R) : Z :=
  let f := Int_part x in
  let r := frac_part x in
  if Rlt_dec r (1 / 2) then f
  else if Rlt_dec (1 / 2) r then (f + 1)%Z
  else if Z.even f then f else (f + 1)%Z.
End Np.

(** ** Machine numbers *)

Module Int64.
Definition min_int : Z := (- 2 ^ 63)%Z.
Definition max_int : Z := (2 ^ 63 - 1)%Z.

Definition fits (z : Z) : bool := (min_int <=? z)%Z && (z <=? max_int)%Z.

(** The wrap-around of NumPy's [int64] arithmetic. *)
Definition wrap (z : Z) : Z := ((z - min_int) mod 2 ^ 64 + min_int)%Z.

(** [abs] of an [int64] scalar: the least value has no negation in [int64]
    and comes back as it is. *)
Definition abs (z : Z) : Z := wrap (Z.abs z).
End Int64.

(** Python floats are binary64 numbers; a finite one is given by the
    rational it stands for. *)
Module Float64.
(** [n / d] for [0 <= n] and [0 < d], rounded to the nearest integer, ties
    to even. *)
Definition nearest_even (n d : Z) : Z :=
  let q := (n / d)%Z in
  let r := (n mod d)%Z in
  match (2 * r ?= d)%Z with
  | Lt => q
  | Gt => (q + 1)%Z
  | Eq => if Z.even q then q else (q + 1)%Z
  end.

(** [(n / d) / 2 ^ e] as a fraction. *)
Definition scaled (n d e : Z) : Z * Z :=
  if (0 <=? e)%Z then (n, (d * 2 ^ e)%Z) else ((n * 2 ^ (- e))%Z, d).

(** The exponent of the binary64 numbers around [n / d > 0]: the [e] with
    [2 ^ 52 <= (n / d) / 2 ^ e < 2 ^ 53], and no less than [-1074], the
    exponent of the subnormal numbers. *)
Definition exponent (n d : Z) : Z :=
  let k := (Z.log2 n - Z.log2 d)%Z in
  let k := if (snd (scaled n d k) <=? fst (scaled n d k))%Z
           then k else (k - 1)%Z in
  Z.max (k - 52) (-1074).

(** Rounding of a real result to binary64: to nearest, ties to even.  A
    value of size [2 ^ 1024] or more stands for an infinity. *)
Definition round (x : Q) : Q :=
  let n := Z.abs (Qnum x) in
  let d := Z.pos (Qden x) in
  if (n =? 0)%Z then 0%Q
  else
    let e := exponent n d in
    let m := (Z.sgn (Qnum x)
              * nearest_even (fst (scaled n d e)) (snd (scaled n d e)))%Z in
    if (0 <=? e)%Z then inject_Z (m * 2 ^ e)
    else Qred (m # Z.to_pos (2 ^ (- e))).

(** The product of two floats. *)
Definition mul (x y : Q) : Q := round (x * y).

(** Python's [int(x)]: the integer part, toward zero. *)
Definition truncate (x : Q) : Z := Z.quot (Qnum x) (Z.pos (Qden x)).
End Float64.

(** ** CameraQuantizer *)

Module QuantizationScheme.
Definition LINEAR : string := "linear".
Definition MU_LAW : string := "mu_law".
End QuantizationScheme.

Record CameraQuantizer : Type := mkCameraQuantizer {
  camera_maxval : Z;
  camera_binsize : Z;
  quantization_scheme : string;
  mu : R
}.

(** The generated [__init__]: [quantization_scheme] defaults to [LINEAR] and
    is the only attribute with a validator,
    [attr.validators.in_([LINEAR, MU_LAW])], which raises [ValueError];
    [mu] defaults to 5.  The other attributes are stored as given. *)
Definition CameraQuantizer_init (maxval binsize : Z)
    (scheme : option string) (mu0 : option R) : result CameraQuantizer :=
  let s := default QuantizationScheme.LINEAR scheme in
  if bool_decide (s ∈ [QuantizationScheme.LINEAR; QuantizationScheme.MU_LAW])
  then mret (mkCameraQuantizer maxval binsize s (default 5%R mu0))
  else raise (ValueError "quantization_scheme must be in ['linear', 'mu_law']").

Section Quantizer.
Local Open Scope R_scope.
Variable self : CameraQuantizer.

Let maxval : R := IZR (camera_maxval self).
Let binsize : R := IZR (camera_binsize self).

(** The quantizer computes in binary64; here its float operations are
    the operations of the real numbers, so that a result stands for the
    float the code computes up to rounding.  The two differ in kind where
    the code divides zero by zero and gets a NaN: under the mu-law scheme
    when [maxval] is 0 or when [1.0 + mu] rounds to 1 ([mu = 0], or [mu]
    below [2 ^ -53]); and rounding grows with [maxval / binsize] and with
    [1 / mu].  [sizes_in_range] and [mu_in_range] below name the
    configurations that are far from both.  [mu] is a float. *)

(** The mu-law compression of lines 78-83, on one clipped component. *)
Definition mu_encode (xy : R) : R :=
  let xy := xy / maxval in
  let v_encode :=
    Np.sign xy * (ln (1 + mu self * Rabs xy) / ln (1 + mu self)) in
  v_encode * maxval.

(** The mu-law expansion of lines 94-99. *)
Definition mu_decode (xy : R) : R :=
  let xy := xy / maxval in
  let v_decode :=
    Np.sign xy * (1 / mu self) * (Rpower (1 + mu self) (Rabs xy) - 1) in
  v_decode * maxval.

(** [discretize] on one component of the array (NumPy broadcasts it). *)
Definition discretize (xy : R) : Z :=
  let xy := Np.clip xy (- maxval) maxval in
  let xy :=
    if String.eqb (quantization_scheme self) QuantizationScheme.MU_LAW
    then mu_encode xy else xy in
  Np.round ((xy + maxval) / binsize).

(** The linear dequantization of line 91 on an [int64] array of bins:
    NumPy's integer product and difference wrap around.  ([camera_binsize]
    and [camera_maxval] are taken to fit [int64].) *)
Definition linear_dequantize (xy : Z) : R :=
  IZR (Int64.wrap (Int64.wrap (xy * camera_binsize self) - camera_maxval self)).

(** The value [undiscretize] computes for one cell. *)
Definition undiscretize_value (xy : Z) : R :=
  let xy := linear_dequantize xy in
  if String.eqb (quantization_scheme self) QuantizationScheme.MU_LAW
  then mu_decode xy else xy.

(** [1.0 / self.mu] on line 96 divides Python scalars: it raises
    [ZeroDivisionError] when [mu] is zero, whatever the array holds.  The
    array operations around it do not raise. *)
Definition mu_division : result unit :=
  if String.eqb (quantization_scheme self) QuantizationScheme.MU_LAW
  then if Req_dec_T (mu self) 0 then raise ZeroDivisionError else mret tt
  else mret tt.

(** [undiscretize] on one component. *)
Definition undiscretize (xy : Z) : result R :=
  _ ← mu_division; mret (undiscretize_value xy).

(** Both on a (pitch, yaw) pair. *)
Definition discretize_xy (xy : R * R) : Z * Z :=
  (discretize (fst xy), discretize (snd xy)).

Definition undiscretize_xy_value (pq : Z * Z) : R * R :=
  (undiscretize_value (fst pq), undiscretize_value (snd pq)).

Definition undiscretize_xy (pq : Z * Z) : result (R * R) :=
  _ ← mu_division; mret (undiscretize_xy_value pq).
End Quantizer.

(** ** The event decoder *)

(** An environment action is a Python dict with one entry per button and the
    entry ["camera"]; the record keeps the camera entry apart from the button
    entries.  [B] is the type of a button value, [C] of the camera value. *)
Record EnvActionOf (B C : Type) : Type := mkEnvAction {
  env_buttons : gmap string B;
  env_camera : C
}.
Arguments mkEnvAction {B C} _ _.
Arguments env_buttons {B C} _.
Arguments env_camera {B C} _.

(** The action the decoder builds: integer button values and the camera
    array created by [np.array([0, 0])], whose cells are [int64]. *)
Abbreviation EnvAction := (EnvActionOf Z (Z * Z)).

Record Keyboard : Type := mkKeyboard { keys : list string }.
(** The deltas are finite floats, given by the rationals they stand for. *)
Record Mouse : Type := mkMouse { dx : Q; dy : Q; buttons : list Z }.
Record LowLevelAction : Type := mkLowLevelAction {
  keyboard : Keyboard;
  mouse : Mouse
}.

(** State of one call of the decoder: the action under construction, the
    flag, the lines printed so far, and the exception that has ended the
    call, if any. *)
Record DecoderState : Type := mkDecoderState {
  env_action : EnvAction;
  is_null_action : bool;
  stdout : list string;
  raised : option exn
}.

(** Storing a float into a cell of an [int64] array: NumPy converts it as
    Python's [int] does, dropping the fraction, and raises [OverflowError]
    when the integer does not fit the cell. *)
Definition int64_of_float (x : Q) : result Z :=
  let t := Float64.truncate x in
  if Int64.fits t then mret t else raise OverflowError.

(** The store [camera_action[i] = v] with the setter [set] of cell [i]. *)
Definition store_cell (set : Z -> EnvAction -> EnvAction) (v : Q)
    (st : DecoderState) : DecoderState :=
  match int64_of_float v with
  | inr t => mkDecoderState (set t (env_action st)) (is_null_action st)
               (stdout st) (raised st)
  | inl e => mkDecoderState (env_action st) (is_null_action st)
               (stdout st) (Some e)
  end.

(** An exception ends the call: a step runs only while none is raised. *)
Definition unless_raised (step : DecoderState -> DecoderState)
    (st : DecoderState) : DecoderState :=
  match raised st with
  | Some _ => st
  | None => step st
  end.

(** Truth value of a Python float: non-zero. *)
Definition float_truthy (x : Q) : bool := negb (Qnum x =? 0)%Z.

Definition set_button (name : string) (v : Z) (a : EnvAction) : EnvAction :=
  mkEnvAction (<[name := v]> (env_buttons a)) (env_camera a).

Definition set_camera0 (v : Z) (a : EnvAction) : EnvAction :=
  mkEnvAction (env_buttons a) (v, snd (env_camera a)).

Definition set_camera1 (v : Z) (a : EnvAction) : EnvAction :=
  mkEnvAction (env_buttons a) (fst (env_camera a), v).

Section Decoder.
(** The tables of [elefant.data.const], which is not among the sources.
    [NOOP_ACTION] gives the button entries of the no-op action (its camera
    entry is replaced on line 200); the values of
    [KEYBOARD_BUTTON_MAPPING] are button names, never ["camera"];
    [CAMERA_SCALER] is a finite float. *)
Variable KEYBOARD_BUTTON_MAPPING : gmap string string.
Variable IGNORED_KEYS : list string.
Variable NOOP_ACTION : gmap string Z.
Variable CAMERA_SCALER : Q.

(** Lines 198-202. *)
Definition decoder_init : DecoderState :=
  mkDecoderState (mkEnvAction NOOP_ACTION (0, 0)%Z) true [] None.

(** One iteration of the loop over the held keys, lines 204-216. *)
Definition key_step (st : DecoderState) (key : string) : DecoderState :=
  match KEYBOARD_BUTTON_MAPPING !! key with
  | Some name =>
      mkDecoderState (set_button name 1 (env_action st)) false (stdout st)
        (raised st)
  | None =>
      if bool_decide (key ∈ IGNORED_KEYS) then st
      else mkDecoderState (env_action st) (is_null_action st)
             (stdout st ++ [String.append key " not in the mapping"])
             (raised st)
  end.

Definition keys_loop (st : DecoderState) (ks : list string) : DecoderState :=
  fold_left key_step ks st.

(** Lines 220-224: the pitch cell.  The flag is cleared before the float
    product is stored. *)
Definition pitch_step (m : Mouse) (st : DecoderState) : DecoderState :=
  if float_truthy (dy m)
  then store_cell set_camera0 (Float64.mul (dy m) CAMERA_SCALER)
         (mkDecoderState (env_action st) false (stdout st) (raised st))
  else mkDecoderState (set_camera0 0 (env_action st))
         (is_null_action st) (stdout st) (raised st).

(** Lines 226-230: the yaw cell. *)
Definition yaw_step (m : Mouse) (st : DecoderState) : DecoderState :=
  if float_truthy (dx m)
  then store_cell set_camera1 (Float64.mul (dx m) CAMERA_SCALER)
         (mkDecoderState (env_action st) false (stdout st) (raised st))
  else mkDecoderState (set_camera1 0 (env_action st))
         (is_null_action st) (stdout st) (raised st).

(** Lines 232-235: a cell beyond 180 degrees is reset; [abs] is the one of
    the [int64] cell. *)
Definition glitch_step (st : DecoderState) : DecoderState :=
  let a := env_action st in
  let a := if (180 <? Int64.abs (fst (env_camera a)))%Z
           then set_camera0 0 a else a in
  let a := if (180 <? Int64.abs (snd (env_camera a)))%Z
           then set_camera1 0 a else a in
  mkDecoderState a (is_null_action st) (stdout st) (raised st).

(** Lines 239-241 and 242-244, under the test of line 237. *)
Definition attack_step (m : Mouse) (st : DecoderState) : DecoderState :=
  if bool_decide (0%Z ∈ buttons m)
  then mkDecoderState (set_button "attack" 1 (env_action st)) false
         (stdout st) (raised st)
  else st.

Definition use_step (m : Mouse) (st : DecoderState) : DecoderState :=
  if bool_decide (2%Z ∈ buttons m)
  then mkDecoderState (set_button "use" 1 (env_action st)) false
         (stdout st) (raised st)
  else st.

Definition mouse_buttons_step (m : Mouse) (st : DecoderState) : DecoderState :=
  match buttons m with
  | [] => st
  | _ :: _ => use_step m (attack_step m st)
  end.

(** The state in which the call ends. *)
Definition decoder_run (json_action : LowLevelAction) : DecoderState :=
  let st := keys_loop decoder_init (keys (keyboard json_action)) in
  let st := pitch_step (mouse json_action) st in
  let st := unless_raised (yaw_step (mouse json_action)) st in
  let st := unless_raised glitch_step st in
  unless_raised (mouse_buttons_step (mouse json_action)) st.

Definition annotation_action_to_env_action (json_action : LowLevelAction)
    : result (EnvAction * bool) :=
  let st := decoder_run json_action in
  match raised st with
  | Some e => raise e
  | None => mret (env_action st, is_null_action st)
  end.
End Decoder.

(** Modelled from the spec: the tables of the concrete example (the constants
    module is not among the sources): the vocabulary [forward, attack, use],
    a keyboard table that maps the forward key to [forward], no ignored key,
    a no-op action with every vocabulary button at 0, and sensitivity 0.15. *)
Module Example.
Definition Buttons_ALL : list string := ["forward"; "attack"; "use"].
Definition forward_key : string := "key.keyboard.w".
Definition KEYBOARD_BUTTON_MAPPING : gmap string string :=
  {[ forward_key := "forward" ]}.
Definition IGNORED_KEYS : list string := [].
Definition NOOP_ACTION : gmap string Z :=
  <["forward" := 0%Z]> (<["attack" := 0%Z]> (<["use" := 0%Z]> ∅)).
Definition CAMERA_SCALER : Q := 15 # 100.

Definition decode : LowLevelAction -> result (EnvAction * bool) :=
  annotation_action_to_env_action
    KEYBOARD_BUTTON_MAPPING IGNORED_KEYS NOOP_ACTION CAMERA_SCALER.

(** keys = [forward key], dx = 90, dy = 0, buttons = {0}. *)
Definition event : LowLevelAction :=
  mkLowLevelAction (mkKeyboard [forward_key]) (mkMouse 90 0 [0%Z]).


(** The quantizer of [ProtoToTorchActionMapper.__init__]. *)
Definition quantizer : CameraQuantizer :=
  mkCameraQuantizer 10 2 QuantizationScheme.LINEAR 5.
End Example.

(** ** ActionTransformer *)

(** A two-dimensional integer array: its shape and its rows. *)
Record array2 : Type := mkArray2 {
  shape2 : nat * nat;
  rows : list (list Z)
}.

(** [np.stack(cols, axis=-1)] for one-dimensional arrays [cols]: it needs at
    least one array and equal shapes, and puts [cols[i][b]] at [[b, i]]. *)
Definition np_stack_last (cols : list (list Z)) : result array2 :=
  match cols with
  | [] => raise (ValueError "need at least one array to stack")
  | c0 :: _ =>
      if forallb (fun c => length c =? length c0) cols
      then mret (mkArray2 (length c0, length cols)
                   (map (fun b => map (fun c => nth b c 0%Z) cols)
                      (seq 0 (length c0))))
      else raise (ValueError "all input arrays must have the same shape")
  end.

(** [a[..., i]] for a two-dimensional array. *)
Definition column (i : nat) (a : array2) : list Z :=
  map (fun row => nth i row 0%Z) (rows a).

Record PolicyActionOf (B C : Type) : Type := mkPolicyAction {
  policy_buttons : B;
  policy_camera : C
}.
Arguments mkPolicyAction {B C} _ _.
Arguments policy_buttons {B C} _.
Arguments policy_camera {B C} _.

(** The instance attributes: [__init__] assigns [quantizer] and nothing
    else (the [store_args] decorator is commented out); [human_spaces] is
    [None] while no attribute of that name exists on the instance. *)
Record ActionTransformer : Type := mkActionTransformer {
  quantizer : CameraQuantizer;
  human_spaces : option bool
}.

Definition ActionTransformer_init (camera_maxval camera_binsize : option Z)
    (camera_quantization_scheme : option string) (camera_mu : option R)
    : result ActionTransformer :=
  q ← CameraQuantizer_init (default 10%Z camera_maxval)
        (default 2%Z camera_binsize)
        (Some (default "linear" camera_quantization_scheme))
        (Some (default 5%R camera_mu));
  mret (mkActionTransformer q None).

Module SyntheticButtons.
Definition CHANNEL_ATTACK : string := "channel-attack".
Definition ALL : list string := [CHANNEL_ATTACK].
End SyntheticButtons.

Section Transformer.
(** [Buttons.ALL] of [elefant.data.const], which is not among the sources;
    ["camera"] is not one of its names. *)
Variable Buttons_ALL : list string.
Variable self : ActionTransformer.

Definition discretize_camera (xy : R * R) : Z * Z :=
  discretize_xy (quantizer self) xy.

(** [undiscretize_camera] on an array of shape [(nbatch, 2)], given by its
    rows: one call of [undiscretize] on the whole array. *)
Definition undiscretize_camera (pq : list (Z * Z)) : result (list (R * R)) :=
  _ ← mu_division (quantizer self);
  mret (map (undiscretize_xy_value (quantizer self)) pq).

(** [dict_to_numpy] on an unbatched action: scalar button values and one
    camera pair.  [np.stack] of scalars needs at least one of them. *)
Definition dict_to_numpy (acs : EnvActionOf Z (R * R))
    : result (PolicyActionOf (list Z) (Z * Z)) :=
  b ← match Buttons_ALL with
      | [] => raise (ValueError "need at least one array to stack")
      | _ :: _ =>
          mret (map (fun k => default 0%Z (env_buttons acs !! k)) Buttons_ALL)
      end;
  let act := mkPolicyAction b (discretize_camera (env_camera acs)) in
  match human_spaces self with
  | None => raise (AttributeError "human_spaces")
  | Some true => mret act
  | Some false =>
      _ ← mapM_result
            (fun k => match env_buttons acs !! k with
                      | Some v => mret v
                      | None => raise (KeyError k)
                      end) SyntheticButtons.ALL;
      raise (AttributeError "item_embed_name_to_id")
  end.

(** [env2policy] on a batch: every button value is an array of shape
    [(nbatch,)] and the camera has shape [(nbatch, 2)]. *)
Definition env2policy (acs : EnvActionOf (list Z) (list (R * R)))
    : result (PolicyActionOf array2 (list (Z * Z))) :=
  let nbatch := length (env_camera acs) in
  let dummy := repeat 0%Z nbatch in
  let camera := map discretize_camera (env_camera acs) in
  b ← np_stack_last
        (map (fun k => default dummy (env_buttons acs !! k)) Buttons_ALL);
  mret (mkPolicyAction b camera).

(** The dict comprehension of line 162: later names overwrite earlier
    ones. *)
Definition buttons_dict (b : array2) : gmap string (list Z) :=
  fold_left (fun out ik => <[snd ik := column (fst ik) b]> out)
    (combine (seq 0 (length Buttons_ALL)) Buttons_ALL) ∅.

Definition numpy_to_dict (acs : PolicyActionOf array2 (list (Z * Z)))
    : result (EnvActionOf (list Z) (list (R * R))) :=
  if snd (shape2 (policy_buttons acs)) =? length Buttons_ALL
  then camera ← undiscretize_camera (policy_camera acs);
       mret (mkEnvAction (buttons_dict (policy_buttons acs)) camera)
  else raise (AssertionError "Mismatched actions").

Definition policy2env (acs : PolicyActionOf array2 (list (Z * Z)))
    : result (EnvActionOf (list Z) (list (R * R))) :=
  numpy_to_dict acs.
End Transformer.

(** ** Configurations and inputs used below *)

Section Grid.
Local Open Scope R_scope.
Variable q : CameraQuantizer.

(** A delta that is in range and at a bin centre of the linear scheme. *)
Definition on_grid (x : R) : Prop :=
  - IZR (camera_maxval q) <= x <= IZR (camera_maxval q)
  /\ exists k : Z, x = IZR k * IZR (camera_binsize q) - IZR (camera_maxval q).
End Grid.

Module Counterexample.
(** The configuration of the counterexample: the default range and bin
    size, mu-law scheme, [mu = 15]. *)
Definition mu_law_15 : CameraQuantizer :=
  mkCameraQuantizer 10 2 QuantizationScheme.MU_LAW 15.
End Counterexample.

Module FidelityExample.
Import Example.

Definition transformer : ActionTransformer := mkActionTransformer quantizer None.

(** A batch of one action over the vocabulary, camera [(0, 0.5)]. *)
Definition action : EnvActionOf (list Z) (list (R * R)) :=
  mkEnvAction
    (<["forward" := [1%Z]]> (<["attack" := [0%Z]]> (<["use" := [0%Z]]> ∅)))
    [(0, 1 / 2)%R].

(** An action over the vocabulary whose button arrays differ in length. *)
Definition ragged_action : EnvActionOf (list Z) (list (R * R)) :=
  mkEnvAction
    (<["forward" := [1%Z; 0%Z]]> (<["attack" := [0%Z]]> (<["use" := [0%Z]]> ∅)))
    [(0, 0)%R].

(** A transformer with the mu-law scheme and [mu = 0], which the
    constructor accepts. *)
Definition transformer_mu_0 : ActionTransformer :=
  mkActionTransformer
    (mkCameraQuantizer 10 2 QuantizationScheme.MU_LAW 0) None.
End FidelityExample.

Module FidelityWitness.
(** A batch of one action over the vocabulary, camera [(0, 2)]. *)
Definition action : EnvActionOf (list Z) (list (R * R)) :=
  mkEnvAction
    (<["forward" := [1%Z]]> (<["attack" := [0%Z]]> (<["use" := [0%Z]]> ∅)))
    [(0, 2)%R].
End FidelityWitness.

(** The batch of size one that holds the unbatched action [acs]. *)
Definition batch_of_one (acs : EnvActionOf Z (R * R))
    : EnvActionOf (list Z) (list (R * R)) :=
  mkEnvAction ((fun v => [v]) <$> env_buttons acs) [env_camera acs].

Module ScalarExample.
(** forward = 1, attack = 0, use = 0, camera = (0, 0). *)
Definition action : EnvActionOf Z (R * R) :=
  mkEnvAction
    (<["forward" := 1%Z]> (<["attack" := 0%Z]> (<["use" := 0%Z]> ∅)))
    (0, 0)%R.
End ScalarExample.

(** ** The recursive batcher *)

(** An array: its shape and its cells in row-major order.  Batching never
    looks at the cells, which are taken to be integers. *)
Record ndarray : Type := mkNdarray {
  shape : list nat;
  data : list Z
}.

Definition batch_size (a : ndarray) : nat := hd 0 (shape a).

(** [np.ndarray] or [th.Tensor]. *)
Inductive array_lib : Type := Numpy | Torch.

#[global] Instance array_lib_eq_dec : EqDecision array_lib.
Proof. solve_decision. Defined.

(** The values the batcher dispatches on: the containers it recognises,
    [None], arrays, and two of the types it does not support. *)
#[warnings="-register-all"] Inductive obj : Type :=
| ODict (items : list (string * obj))
| OList (elems : list obj)
| ONamedTuple (tyname : string) (fields : list (string * obj))
| OTuple (elems : list obj)
| ONone
| OArray (lib : array_lib) (a : ndarray)
| OStr (s : string)
| OInt (n : Z).

(** Lookup of the first entry with key [k]. *)
Fixpoint assoc {V : Type} (k : string) (l : list (string * V)) : option V :=
  match l with
  | [] => None
  | (k', v) :: l' => if String.eqb k k' then Some v else assoc k l'
  end.

(** [str(type(o))] for the leaves the batcher rejects. *)
Definition type_name (o : obj) : string :=
  match o with
  | ODict _ => "<class 'dict'>"
  | OList _ => "<class 'list'>"
  | ONamedTuple ty _ => ty
  | OTuple _ => "<class 'tuple'>"
  | ONone => "<class 'NoneType'>"
  | OArray Numpy _ => "<class 'numpy.ndarray'>"
  | OArray Torch _ => "<class 'torch.Tensor'>"
  | OStr _ => "<class 'str'>"
  | OInt _ => "<class 'int'>"
  end.

Definition unsupported_message (o : obj) : string :=
  String.append "Unsupported type: "
    (String.append (type_name o)
       ".Only numpy arrays and torch tensors are supported for non-(dict, list, tuple, None) objects").

(** [d[k]] for a string [k]. *)
Definition getitem_key (k : string) (d : obj) : result obj :=
  match d with
  | ODict items =>
      match assoc k items with
      | Some v => mret v
      | None => raise (KeyError k)
      end
  | OArray _ _ => raise IndexError
  | _ => raise TypeError
  end.

(** Row [i] of an array with at least one axis. *)
Definition array_row (i : nat) (a : ndarray) : result ndarray :=
  match shape a with
  | [] => raise IndexError
  | n :: tl =>
      if i <? n
      then let w := fold_right Nat.mul 1 tl in
           mret (mkNdarray tl (firstn w (skipn (i * w) (data a))))
      else raise IndexError
  end.

Definition list_item (i : nat) (l : list obj) : result obj :=
  match l !! i with
  | Some v => mret v
  | None => raise IndexError
  end.

(** [l[i]] for a natural number [i]. *)
Definition getitem_idx (i : nat) (l : obj) : result obj :=
  match l with
  | OList elems | OTuple elems => list_item i elems
  | ONamedTuple _ fields => list_item i (map snd fields)
  | ODict _ => raise (KeyError (pretty i))
  | OArray lib a => r ← array_row i a; mret (OArray lib r)
  | OStr s =>
      if i <? String.length s then mret (OStr (String.substring i 1 s))
      else raise IndexError
  | ONone | OInt _ => raise TypeError
  end.

(** [getattr(l, field)] for a field name of a named tuple; field names are
    taken not to clash with the attributes every object has. *)
Definition getattr (field : string) (l : obj) : result obj :=
  match l with
  | ONamedTuple _ fields =>
      match assoc field fields with
      | Some v => mret v
      | None => raise (AttributeError field)
      end
  | _ => raise (AttributeError field)
  end.

(** [e.shape]; only arrays have it (a named tuple is taken to have no field
    of that name). *)
Definition get_shape (e : obj) : result (list nat) :=
  match e with
  | OArray _ a => mret (shape a)
  | _ => raise (AttributeError "shape")
  end.

(** [np.concatenate(ls, axis=0)] and [th.cat(ls, dim=0)]: every element has
    to be an array of the library, with at least one axis, and the arrays
    have to agree on all axes but the first.  (NumPy would convert some
    elements that are not arrays; here they are rejected.) *)
Definition concat_axis0 (lib : array_lib) (ls : list obj) : result obj :=
  let bad_element :=
    match lib with
    | Numpy => ValueError "zero-dimensional arrays cannot be concatenated"
    | Torch => TypeError
    end in
  let bad_shape :=
    match lib with
    | Numpy => ValueError "all the input array dimensions except for the concatenation axis must match exactly"
    | Torch => RuntimeError
    end in
  arrs ← mapM_result
            (fun o => match o with
                      | OArray lib' a =>
                          if decide (lib' = lib) then mret a else raise bad_element
                      | _ => raise bad_element
                      end) ls;
  match arrs with
  | [] => raise (ValueError "need at least one array to concatenate")
  | a0 :: _ =>
      match shape a0 with
      | [] => raise bad_shape
      | _ :: tl =>
          if forallb (fun a => match shape a with
                               | [] => false
                               | _ :: tl' => bool_decide (tl' = tl)
                               end) arrs
          then mret (OArray lib
                       (mkNdarray (list_sum (map batch_size arrs) :: tl)
                          (concat (map data arrs))))
          else raise bad_shape
      end
  end.

Section Batcher.
(** Whether the name [th] is bound in the module.  The module itself has
    [import torch]; [th] can only come from the star import of
    [elefant.data.const], which is not among the sources. *)
Variable th_bound : bool.

(** Line 349. *)
Definition assert_same_shape (first : obj) (ls : list obj) : result unit :=
  oks ← mapM_result
          (fun e => s ← get_shape e; s0 ← get_shape first;
                    mret (bool_decide (s = s0))) ls;
  if forallb (fun ok : bool => ok) oks then mret tt
  else raise (AssertionError "All objects must have the same shape").

(** Lines 348-363, for a [first] that is neither a container nor [None].
    (The [print(9)] before the last [raise] is left out.) *)
Definition batch_leaf (check_shape : bool) (first : obj) (rest : list obj)
    : result obj :=
  let ls := first :: rest in
  _ ← (if check_shape then assert_same_shape first ls else mret tt);
  match first with
  | OArray Numpy _ => concat_axis0 Numpy ls
  | _ =>
      if th_bound then
        match first with
        | OArray Torch _ => concat_axis0 Torch ls
        | _ => raise (ValueError (unsupported_message first))
        end
      else raise (NameError "th")
  end.

(** The body of [batch_recursive_objects] for [ls = first :: rest].  The
    recursive calls do not pass [check_shape] on, so that it is false in
    them.  A comprehension such as [[d[k] for d in ls]] starts with the value
    [first] itself holds (the keys of a dict are distinct) and goes on with
    the values of [rest]. *)
Fixpoint batch_from (check_shape : bool) (first : obj) (rest : list obj)
    {struct first} : result obj :=
  match first with
  | ODict items =>
      items' ← mapM_result
                 (fun kv =>
                    vs ← mapM_result (getitem_key (fst kv)) rest;
                    b ← batch_from false (snd kv) vs;
                    mret (fst kv, b)) items;
      mret (ODict items')
  | OList elems =>
      elems' ← mapMi_result
                 (fun i v =>
                    vs ← mapM_result (getitem_idx i) rest;
                    batch_from false v vs) 0 elems;
      mret (OList elems')
  | ONamedTuple ty fields =>
      fields' ← mapM_result
                  (fun kv =>
                     vs ← mapM_result (getattr (fst kv)) rest;
                     b ← batch_from false (snd kv) vs;
                     mret (fst kv, b)) fields;
      mret (ONamedTuple ty fields')
  | OTuple elems =>
      elems' ← mapMi_result
                 (fun i v =>
                    vs ← mapM_result (getitem_idx i) rest;
                    batch_from false v vs) 0 elems;
      mret (OTuple elems')
  | ONone => mret ONone
  | OArray _ _ | OStr _ | OInt _ => batch_leaf check_shape first rest
  end.

(** Line 321: [first = ls[0]] raises [IndexError] on the empty list. *)
Definition batch_recursive_objects (ls : list obj) (check_shape : bool)
    : result obj :=
  match ls with
  | [] => raise IndexError
  | first :: rest => batch_from check_shape first rest
  end.
End Batcher.

(** ** Structure of batch records *)

(** A path into a record: dict keys, positions, field names. *)
Inductive step : Type :=
| Key (k : string)
| Idx (i : nat)
| Field (f : string).

Definition child (s : step) (o : obj) : option obj :=
  match s, o with
  | Key k, ODict items => assoc k items
  | Idx i, OList elems => elems !! i
  | Idx i, OTuple elems => elems !! i
  | Field f, ONamedTuple _ fields => assoc f fields
  | _, _ => None
  end.

Fixpoint descend (p : list step) (o : obj) : option obj :=
  match p with
  | [] => Some o
  | s :: p' =>
      match child s o with
      | Some o' => descend p' o'
      | None => None
      end
  end.

(** The structure of a record without its leaves' batch axis and cells:
    keys in order, lengths, arities, type and field names, [None] markers,
    and for an array its library and the axes after the first. *)
#[warnings="-register-all"] Inductive skel : Type :=
| KDict (items : list (string * skel))
| KList (elems : list skel)
| KNamedTuple (tyname : string) (fields : list (string * skel))
| KTuple (elems : list skel)
| KNone
| KArray (lib : array_lib) (inner : list nat)
| KStr
| KInt.

Fixpoint skeleton (o : obj) : skel :=
  match o with
  | ODict items => KDict (map (fun kv => (fst kv, skeleton (snd kv))) items)
  | OList elems => KList (map skeleton elems)
  | ONamedTuple ty fields =>
      KNamedTuple ty (map (fun kv => (fst kv, skeleton (snd kv))) fields)
  | OTuple elems => KTuple (map skeleton elems)
  | ONone => KNone
  | OArray lib a => KArray lib (tl (shape a))
  | OStr _ => KStr
  | OInt _ => KInt
  end.

(** A leaf of a type the batcher does not support. *)
Definition unsupported (o : obj) : Prop :=
  match o with
  | OStr _ | OInt _ => True
  | _ => False
  end.

Definition is_leaf (o : obj) : bool :=
  match o with
  | OArray _ _ | OStr _ | OInt _ => true
  | _ => false
  end.

Section Structure.
Variable th_bound : bool.

(** [same_structure first r]: the record [r] has the structure of [first]:
    the keys of a dict of [first] and values of the same structure under
    them, the same length for lists and tuples, the same type and fields
    for named tuples, [None] for [None], and for an array an array of the
    same library (a tensor only if [th] is bound), both with a batch axis
    and equal remaining axes.  Nothing is asked of [r] where [first] has
    an unsupported leaf. *)
#[warnings="-register-all"] Inductive same_structure : obj -> obj -> Prop :=
| ss_dict items items' :
    NoDup (map fst items) ->
    Forall (fun kv => exists v', assoc (fst kv) items' = Some v'
                                 /\ same_structure (snd kv) v') items ->
    same_structure (ODict items) (ODict items')
| ss_list elems elems' :
    Forall2 same_structure elems elems' ->
    same_structure (OList elems) (OList elems')
| ss_namedtuple ty fields fields' :
    NoDup (map fst fields) ->
    map fst fields' = map fst fields ->
    Forall2 same_structure (map snd fields) (map snd fields') ->
    same_structure (ONamedTuple ty fields) (ONamedTuple ty fields')
| ss_tuple elems elems' :
    Forall2 same_structure elems elems' ->
    same_structure (OTuple elems) (OTuple elems')
| ss_none : same_structure ONone ONone
| ss_array lib a b n m inner :
    (lib = Torch -> th_bound = true) ->
    shape a = n :: inner -> shape b = m :: inner ->
    same_structure (OArray lib a) (OArray lib b)
| ss_unsupported x r : unsupported x -> same_structure x r.

(** What the batch [out] of [first :: rest] holds at the array leaves of
    [first]: the concatenation of the leaves of the records at that
    place, along the batch axis. *)
Definition leaves_batched (first : obj) (rest : list obj) (out : obj) : Prop :=
  forall p lib a0,
    descend p first = Some (OArray lib a0) ->
    exists (arrs : list ndarray) (b : ndarray),
      Forall2 (fun r a => descend p r = Some (OArray lib a)) rest arrs
      /\ descend p out = Some (OArray lib b)
      /\ shape b = list_sum (map batch_size (a0 :: arrs)) :: tl (shape a0)
      /\ data b = concat (map data (a0 :: arrs)).

(** The exception for an unsupported leaf [x]. *)
Definition unsupported_error (x : obj) : exn :=
  if th_bound then ValueError (unsupported_message x) else NameError "th".

(** What a call of the batcher on [first :: rest] may do: return a record
    with the structure of [first] and the concatenated leaves, in which
    case [first] has no unsupported leaf; or raise the exception of an
    unsupported leaf of [first]. *)
Definition batch_outcome (first : obj) (rest : list obj) (res : result obj)
    : Prop :=
  match res with
  | inr out =>
      skeleton out = skeleton first
      /\ (forall p x, descend p first = Some x -> ~ unsupported x)
      /\ leaves_batched first rest out
  | inl e =>
      exists p x, descend p first = Some x /\ unsupported x
                  /\ e = unsupported_error x
  end.

(** The induction hypothesis for a value [v] held by a container. *)
Definition batch_spec_at (v : obj) : Prop :=
  forall rest,
    Forall (same_structure v) (v :: rest) ->
    batch_outcome v rest (batch_from th_bound false v rest).
End Structure.

(** The records of the docstring: [a] of shape (1, 1, 4), [b] of shape
    (2, 2, 4), and the dicts built from them. *)
Module Docstring.
Definition zeros (sh : list nat) : ndarray :=
  mkNdarray sh (repeat 0%Z (fold_right Nat.mul 1 sh)).

Definition a : obj := OArray Numpy (zeros [1; 1; 4]).
Definition b : obj := OArray Numpy (zeros [2; 2; 4]).
Definition c : list obj :=
  [ODict [("a", a); ("b", b)]; ODict [("a", a); ("b", b)]].
Definition e : list obj :=
  [ODict [("a", a); ("b", b); ("t", OTuple [a; b]); ("n", ONone)];
   ODict [("a", a); ("b", b); ("t", OTuple [a; b]); ("n", ONone)]].

(** Two top-level leaves with different batch sizes. *)
Definition rows_1_and_2 : list obj :=
  [OArray Numpy (zeros [1; 4]); OArray Numpy (zeros [2; 4])].
End Docstring.

(** Induction on records, with the hypothesis for every value a container
    holds. *)
Section ObjInduction.
Variable P : obj -> Prop.
Hypothesis Hdict :
  forall items, Forall (fun kv => P (snd kv)) items -> P (ODict items).
Hypothesis Hlist : forall elems, Forall P elems -> P (OList elems).
Hypothesis Hnamedtuple :
  forall ty fields, Forall (fun kv => P (snd kv)) fields ->
                    P (ONamedTuple ty fields).
Hypothesis Htuple : forall elems, Forall P elems -> P (OTuple elems).
Hypothesis Hnone : P ONone.
Hypothesis Harray : forall lib a, P (OArray lib a).
Hypothesis Hstr : forall s, P (OStr s).
Hypothesis Hint : forall n, P (OInt n).

Fixpoint obj_rect_nested (o : obj) : P o :=
  let entries :=
    fix go (l : list (string * obj)) : Forall (fun kv => P (snd kv)) l :=
      match l with
      | [] => List.Forall_nil _
      | kv :: l' => List.Forall_cons _ kv l' (obj_rect_nested (snd kv)) (go l')
      end in
  let elements :=
    fix go (l : list obj) : Forall P l :=
      match l with
      | [] => List.Forall_nil _
      | x :: l' => List.Forall_cons _ x l' (obj_rect_nested x) (go l')
      end in
  match o with
  | ODict items => Hdict items (entries items)
  | OList elems => Hlist elems (elements elems)
  | ONamedTuple ty fields => Hnamedtuple ty fields (entries fields)
  | OTuple elems => Htuple elems (elements elems)
  | ONone => Hnone
  | OArray lib a => Harray lib a
  | OStr s => Hstr s
  | OInt n => Hint n
  end.
End ObjInduction.

(** Whether a record holds a leaf of an unsupported type. *)
Fixpoint has_unsupported (o : obj) : bool :=
  match o with
  | ODict items => existsb (fun kv => has_unsupported (snd kv)) items
  | OList elems => existsb has_unsupported elems
  | ONamedTuple _ fields => existsb (fun kv => has_unsupported (snd kv)) fields
  | OTuple elems => existsb has_unsupported elems
  | ONone => false
  | OArray _ _ => false
  | OStr _ | OInt _ => true
  end.

(** ** Closed forms for the decoder *)

(** Whether some held key is mapped to the button [name] by the keyboard
    table. *)
Definition key_sets (KEYBOARD_BUTTON_MAPPING : gmap string string)
    (ks : list string) (name : string) : bool :=
  existsb (fun key => bool_decide (KEYBOARD_BUTTON_MAPPING !! key = Some name)) ks.

(** Whether the held mouse buttons set the button [name]: code 0 sets
    ["attack"], code 2 sets ["use"]. *)
Definition mouse_sets (m : Mouse) (name : string) : bool :=
  (bool_decide (name = "attack") && bool_decide (0%Z ∈ buttons m))
  || (bool_decide (name = "use") && bool_decide (2%Z ∈ buttons m)).

(** Whether the store of the mouse delta [d] succeeds: a zero delta
    stores the constant 0.0, another one its float product with the
    scaler, cut to an integer, which has to fit the cell. *)
Definition camera_fits (CAMERA_SCALER d : Q) : bool :=
  negb (float_truthy d)
  || Int64.fits (Float64.truncate (Float64.mul d CAMERA_SCALER)).

(** The value a camera cell ends with for the mouse delta [d]: the float
    product with the scaler cut to an integer, or 0 when that is beyond
    180. *)
Definition camera_cell (CAMERA_SCALER d : Q) : Z :=
  let t := Float64.truncate (Float64.mul d CAMERA_SCALER) in
  if (180 <? Int64.abs t)%Z then 0%Z else t.

(** The keys for which the decoder prints a diagnostic. *)
Definition unknown_key (KEYBOARD_BUTTON_MAPPING : gmap string string)
    (IGNORED_KEYS : list string) (key : string) : bool :=
  negb (bool_decide (is_Some (KEYBOARD_BUTTON_MAPPING !! key)))
  && negb (bool_decide (key ∈ IGNORED_KEYS)).

(** ** The unbatched path of [to_policy_action] *)

(** [v[None]]: a new leading axis of length 1. *)
Definition add_batch_axis (a : ndarray) : ndarray :=
  mkNdarray (1 :: shape a) (data a).

Section Pipeline.
Variable Buttons_ALL : list string.
Variable self : ActionTransformer.

(** [env2policy] on the action the decoder returns: the button values are
    Python integers and the camera is an array of shape (2,), so that
    [nbatch] is 2 and [dummy] is [np.zeros((2,))].  [np.stack] takes the
    entries when all of them are scalars (the result has shape
    [(len(Buttons.ALL),)]) or all of them are [dummy] (shape
    [(2, len(Buttons.ALL))]); it needs at least one entry. *)
Definition env2policy_unbatched (acs : EnvAction)
    : result (PolicyActionOf ndarray ndarray) :=
  let camera :=
    discretize_camera self
      (IZR (fst (env_camera acs)), IZR (snd (env_camera acs))) in
  let entries := map (fun k => env_buttons acs !! k) Buttons_ALL in
  b ← match entries with
      | [] => raise (ValueError "need at least one array to stack")
      | _ :: _ =>
          if forallb (fun e : option Z => bool_decide (is_Some e)) entries
          then mret (mkNdarray [length entries] (map (default 0%Z) entries))
          else if forallb (fun e : option Z => bool_decide (e = None)) entries
          then mret (mkNdarray [2; length entries]
                       (repeat 0%Z (2 * length entries)))
          else raise (ValueError "all input arrays must have the same shape")
      end;
  mret (mkPolicyAction b (mkNdarray [2] [fst camera; snd camera])).

(** Lines 258-259: a batch axis is added when the camera has one axis. *)
Definition with_batch_axis (p : PolicyActionOf ndarray ndarray)
    : PolicyActionOf ndarray ndarray :=
  if length (shape (policy_camera p)) =? 1
  then mkPolicyAction (add_batch_axis (policy_buttons p))
         (add_batch_axis (policy_camera p))
  else p.

(** [to_policy_action], with the tables of the constants module and the
    hierarchical mapper's [from_factored] (neither is among the sources) as
    parameters. *)
Definition to_policy_action {A : Type}
    (KEYBOARD_BUTTON_MAPPING : gmap string string) (IGNORED_KEYS : list string)
    (NOOP_ACTION : gmap string Z) (CAMERA_SCALER : Q)
    (from_factored : PolicyActionOf ndarray ndarray -> result A)
    (action_proto : LowLevelAction) : result A :=
  r ← annotation_action_to_env_action KEYBOARD_BUTTON_MAPPING IGNORED_KEYS
        NOOP_ACTION CAMERA_SCALER action_proto;
  let minerl_action_transformed := fst r in
  minerl_action ← env2policy_unbatched minerl_action_transformed;
  from_factored (with_batch_axis minerl_action).
End Pipeline.

(** Sizes that are far from the ends of [int64] and of the exact integers
    of binary64. *)
Definition sizes_in_range (q : CameraQuantizer) : Prop :=
  (0 < camera_maxval q < 2 ^ 31)%Z /\ (0 < camera_binsize q < 2 ^ 31)%Z.

(** A [mu] that is far from the values at which [1.0 + mu] rounds to 1,
    where it matters: under the mu-law scheme. *)
Definition mu_in_range (q : CameraQuantizer) : Prop :=
  quantization_scheme q = QuantizationScheme.MU_LAW -> (/ 1024 <= mu q)%R.

(** A bin whose centre lies in the range of the quantizer. *)
Definition bin_in_range (q : CameraQuantizer) (b : Z) : Prop :=
  (0 <= b * camera_binsize q <= 2 * camera_maxval q)%Z.

(** * Properties *)

(** ** Rounding lemmas *)

Section RoundFacts.
Local Open Scope R_scope.

Lemma Rabs_bound (a b : R) : Rabs a <= b -> - b <= a <= b.
Proof. unfold Rabs. destruct (Rcase_abs a); lra. Qed.

Lemma round_error (x : R) : Rabs (IZR (Np.round x) - x) <= 1 / 2.
Proof.
  unfold Np.round.
  pose proof (base_fp x) as [Hge Hlt].
  unfold frac_part in *.
  destruct (Rlt_dec _ _) as [H1|H1].
  - apply Rabs_le. lra.
  - destruct (Rlt_dec _ _) as [H2|H2].
    + rewrite plus_IZR. apply Rabs_le. lra.
    + destruct (Z.even _); [|rewrite plus_IZR]; apply Rabs_le; lra.
Qed.

Lemma round_near (x : R) (z : Z) :
  IZR z - 1 / 2 < x < IZR z + 1 / 2 -> Np.round x = z.
Proof.
  intros [Hlo Hhi].
  pose proof (round_error x) as He.
  apply Rabs_bound in He.
  set (r := Np.round x) in *.
  assert (Hlt : IZR r < IZR z + 1) by lra.
  assert (Hgt : IZR z < IZR r + 1) by lra.
  rewrite <- plus_IZR in Hlt, Hgt.
  apply lt_IZR in Hlt, Hgt. lia.
Qed.

Lemma round_IZR (z : Z) : Np.round (IZR z) = z.
Proof. apply round_near. lra. Qed.

(** Quantize-dequantize with step [b] moves a value by at most [b / 2]. *)
Lemma requantize_error (y b : R) :
  0 < b -> Rabs (IZR (Np.round (y / b)) * b - y) <= b / 2.
Proof.
  intros Hb.
  pose proof (round_error (y / b)) as He.
  apply Rabs_bound in He.
  assert (Hy : y = y / b * b) by (field; lra).
  apply Rabs_le. split.
  - rewrite Hy at 2. nra.
  - rewrite Hy at 2. nra.
Qed.

Lemma clip_id (x lo hi : R) : lo <= x <= hi -> Np.clip x lo hi = x.
Proof.
  intros [H1 H2]. unfold Np.clip.
  rewrite Rmax_left by lra. rewrite Rmin_right by lra. reflexivity.
Qed.

Lemma clip_hi (x lo hi : R) : lo <= hi -> hi <= x -> Np.clip x lo hi = hi.
Proof.
  intros H1 H2. unfold Np.clip.
  rewrite Rmax_left by lra. rewrite Rmin_left by lra. reflexivity.
Qed.
End RoundFacts.

(** ** The quantizer's two schemes *)

Section QuantizerFacts.
Local Open Scope R_scope.
Import QuantizationScheme.

Variable q : CameraQuantizer.
Abbreviation M := (IZR (camera_maxval q)).
Abbreviation B := (IZR (camera_binsize q)).

Lemma discretize_linear (x : R) :
  quantization_scheme q = LINEAR ->
  discretize q x = Np.round ((Np.clip x (- M) M + M) / B).
Proof. intros Hs. unfold discretize. rewrite Hs. reflexivity. Qed.

Lemma discretize_mu_law (x : R) :
  quantization_scheme q = MU_LAW ->
  discretize q x = Np.round ((mu_encode q (Np.clip x (- M) M) + M) / B).
Proof. intros Hs. unfold discretize. rewrite Hs. reflexivity. Qed.

Lemma wrap_fits (z : Z) : Int64.fits z = true -> Int64.wrap z = z.
Proof.
  unfold Int64.fits, Int64.wrap, Int64.min_int, Int64.max_int. intros H.
  apply andb_true_iff in H as [H1 H2]. apply Z.leb_le in H1, H2.
  rewrite Z.mod_small by lia. lia.
Qed.

Lemma fits_small (z : Z) : (- 2 ^ 62 <= z <= 2 ^ 62)%Z -> Int64.fits z = true.
Proof.
  intros H. unfold Int64.fits, Int64.min_int, Int64.max_int.
  apply andb_true_iff. split; apply Z.leb_le; lia.
Qed.

(** Away from the ends of [int64] the dequantization is the exact one. *)
Lemma linear_dequantize_small (b : Z) :
  (0 <= camera_maxval q < 2 ^ 31)%Z ->
  (0 <= b * camera_binsize q < 2 ^ 61)%Z ->
  linear_dequantize q b = IZR b * B - M.
Proof.
  intros HM Hb. unfold linear_dequantize.
  rewrite (wrap_fits (b * camera_binsize q)) by (apply fits_small; lia).
  rewrite wrap_fits by (apply fits_small; lia).
  rewrite minus_IZR, mult_IZR. reflexivity.
Qed.

Lemma undiscretize_value_linear (b : Z) :
  quantization_scheme q = LINEAR ->
  undiscretize_value q b = linear_dequantize q b.
Proof. intros Hs. unfold undiscretize_value. rewrite Hs. reflexivity. Qed.

Lemma undiscretize_value_mu_law (b : Z) :
  quantization_scheme q = MU_LAW ->
  undiscretize_value q b = mu_decode q (linear_dequantize q b).
Proof. intros Hs. unfold undiscretize_value. rewrite Hs. reflexivity. Qed.

Lemma mu_division_linear :
  quantization_scheme q = LINEAR -> mu_division q = inr tt.
Proof. intros Hs. unfold mu_division. rewrite Hs. reflexivity. Qed.

Lemma mu_division_nonzero : mu q <> 0 -> mu_division q = inr tt.
Proof.
  intros Hmu. unfold mu_division.
  destruct (String.eqb _ _); [|reflexivity].
  destruct (Req_dec_T (mu q) 0); [contradiction|reflexivity].
Qed.

Lemma mu_division_zero :
  quantization_scheme q = MU_LAW -> mu q = 0 ->
  mu_division q = inl ZeroDivisionError.
Proof.
  intros Hs Hmu. unfold mu_division. rewrite Hs. cbn.
  destruct (Req_dec_T (mu q) 0); [reflexivity|contradiction].
Qed.

(** The bin of a value [v] in range, and its product with the bin size. *)
Lemma bin_small (v : R) :
  sizes_in_range q -> - M <= v <= M ->
  (0 <= Np.round ((v + M) / B) * camera_binsize q < 2 ^ 61)%Z
  /\ (0 <= Np.round ((v + M) / B))%Z.
Proof.
  intros [[HM0 HM1] [HB0 HB1]] Hv.
  pose proof (IZR_lt _ _ HM0) as HM0'. pose proof (IZR_lt _ _ HB0) as HB0'.
  change (2 ^ 31)%Z with 2147483648%Z in HM1, HB1.
  pose proof (IZR_lt _ _ HM1) as HM1'. pose proof (IZR_lt _ _ HB1) as HB1'.
  pose proof (requantize_error (v + M) B HB0') as He.
  apply Rabs_bound in He.
  set (b := Np.round ((v + M) / B)) in *.
  assert (Hb0 : (0 <= b)%Z).
  { destruct (Z_lt_le_dec b 0) as [Hn|Hn]; [exfalso|exact Hn].
    assert (Hb1 : (b <= -1)%Z) by lia.
    apply IZR_le in Hb1. nra. }
  split; [|exact Hb0]. split; [nia|].
  apply lt_IZR. rewrite mult_IZR.
  change (2 ^ 61)%Z with 2305843009213693952%Z. lra.
Qed.

(** The dequantized bin is within half a bin of the value that was
    quantized, whatever the scheme computed before quantizing. *)
Lemma linear_dequantize_error (v : R) :
  sizes_in_range q -> - M <= v <= M ->
  Rabs (linear_dequantize q (Np.round ((v + M) / B)) - v) <= B / 2.
Proof.
  intros Hsz Hv.
  destruct (bin_small v Hsz Hv) as [Hb _].
  destruct Hsz as [[HM0 HM1] [HB0 HB1]].
  rewrite linear_dequantize_small by (try exact Hb; lia).
  pose proof (requantize_error (v + M) B (IZR_lt _ _ HB0)) as He.
  replace (IZR (Np.round ((v + M) / B)) * B - M - v)
    with (IZR (Np.round ((v + M) / B)) * B - (v + M)) by ring.
  exact He.
Qed.
End QuantizerFacts.

Section MuLawCounterexample.
Local Open Scope R_scope.
Import QuantizationScheme.

Lemma ln_16 : ln 16 = 4 * ln 2.
Proof.
  replace 16 with (2 ^ 4) by lra.
  rewrite ln_pow by lra. simpl INR. lra.
Qed.

Lemma ln_2_pos : 0 < ln 2.
Proof. pose proof ln_lt_2. lra. Qed.

(** [ln 12.85 > 0.9 * ln 16], because [12.85 ^ 10 > 2 ^ 36]. *)
Lemma ln_1285_lower : 9 / 10 * ln 16 < ln (257 / 20).
Proof.
  rewrite ln_16.
  assert (H : ln (2 ^ 36) < ln ((257 / 20) ^ 10)).
  { apply ln_increasing; lra. }
  rewrite !ln_pow in H by lra. simpl INR in H. lra.
Qed.

Lemma ln_1285_upper : ln (257 / 20) < ln 16.
Proof. apply ln_increasing; lra. Qed.
End MuLawCounterexample.

Section SignFacts.
Local Open Scope R_scope.

Lemma sign_pos (x : R) : 0 < x -> Np.sign x = 1.
Proof.
  intros H. unfold Np.sign.
  destruct (Rlt_dec x 0); [lra|]. destruct (Rlt_dec 0 x); [reflexivity|lra].
Qed.

Lemma sign_neg (x : R) : x < 0 -> Np.sign x = -1.
Proof. intros H. unfold Np.sign. destruct (Rlt_dec x 0); [reflexivity|lra]. Qed.

Lemma sign_zero : Np.sign 0 = 0.
Proof.
  unfold Np.sign.
  destruct (Rlt_dec 0 0); [lra|]. destruct (Rlt_dec 0 0); [lra|reflexivity].
Qed.
End SignFacts.

Section MuLawInverse.
Local Open Scope R_scope.
Variable q : CameraQuantizer.
Abbreviation M := (IZR (camera_maxval q)).
Hypothesis HM : 0 < M.
Hypothesis Hmu : 0 < mu q.

Lemma ln_1_mu_pos : 0 < ln (1 + mu q).
Proof. rewrite <- ln_1. apply ln_increasing; lra. Qed.

Lemma mu_decode_encode_pos (x : R) : 0 < x -> mu_decode q (mu_encode q x) = x.
Proof.
  intros Hx. unfold mu_decode, mu_encode.
  pose proof ln_1_mu_pos as Hl.
  assert (Hxm : 0 < x / M) by (apply Rdiv_lt_0_compat; lra).
  rewrite (sign_pos (x / M)) by exact Hxm.
  rewrite (Rabs_pos_eq (x / M)) by lra.
  assert (Hp : 0 < mu q * (x / M)) by (apply Rmult_lt_0_compat; lra).
  assert (Hn : 0 < ln (1 + mu q * (x / M))).
  { rewrite <- ln_1. apply ln_increasing; lra. }
  set (t := ln (1 + mu q * (x / M)) / ln (1 + mu q)).
  assert (Ht : 0 < t) by (apply Rdiv_lt_0_compat; lra).
  replace (1 * t * M / M) with t by (field; lra).
  rewrite (sign_pos t) by exact Ht.
  rewrite (Rabs_pos_eq t) by lra.
  unfold Rpower.
  replace (t * ln (1 + mu q)) with (ln (1 + mu q * (x / M)))
    by (unfold t; field; lra).
  rewrite exp_ln by lra.
  field. lra.
Qed.

Lemma mu_encode_opp (x : R) : mu_encode q (- x) = - mu_encode q x.
Proof.
  unfold mu_encode.
  replace (- x / M) with (- (x / M)) by (field; lra).
  rewrite Rabs_Ropp.
  destruct (Rtotal_order (x / M) 0) as [H|[H|H]].
  - rewrite (sign_neg _ H), (sign_pos (- (x / M))) by lra. ring.
  - rewrite H, Ropp_0, sign_zero. ring.
  - rewrite (sign_pos _ H), (sign_neg (- (x / M))) by lra. ring.
Qed.

Lemma mu_decode_opp (x : R) : mu_decode q (- x) = - mu_decode q x.
Proof.
  unfold mu_decode.
  replace (- x / M) with (- (x / M)) by (field; lra).
  rewrite Rabs_Ropp.
  destruct (Rtotal_order (x / M) 0) as [H|[H|H]].
  - rewrite (sign_neg _ H), (sign_pos (- (x / M))) by lra. ring.
  - rewrite H, Ropp_0, sign_zero. ring.
  - rewrite (sign_pos _ H), (sign_neg (- (x / M))) by lra. ring.
Qed.

(** On the reals the expansion inverts the compression. *)
Lemma mu_decode_encode (x : R) : mu_decode q (mu_encode q x) = x.
Proof.
  destruct (Rtotal_order x 0) as [H|[H|H]].
  - assert (Hx : 0 < - x) by lra.
    pose proof (mu_decode_encode_pos (- x) Hx) as E.
    rewrite mu_encode_opp, mu_decode_opp in E. lra.
  - subst x. unfold mu_decode, mu_encode.
    assert (E : 0 / M = 0) by (field; lra).
    rewrite E, sign_zero, !Rmult_0_l, E, sign_zero. ring.
  - apply mu_decode_encode_pos. exact H.
Qed.
End MuLawInverse.

(** ** C1: the round-trip bound *)

Section RoundOrder.
Local Open Scope R_scope.

Lemma round_monotone (x y : R) : x <= y -> (Np.round x <= Np.round y)%Z.
Proof.
  intros Hxy.
  destruct (Rle_lt_or_eq_dec x y Hxy) as [Hlt | ->]; [|lia].
  pose proof (round_error x) as Hx. apply Rabs_bound in Hx.
  pose proof (round_error y) as Hy. apply Rabs_bound in Hy.
  destruct (Z_lt_le_dec (Np.round y) (Np.round x)) as [Hc|Hc]; [|exact Hc].
  exfalso.
  assert (H1 : (Np.round y + 1 <= Np.round x)%Z) by lia.
  apply IZR_le in H1. rewrite plus_IZR in H1. lra.
Qed.
End RoundOrder.

Section MuLawOrder.
Local Open Scope R_scope.
Variable q : CameraQuantizer.
Abbreviation M := (IZR (camera_maxval q)).
Hypothesis HM : 0 < M.
Hypothesis Hmu : 0 < mu q.

Lemma mu_encode_nonneg (x : R) : 0 <= x -> 0 <= mu_encode q x.
Proof.
  intros Hx. unfold mu_encode.
  pose proof (ln_1_mu_pos q Hmu) as Hl.
  destruct (Rle_lt_or_eq_dec 0 x Hx) as [Hpos | <-].
  - assert (Hxm : 0 < x / M) by (apply Rdiv_lt_0_compat; lra).
    rewrite (sign_pos _ Hxm), (Rabs_pos_eq (x / M)) by lra.
    assert (Hp : 0 < mu q * (x / M)) by (apply Rmult_lt_0_compat; lra).
    assert (Hn : 0 < ln (1 + mu q * (x / M))).
    { rewrite <- ln_1. apply ln_increasing; lra. }
    assert (Ht : 0 < ln (1 + mu q * (x / M)) / ln (1 + mu q))
      by (apply Rdiv_lt_0_compat; lra).
    nra.
  - assert (E : 0 / M = 0) by (field; lra).
    rewrite E, sign_zero. lra.
Qed.

Lemma mu_encode_zero : mu_encode q 0 = 0.
Proof.
  unfold mu_encode. assert (E : 0 / M = 0) by (field; lra).
  rewrite E, sign_zero. ring.
Qed.

Lemma mu_encode_monotone_nonneg (x y : R) :
  0 <= x -> x <= y -> mu_encode q x <= mu_encode q y.
Proof.
  intros Hx Hxy.
  pose proof (ln_1_mu_pos q Hmu) as Hl.
  destruct (Rle_lt_or_eq_dec 0 x Hx) as [Hpos | <-];
    [|rewrite mu_encode_zero; apply mu_encode_nonneg; lra].
  destruct (Rle_lt_or_eq_dec x y Hxy) as [Hlt | ->]; [|lra].
  unfold mu_encode.
  assert (Hxm : 0 < x / M) by (apply Rdiv_lt_0_compat; lra).
  assert (Hym : 0 < y / M) by (apply Rdiv_lt_0_compat; lra).
  assert (Hxy' : x / M < y / M).
  { unfold Rdiv. apply Rmult_lt_compat_r; [apply Rinv_0_lt_compat|]; lra. }
  rewrite (sign_pos _ Hxm), (sign_pos _ Hym).
  rewrite (Rabs_pos_eq (x / M)), (Rabs_pos_eq (y / M)) by lra.
  assert (Hln : ln (1 + mu q * (x / M)) < ln (1 + mu q * (y / M))).
  { apply ln_increasing; nra. }
  assert (Hd : ln (1 + mu q * (x / M)) / ln (1 + mu q)
               < ln (1 + mu q * (y / M)) / ln (1 + mu q)).
  { unfold Rdiv. apply Rmult_lt_compat_r; [apply Rinv_0_lt_compat|]; lra. }
  nra.
Qed.

Lemma mu_encode_monotone (x y : R) : x <= y -> mu_encode q x <= mu_encode q y.
Proof.
  intros Hxy.
  destruct (Rle_dec 0 x) as [Hx|Hx].
  - by apply mu_encode_monotone_nonneg.
  - apply Rnot_le_lt in Hx.
    destruct (Rle_dec 0 y) as [Hy|Hy].
    + pose proof (mu_encode_nonneg y Hy) as H1.
      pose proof (mu_encode_nonneg (- x) ltac:(lra)) as H2.
      rewrite (mu_encode_opp q HM) in H2. lra.
    + apply Rnot_le_lt in Hy.
      pose proof (mu_encode_monotone_nonneg (- y) (- x) ltac:(lra) ltac:(lra)) as H.
      rewrite !(mu_encode_opp q HM) in H. lra.
Qed.

Lemma mu_encode_maxval : mu_encode q M = M.
Proof.
  unfold mu_encode. pose proof (ln_1_mu_pos q Hmu) as Hl.
  replace (M / M) with 1 by (field; lra).
  rewrite sign_pos, Rabs_pos_eq by lra.
  replace (1 + mu q * 1) with (1 + mu q) by ring.
  field. lra.
Qed.
End MuLawOrder.

Section MuLawInverseOnBins.
Local Open Scope R_scope.
Variable q : CameraQuantizer.
Abbreviation M := (IZR (camera_maxval q)).
Hypothesis HM : 0 < M.
Hypothesis Hmu : 0 < mu q.

Lemma mu_decode_zero : mu_decode q 0 = 0.
Proof.
  unfold mu_decode. assert (E : 0 / M = 0) by (field; lra).
  rewrite E, sign_zero. ring.
Qed.

Lemma Rpower_gt_1 (t : R) : 0 < t -> 1 < Rpower (1 + mu q) t.
Proof.
  intros Ht. unfold Rpower.
  assert (H : exp 0 < exp (t * ln (1 + mu q))).
  { apply exp_increasing.
    apply Rmult_lt_0_compat; [exact Ht|apply (ln_1_mu_pos q Hmu)]. }
  rewrite exp_0 in H. exact H.
Qed.

Lemma Rpower_le_base (t : R) : 0 < t -> t <= 1 -> Rpower (1 + mu q) t <= 1 + mu q.
Proof.
  intros Ht Ht1.
  rewrite <- (Rpower_1 (1 + mu q)) at 2 by lra.
  apply Rle_Rpower; lra.
Qed.

Lemma mu_decode_pos_bounds (v : R) :
  0 < v -> v <= M -> 0 < mu_decode q v <= M.
Proof.
  intros Hv HvM. unfold mu_decode.
  assert (Ht : 0 < v / M) by (apply Rdiv_lt_0_compat; lra).
  assert (Ht1 : v / M <= 1).
  { apply (Rmult_le_reg_r M); [lra|]. replace (v / M * M) with v by (field; lra). lra. }
  rewrite (sign_pos _ Ht), (Rabs_pos_eq (v / M)) by lra.
  pose proof (Rpower_gt_1 _ Ht) as H1.
  pose proof (Rpower_le_base _ Ht Ht1) as H2.
  set (P := Rpower (1 + mu q) (v / M)) in *.
  assert (Hi : 0 < 1 / mu q) by (apply Rdiv_lt_0_compat; lra).
  assert (Hk : 1 / mu q * (P - 1) <= 1).
  { replace 1 with (1 / mu q * mu q) at 3 by (field; lra).
    apply Rmult_le_compat_l; lra. }
  assert (Hk0 : 0 < 1 / mu q * (P - 1)) by (apply Rmult_lt_0_compat; lra).
  split; nra.
Qed.

Lemma mu_encode_decode_pos (v : R) : 0 < v -> mu_encode q (mu_decode q v) = v.
Proof.
  intros Hv. unfold mu_encode, mu_decode.
  pose proof (ln_1_mu_pos q Hmu) as Hl.
  assert (Ht : 0 < v / M) by (apply Rdiv_lt_0_compat; lra).
  rewrite (sign_pos _ Ht), (Rabs_pos_eq (v / M)) by lra.
  pose proof (Rpower_gt_1 _ Ht) as H1.
  assert (HlnP : ln (Rpower (1 + mu q) (v / M)) = v / M * ln (1 + mu q))
    by apply ln_Rpower.
  set (P := Rpower (1 + mu q) (v / M)) in *.
  assert (Hi : 0 < 1 / mu q) by (apply Rdiv_lt_0_compat; lra).
  assert (Hk0 : 0 < 1 / mu q * (P - 1)) by (apply Rmult_lt_0_compat; lra).
  replace (1 * (1 / mu q) * (P - 1) * M / M) with (1 / mu q * (P - 1))
    by (field; lra).
  rewrite (sign_pos _ Hk0), (Rabs_pos_eq (1 / mu q * (P - 1))) by lra.
  replace (1 + mu q * (1 / mu q * (P - 1))) with P by (field; lra).
  rewrite HlnP. field. lra.
Qed.

(** On the reals the compression inverts the expansion. *)
Lemma mu_encode_decode (v : R) : mu_encode q (mu_decode q v) = v.
Proof.
  destruct (Rtotal_order v 0) as [H|[H|H]].
  - assert (Hv : 0 < - v) by lra.
    pose proof (mu_encode_decode_pos (- v) Hv) as E.
    rewrite (mu_decode_opp q HM), (mu_encode_opp q HM) in E. lra.
  - subst v. rewrite mu_decode_zero. apply mu_encode_zero; assumption.
  - by apply mu_encode_decode_pos.
Qed.

Lemma mu_decode_bounds (v : R) : - M <= v <= M -> - M <= mu_decode q v <= M.
Proof.
  intros [Hlo Hhi].
  destruct (Rtotal_order v 0) as [H|[H|H]].
  - pose proof (mu_decode_pos_bounds (- v) ltac:(lra) ltac:(lra)) as Hb.
    rewrite (mu_decode_opp q HM) in Hb. lra.
  - subst v. rewrite mu_decode_zero. lra.
  - pose proof (mu_decode_pos_bounds v H Hhi). lra.
Qed.
End MuLawInverseOnBins.

Section QuantizerOrder.
Local Open Scope R_scope.
Import QuantizationScheme.


Lemma clip_bounds (x lo hi : R) : lo <= hi -> lo <= Np.clip x lo hi <= hi.
Proof.
  intros H. unfold Np.clip, Rmin, Rmax.
  repeat destruct (Rle_dec _ _); lra.
Qed.

Lemma scheme_cases (q : CameraQuantizer) :
  (String.eqb (quantization_scheme q) MU_LAW = true
   /\ quantization_scheme q = MU_LAW)
  \/ String.eqb (quantization_scheme q) MU_LAW = false.
Proof.
  destruct (String.eqb_spec (quantization_scheme q) MU_LAW); auto.
Qed.

Lemma div_monotone (a b c : R) : 0 < c -> a <= b -> a / c <= b / c.
Proof.
  intros Hc Hab. unfold Rdiv.
  apply Rmult_le_compat_r; [|exact Hab].
  apply Rlt_le, Rinv_0_lt_compat, Hc.
Qed.
End QuantizerOrder.

Section RoundTrip.
Local Open Scope R_scope.
Import QuantizationScheme Counterexample.

Lemma mu_law_15_encode : 9 < mu_encode mu_law_15 (79 / 10) < 10.
Proof.
  unfold mu_encode, mu_law_15. cbn [camera_maxval mu].
  replace (79 / 10 / 10) with (79 / 100) by lra.
  rewrite sign_pos by lra. rewrite Rabs_pos_eq by lra.
  replace (1 + 15 * (79 / 100)) with (257 / 20) by lra.
  replace (1 + 15) with 16 by lra.
  pose proof ln_1285_lower as Hlo. pose proof ln_1285_upper as Hhi.
  pose proof ln_16 as H16. pose proof ln_2_pos as H2.
  set (t := ln (257 / 20) / ln 16).
  assert (Ht : t * ln 16 = ln (257 / 20)) by (unfold t; field; lra).
  assert (H16' : 0 < ln 16) by lra.
  split; nra.
Qed.

Lemma mu_law_15_discretize : discretize mu_law_15 (79 / 10) = 10%Z.
Proof.
  rewrite discretize_mu_law by reflexivity.
  cbn [camera_maxval camera_binsize mu_law_15].
  rewrite clip_id by lra.
  pose proof mu_law_15_encode as [Hlo Hhi].
  apply round_near. lra.
Qed.

Lemma mu_law_15_undiscretize : undiscretize mu_law_15 10 = inr 10.
Proof.
  unfold undiscretize.
  rewrite mu_division_nonzero by (cbn; lra).
  cbn [mbind result_bind mret result_ret]. f_equal.
  rewrite undiscretize_value_mu_law by reflexivity.
  rewrite linear_dequantize_small by (cbn; lia).
  unfold mu_decode. cbn [camera_maxval camera_binsize mu mu_law_15].
  replace ((10 * 2 - 10) / 10) with 1 by lra.
  rewrite sign_pos by lra. rewrite Rabs_pos_eq by lra.
  rewrite Rpower_1 by lra. lra.
Qed.

Lemma mu_encode_bounds (q : CameraQuantizer) (x : R) :
  0 < IZR (camera_maxval q) -> 0 < mu q ->
  - IZR (camera_maxval q) <= x <= IZR (camera_maxval q) ->
  - IZR (camera_maxval q) <= mu_encode q x <= IZR (camera_maxval q).
Proof.
  intros HM Hmu [Hlo Hhi].
  pose proof (mu_encode_monotone q HM Hmu _ _ Hlo) as H1.
  pose proof (mu_encode_monotone q HM Hmu _ _ Hhi) as H2.
  rewrite (mu_encode_opp q HM), (mu_encode_maxval q HM Hmu) in H1.
  rewrite (mu_encode_maxval q HM Hmu) in H2. lra.
Qed.

(** C1, counterexample: with [maxval = 10], [binsize = 2] (which divides the
    range), the mu-law scheme and [mu = 15], the delta [7.9] lies in range,
    is quantized to the top bin and comes back as [10]: the round trip is
    off by [2.1 > binsize]. *)
Lemma roundtrip_bound_fails_for_mu_law :
  (0 < camera_maxval mu_law_15)%Z /\
  (0 < camera_binsize mu_law_15)%Z /\
  Z.divide (camera_binsize mu_law_15) (2 * camera_maxval mu_law_15) /\
  0 < mu mu_law_15 /\
  quantization_scheme mu_law_15 = MU_LAW /\
  - IZR (camera_maxval mu_law_15) <= 79 / 10 <= IZR (camera_maxval mu_law_15) /\
  undiscretize mu_law_15 (discretize mu_law_15 (79 / 10)) = inr 10 /\
  ~ Rabs (10 - 79 / 10) <= IZR (camera_binsize mu_law_15).
Proof.
  repeat split; try (cbn; lia); try (cbn; lra).
  - exists 10%Z. reflexivity.
  - rewrite mu_law_15_discretize. apply mu_law_15_undiscretize.
  - cbn [camera_binsize mu_law_15].
    rewrite Rabs_pos_eq by lra. lra.
Qed.

(** C1 (amended), the float operations taken as those of the real numbers:
    for [maxval] and [binsize] positive and below [2 ^ 31] and every delta
    [x] in [[-maxval, maxval]]: under the linear scheme
    [undiscretize(discretize(x))] returns a value within [binsize] of [x];
    under the mu-law scheme with [mu >= 2 ^ -10] it returns the mu-law
    expansion of the linearly dequantized bin, and it is this dequantized
    bin that lies within [binsize] of the mu-law compression of [x]. *)
Theorem roundtrip_bound (q : CameraQuantizer) (x : R) :
  sizes_in_range q ->
  mu_in_range q ->
  - IZR (camera_maxval q) <= x <= IZR (camera_maxval q) ->
  (quantization_scheme q = LINEAR ->
     exists v,
       undiscretize q (discretize q x) = inr v
       /\ Rabs (v - x) <= IZR (camera_binsize q)) /\
  (quantization_scheme q = MU_LAW ->
     undiscretize q (discretize q x)
       = inr (mu_decode q (linear_dequantize q (discretize q x))) /\
     Rabs (linear_dequantize q (discretize q x) - mu_encode q x)
       <= IZR (camera_binsize q)).
Proof.
  intros Hsz Hmu Hx.
  pose proof Hsz as [[HM _] [HB _]].
  apply IZR_lt in HM, HB.
  split.
  - intros Hs.
    pose proof (linear_dequantize_error q x Hsz Hx) as He.
    rewrite discretize_linear, clip_id by assumption.
    unfold undiscretize. rewrite (mu_division_linear q Hs).
    cbn [mbind result_bind mret result_ret]. eexists. split; [reflexivity|].
    rewrite undiscretize_value_linear by exact Hs. lra.
  - intros Hs. specialize (Hmu Hs).
    assert (Hmu0 : 0 < mu q).
    { assert (0 < / 1024) by (apply Rinv_0_lt_compat; lra). lra. }
    split.
    + unfold undiscretize. rewrite mu_division_nonzero by lra.
      cbn [mbind result_bind mret result_ret].
      rewrite undiscretize_value_mu_law by exact Hs. reflexivity.
    + pose proof (mu_encode_bounds q x HM Hmu0 Hx) as Hb.
      pose proof (linear_dequantize_error q (mu_encode q x) Hsz Hb) as He.
      rewrite discretize_mu_law, clip_id by assumption. lra.
Qed.

Lemma roundtrip_bound_witness :
  exists v,
    undiscretize (mkCameraQuantizer 10 2 LINEAR 5)
      (discretize (mkCameraQuantizer 10 2 LINEAR 5) 3) = inr v
    /\ Rabs (v - 3) <= 2.
Proof.
  refine (proj1 (roundtrip_bound (mkCameraQuantizer 10 2 LINEAR 5) 3 _ _ _) _).
  - split; cbn; lia.
  - intros H. discriminate H.
  - cbn. lra.
  - reflexivity.
Defined.
End RoundTrip.

(** ** C2: the concrete example *)

Section ConcreteExample.
Import Example.

Lemma example_product : (dx (mouse event) * CAMERA_SCALER == 27 # 2)%Q.
Proof. reflexivity. Qed.

Lemma example_float_product :
  (Float64.mul (dx (mouse event)) CAMERA_SCALER == 27 # 2)%Q.
Proof. reflexivity. Qed.

Lemma example_decode :
  decode event
  = inr (mkEnvAction
           (<["forward" := 1%Z]> (<["attack" := 1%Z]> (<["use" := 0%Z]> ∅)))
           (0, 13)%Z,
         false).
Proof. vm_compute. reflexivity. Qed.

Local Open Scope R_scope.

Lemma example_discretize_top (x : R) : 10 <= x -> discretize quantizer x = 10%Z.
Proof.
  intros Hx. rewrite discretize_linear by reflexivity.
  cbn [camera_maxval camera_binsize quantizer].
  rewrite clip_hi by lra.
  replace ((10 + 10) / 2) with (IZR 10) by lra.
  apply round_IZR.
Qed.

Lemma example_discretize_zero : discretize quantizer 0 = 5%Z.
Proof.
  rewrite discretize_linear by reflexivity.
  cbn [camera_maxval camera_binsize quantizer].
  rewrite clip_id by lra.
  replace ((0 + 10) / 2) with (IZR 5) by lra.
  apply round_IZR.
Qed.
End ConcreteExample.

Section ConcreteExampleTheorem.
Import Example.

(** C2: on the event of the example (forward key held, [dx = 90], [dy = 0],
    mouse button 0, sensitivity 0.15) the decoder returns [forward = 1],
    [attack = 1], [use = 0] and [is_null_action = false], but its camera is
    [(0, 13)], not [(0, 13.5)]: the product [90 * 0.15 = 13.5] is stored
    into a cell of the integer array made by [np.array([0, 0])] and loses
    its fraction.  Under the linear scheme with [maxval = 10] and
    [binsize = 2] both [(0, 13)] and [(0, 13.5)] are discretized to the
    bins [(5, 10)]. *)
Theorem concrete_example_camera_truncated :
  decode event
  = inr (mkEnvAction
           (<["forward" := 1%Z]> (<["attack" := 1%Z]> (<["use" := 0%Z]> ∅)))
           (0, 13)%Z,
         false)
  /\ (dx (mouse event) * CAMERA_SCALER == 27 # 2)%Q
  /\ (Float64.mul (dx (mouse event)) CAMERA_SCALER == 27 # 2)%Q
  /\ (forall r, decode event = inr r ->
        ~ (inject_Z (snd (env_camera (fst r))) == 27 # 2)%Q)
  /\ discretize_xy quantizer (IZR 0, IZR 13) = (5, 10)%Z
  /\ discretize_xy quantizer (0, 27 / 2)%R = (5, 10)%Z.
Proof.
  split; [exact example_decode|].
  split; [reflexivity|].
  split; [reflexivity|].
  split.
  { intros r Hr. rewrite example_decode in Hr. injection Hr as <-.
    cbn. intros H. discriminate H. }
  unfold discretize_xy; cbn [fst snd].
  rewrite example_discretize_zero.
  rewrite !example_discretize_top by lra.
  split; reflexivity.
Qed.
End ConcreteExampleTheorem.

(** ** C3: the null-action flag *)

Section DecoderSteps.
Variable KEYBOARD_BUTTON_MAPPING : gmap string string.
Variable IGNORED_KEYS : list string.
Variable NOOP_ACTION : gmap string Z.
Variable CAMERA_SCALER : Q.

Abbreviation key_step' := (key_step KEYBOARD_BUTTON_MAPPING IGNORED_KEYS).
Abbreviation keys_loop' := (keys_loop KEYBOARD_BUTTON_MAPPING IGNORED_KEYS).
Abbreviation mapped k := (bool_decide (is_Some (KEYBOARD_BUTTON_MAPPING !! k))).
Abbreviation run := (decoder_run KEYBOARD_BUTTON_MAPPING IGNORED_KEYS
                       NOOP_ACTION CAMERA_SCALER).
Abbreviation decode := (annotation_action_to_env_action
                          KEYBOARD_BUTTON_MAPPING IGNORED_KEYS NOOP_ACTION
                          CAMERA_SCALER).
Abbreviation cell d := (Float64.truncate (Float64.mul d CAMERA_SCALER)).

(** *** The key loop *)

Lemma key_step_flag (st : DecoderState) (k : string) :
  is_null_action (key_step' st k) = is_null_action st && negb (mapped k).
Proof.
  unfold key_step.
  destruct (KEYBOARD_BUTTON_MAPPING !! k) as [name|] eqn:E.
  - rewrite bool_decide_eq_true_2 by eauto. cbn. by rewrite andb_false_r.
  - assert (Hn : bool_decide (is_Some (@None string)) = false)
      by apply bool_decide_eq_false_2, is_Some_None.
    rewrite Hn. cbn. rewrite andb_true_r.
    destruct (bool_decide (k ∈ IGNORED_KEYS)); reflexivity.
Qed.

Lemma keys_loop_flag (ks : list string) (st : DecoderState) :
  is_null_action (keys_loop' st ks)
  = is_null_action st && forallb (fun k => negb (mapped k)) ks.
Proof.
  revert st. induction ks as [|k ks IH]; intros st; cbn.
  - by rewrite andb_true_r.
  - unfold keys_loop in IH. rewrite IH, key_step_flag. by rewrite andb_assoc.
Qed.

Lemma keys_loop_raised (ks : list string) (st : DecoderState) :
  raised (keys_loop' st ks) = raised st.
Proof.
  revert st. induction ks as [|k ks IH]; intros st; [reflexivity|].
  cbn. unfold keys_loop in IH. rewrite IH. unfold key_step.
  destruct (KEYBOARD_BUTTON_MAPPING !! k); [reflexivity|].
  destruct (bool_decide _); reflexivity.
Qed.

Lemma keys_loop_camera (ks : list string) (st : DecoderState) :
  env_camera (env_action (keys_loop' st ks)) = env_camera (env_action st).
Proof.
  revert st. induction ks as [|k ks IH]; intros st; [reflexivity|].
  cbn. unfold keys_loop in IH. rewrite IH. unfold key_step.
  destruct (KEYBOARD_BUTTON_MAPPING !! k); [reflexivity|].
  destruct (bool_decide _); reflexivity.
Qed.

Lemma keys_loop_buttons (ks : list string) (st : DecoderState) (name : string) :
  env_buttons (env_action (keys_loop' st ks)) !! name
  = if key_sets KEYBOARD_BUTTON_MAPPING ks name then Some 1%Z
    else env_buttons (env_action st) !! name.
Proof.
  revert st. induction ks as [|k ks IH]; intros st; [reflexivity|].
  cbn [keys_loop fold_left key_sets existsb].
  unfold keys_loop in IH. rewrite IH. fold (key_sets KEYBOARD_BUTTON_MAPPING ks name).
  destruct (key_sets KEYBOARD_BUTTON_MAPPING ks name);
    [by rewrite orb_true_r|]. rewrite orb_false_r.
  unfold key_step.
  destruct (KEYBOARD_BUTTON_MAPPING !! k) as [n|] eqn:E.
  - cbn [env_action set_button env_buttons].
    case_bool_decide as Hn.
    + injection Hn as ->. by rewrite lookup_insert_eq.
    + rewrite lookup_insert_ne; [reflexivity|]. intros ->. by apply Hn.
  - rewrite (bool_decide_eq_false_2 (None = Some name))
      by (intros Hc; discriminate Hc).
    destruct (bool_decide (k ∈ IGNORED_KEYS)); reflexivity.
Qed.

Lemma keys_loop_stdout (ks : list string) (st : DecoderState) :
  stdout (keys_loop' st ks)
  = stdout st
    ++ map (fun k => String.append k " not in the mapping")
         (List.filter (unknown_key KEYBOARD_BUTTON_MAPPING IGNORED_KEYS) ks).
Proof.
  revert st. induction ks as [|k ks IH]; intros st; cbn.
  - by rewrite app_nil_r.
  - unfold keys_loop in IH. rewrite IH. unfold key_step, unknown_key.
    destruct (KEYBOARD_BUTTON_MAPPING !! k) as [n|] eqn:E.
    + rewrite bool_decide_eq_true_2 by eauto. reflexivity.
    + assert (Hn : bool_decide (is_Some (@None string)) = false)
        by apply bool_decide_eq_false_2, is_Some_None.
      rewrite Hn. cbn [negb andb].
      destruct (bool_decide (k ∈ IGNORED_KEYS)); cbn [negb stdout map].
      * reflexivity.
      * by rewrite <- app_assoc.
Qed.

(** *** The camera stores *)


Lemma float_truthy_true (x : Q) : ~ (x == 0)%Q -> float_truthy x = true.
Proof.
  unfold float_truthy, Qeq. cbn. intros H.
  destruct (Z.eqb_spec (Qnum x) 0) as [E|E]; [|reflexivity].
  exfalso. apply H. lia.
Qed.

Lemma zero_delta_cell (d : Q) : float_truthy d = false -> cell d = 0%Z.
Proof.
  unfold float_truthy. intros H. apply negb_false_iff, Z.eqb_eq in H.
  unfold Float64.mul, Float64.round. cbn [Qnum Qmult]. rewrite H.
  reflexivity.
Qed.


Lemma store_cell_flag (set : Z -> EnvAction -> EnvAction) (v : Q)
    (st : DecoderState) :
  is_null_action (store_cell set v st) = is_null_action st.
Proof. unfold store_cell. destruct (int64_of_float v); reflexivity. Qed.

Lemma store_cell_stdout (set : Z -> EnvAction -> EnvAction) (v : Q)
    (st : DecoderState) :
  stdout (store_cell set v st) = stdout st.
Proof. unfold store_cell. destruct (int64_of_float v); reflexivity. Qed.

Lemma pitch_step_flag (m : Mouse) (st : DecoderState) :
  is_null_action (pitch_step CAMERA_SCALER m st)
  = is_null_action st && negb (float_truthy (dy m)).
Proof.
  unfold pitch_step. destruct (float_truthy (dy m)).
  - rewrite store_cell_flag. cbn. by rewrite andb_false_r.
  - cbn. by rewrite andb_true_r.
Qed.

Lemma yaw_step_flag (m : Mouse) (st : DecoderState) :
  is_null_action (yaw_step CAMERA_SCALER m st)
  = is_null_action st && negb (float_truthy (dx m)).
Proof.
  unfold yaw_step. destruct (float_truthy (dx m)).
  - rewrite store_cell_flag. cbn. by rewrite andb_false_r.
  - cbn. by rewrite andb_true_r.
Qed.

Lemma pitch_step_fits (m : Mouse) (st : DecoderState) :
  camera_fits CAMERA_SCALER (dy m) = true ->
  pitch_step CAMERA_SCALER m st
  = mkDecoderState (set_camera0 (cell (dy m)) (env_action st))
      (is_null_action st && negb (float_truthy (dy m))) (stdout st)
      (raised st).
Proof.
  unfold camera_fits, pitch_step. intros H.
  destruct (float_truthy (dy m)) eqn:E.
  - cbn [negb orb] in H. unfold store_cell, int64_of_float. rewrite H.
    cbn. by rewrite andb_false_r.
  - rewrite (zero_delta_cell _ E). cbn. by rewrite andb_true_r.
Qed.

Lemma yaw_step_fits (m : Mouse) (st : DecoderState) :
  camera_fits CAMERA_SCALER (dx m) = true ->
  yaw_step CAMERA_SCALER m st
  = mkDecoderState (set_camera1 (cell (dx m)) (env_action st))
      (is_null_action st && negb (float_truthy (dx m))) (stdout st)
      (raised st).
Proof.
  unfold camera_fits, yaw_step. intros H.
  destruct (float_truthy (dx m)) eqn:E.
  - cbn [negb orb] in H. unfold store_cell, int64_of_float. rewrite H.
    cbn. by rewrite andb_false_r.
  - rewrite (zero_delta_cell _ E). cbn. by rewrite andb_true_r.
Qed.

Lemma pitch_step_overflow (m : Mouse) (st : DecoderState) :
  camera_fits CAMERA_SCALER (dy m) = false ->
  raised (pitch_step CAMERA_SCALER m st) = Some OverflowError.
Proof.
  unfold camera_fits, pitch_step. intros H.
  apply orb_false_iff in H as [H1 H2]. apply negb_false_iff in H1.
  rewrite H1. unfold store_cell, int64_of_float. rewrite H2. reflexivity.
Qed.

Lemma yaw_step_overflow (m : Mouse) (st : DecoderState) :
  camera_fits CAMERA_SCALER (dx m) = false ->
  raised (yaw_step CAMERA_SCALER m st) = Some OverflowError.
Proof.
  unfold camera_fits, yaw_step. intros H.
  apply orb_false_iff in H as [H1 H2]. apply negb_false_iff in H1.
  rewrite H1. unfold store_cell, int64_of_float. rewrite H2. reflexivity.
Qed.

Lemma pitch_step_stdout (m : Mouse) (st : DecoderState) :
  stdout (pitch_step CAMERA_SCALER m st) = stdout st.
Proof.
  unfold pitch_step. destruct (float_truthy _); [|reflexivity].
  by rewrite store_cell_stdout.
Qed.

Lemma yaw_step_stdout (m : Mouse) (st : DecoderState) :
  stdout (yaw_step CAMERA_SCALER m st) = stdout st.
Proof.
  unfold yaw_step. destruct (float_truthy _); [|reflexivity].
  by rewrite store_cell_stdout.
Qed.

(** *** The range check and the mouse buttons *)

Lemma glitch_step_flag (st : DecoderState) :
  is_null_action (glitch_step st) = is_null_action st.
Proof. reflexivity. Qed.

Lemma glitch_step_camera (st : DecoderState) :
  env_camera (env_action (glitch_step st))
  = ((if (180 <? Int64.abs (fst (env_camera (env_action st))))%Z then 0%Z
      else fst (env_camera (env_action st))),
     (if (180 <? Int64.abs (snd (env_camera (env_action st))))%Z then 0%Z
      else snd (env_camera (env_action st)))).
Proof.
  unfold glitch_step. destruct st as [[b [c0 c1]] f o r].
  cbn [env_action env_camera fst snd].
  destruct (180 <? Int64.abs c0)%Z;
    cbn [set_camera0 env_camera env_buttons fst snd];
    destruct (180 <? Int64.abs c1)%Z; reflexivity.
Qed.

Lemma glitch_step_buttons (st : DecoderState) :
  env_buttons (env_action (glitch_step st)) = env_buttons (env_action st).
Proof.
  unfold glitch_step.
  repeat match goal with
         | |- context [if ?c then _ else _] => destruct c
         end; reflexivity.
Qed.

Lemma attack_step_flag (m : Mouse) (st : DecoderState) :
  is_null_action (attack_step m st)
  = is_null_action st && negb (bool_decide (0%Z ∈ buttons m)).
Proof.
  unfold attack_step. destruct (bool_decide _); cbn.
  - by rewrite andb_false_r.
  - by rewrite andb_true_r.
Qed.

Lemma use_step_flag (m : Mouse) (st : DecoderState) :
  is_null_action (use_step m st)
  = is_null_action st && negb (bool_decide (2%Z ∈ buttons m)).
Proof.
  unfold use_step. destruct (bool_decide _); cbn.
  - by rewrite andb_false_r.
  - by rewrite andb_true_r.
Qed.

Lemma mouse_buttons_step_flag (m : Mouse) (st : DecoderState) :
  is_null_action (mouse_buttons_step m st)
  = is_null_action st
    && negb (bool_decide (0%Z ∈ buttons m))
    && negb (bool_decide (2%Z ∈ buttons m)).
Proof.
  unfold mouse_buttons_step. destruct (buttons m) as [|b bs] eqn:E.
  - rewrite !bool_decide_eq_false_2 by (apply not_elem_of_nil).
    cbn. by rewrite !andb_true_r.
  - rewrite use_step_flag, attack_step_flag. by rewrite E.
Qed.

Lemma mouse_buttons_step_camera (m : Mouse) (st : DecoderState) :
  env_camera (env_action (mouse_buttons_step m st)) = env_camera (env_action st).
Proof.
  unfold mouse_buttons_step, use_step, attack_step.
  destruct (buttons m); [reflexivity|].
  destruct (bool_decide (0%Z ∈ z :: l)), (bool_decide (2%Z ∈ z :: l)); reflexivity.
Qed.

Lemma mouse_buttons_step_raised (m : Mouse) (st : DecoderState) :
  raised (mouse_buttons_step m st) = raised st.
Proof.
  unfold mouse_buttons_step, use_step, attack_step.
  destruct (buttons m); [reflexivity|].
  destruct (bool_decide (0%Z ∈ z :: l)), (bool_decide (2%Z ∈ z :: l)); reflexivity.
Qed.

Lemma mouse_buttons_step_stdout (m : Mouse) (st : DecoderState) :
  stdout (mouse_buttons_step m st) = stdout st.
Proof.
  unfold mouse_buttons_step, use_step, attack_step.
  destruct (buttons m); [reflexivity|].
  destruct (bool_decide (0%Z ∈ z :: l)), (bool_decide (2%Z ∈ z :: l)); reflexivity.
Qed.

Lemma attack_step_buttons (m : Mouse) (st : DecoderState) (name : string) :
  env_buttons (env_action (attack_step m st)) !! name
  = if bool_decide (name = "attack") && bool_decide (0%Z ∈ buttons m)
    then Some 1%Z
    else env_buttons (env_action st) !! name.
Proof.
  unfold attack_step. destruct (bool_decide (0%Z ∈ buttons m)).
  - rewrite andb_true_r. cbn [env_action set_button env_buttons].
    case_bool_decide as Hn.
    + subst name. apply lookup_insert_eq.
    + apply lookup_insert_ne. congruence.
  - by rewrite andb_false_r.
Qed.

Lemma use_step_buttons (m : Mouse) (st : DecoderState) (name : string) :
  env_buttons (env_action (use_step m st)) !! name
  = if bool_decide (name = "use") && bool_decide (2%Z ∈ buttons m)
    then Some 1%Z
    else env_buttons (env_action st) !! name.
Proof.
  unfold use_step. destruct (bool_decide (2%Z ∈ buttons m)).
  - rewrite andb_true_r. cbn [env_action set_button env_buttons].
    case_bool_decide as Hn.
    + subst name. apply lookup_insert_eq.
    + apply lookup_insert_ne. congruence.
  - by rewrite andb_false_r.
Qed.

Lemma mouse_buttons_step_buttons (m : Mouse) (st : DecoderState)
    (name : string) :
  env_buttons (env_action (mouse_buttons_step m st)) !! name
  = if mouse_sets m name then Some 1%Z
    else env_buttons (env_action st) !! name.
Proof.
  unfold mouse_buttons_step, mouse_sets.
  destruct (buttons m) as [|b bs] eqn:Eb.
  - assert (H0 : bool_decide (0%Z ∈ @nil Z) = false)
      by apply bool_decide_eq_false_2, not_elem_of_nil.
    assert (H2 : bool_decide (2%Z ∈ @nil Z) = false)
      by apply bool_decide_eq_false_2, not_elem_of_nil.
    rewrite H0, H2, !andb_false_r. reflexivity.
  - rewrite use_step_buttons, attack_step_buttons, Eb.
    destruct (bool_decide (name = "attack") && bool_decide (0%Z ∈ b :: bs));
      destruct (bool_decide (name = "use") && bool_decide (2%Z ∈ b :: bs));
      reflexivity.
Qed.

(** *** The whole call *)

Lemma unless_raised_none (f : DecoderState -> DecoderState)
    (st : DecoderState) :
  raised st = None -> unless_raised f st = f st.
Proof. intros H. unfold unless_raised. by rewrite H. Qed.

Lemma unless_raised_some (f : DecoderState -> DecoderState)
    (st : DecoderState) (e : exn) :
  raised st = Some e -> unless_raised f st = st.
Proof. intros H. unfold unless_raised. by rewrite H. Qed.

Lemma unless_raised_stdout (f : DecoderState -> DecoderState)
    (st : DecoderState) :
  (forall st', stdout (f st') = stdout st') ->
  stdout (unless_raised f st) = stdout st.
Proof. intros H. unfold unless_raised. destruct (raised st); auto. Qed.

(** A call whose stores fit runs every step. *)
Lemma run_fits (ev : LowLevelAction) :
  camera_fits CAMERA_SCALER (dy (mouse ev)) = true ->
  camera_fits CAMERA_SCALER (dx (mouse ev)) = true ->
  run ev
  = mouse_buttons_step (mouse ev)
      (glitch_step
         (yaw_step CAMERA_SCALER (mouse ev)
            (pitch_step CAMERA_SCALER (mouse ev)
               (keys_loop' (decoder_init NOOP_ACTION) (keys (keyboard ev))))))
  /\ raised (run ev) = None.
Proof.
  intros Hy Hx. unfold decoder_run.
  set (k := keys_loop' (decoder_init NOOP_ACTION) (keys (keyboard ev))).
  assert (Hk : raised k = None) by apply keys_loop_raised.
  set (p := pitch_step CAMERA_SCALER (mouse ev) k).
  assert (Hp : raised p = None)
    by (unfold p; rewrite (pitch_step_fits _ _ Hy); exact Hk).
  rewrite (unless_raised_none _ p Hp).
  set (y := yaw_step CAMERA_SCALER (mouse ev) p).
  assert (Hyw : raised y = None)
    by (unfold y; rewrite (yaw_step_fits _ _ Hx); exact Hp).
  rewrite (unless_raised_none _ y Hyw).
  assert (Hg : raised (glitch_step y) = None) by exact Hyw.
  rewrite (unless_raised_none _ _ Hg).
  split; [reflexivity|].
  rewrite mouse_buttons_step_raised. exact Hg.
Qed.

(** A call with a store that does not fit ends in [OverflowError]. *)
Lemma run_overflow (ev : LowLevelAction) :
  camera_fits CAMERA_SCALER (dy (mouse ev))
  && camera_fits CAMERA_SCALER (dx (mouse ev)) = false ->
  raised (run ev) = Some OverflowError.
Proof.
  intros H. unfold decoder_run.
  set (k := keys_loop' (decoder_init NOOP_ACTION) (keys (keyboard ev))).
  assert (Hk : raised k = None) by apply keys_loop_raised.
  set (p := pitch_step CAMERA_SCALER (mouse ev) k).
  destruct (camera_fits CAMERA_SCALER (dy (mouse ev))) eqn:Hy.
  - cbn [andb] in H.
    assert (Hp : raised p = None)
      by (unfold p; rewrite (pitch_step_fits _ _ Hy); exact Hk).
    rewrite (unless_raised_none _ p Hp).
    assert (Hr := yaw_step_overflow (mouse ev) p H).
    rewrite !(unless_raised_some _ _ _ Hr). exact Hr.
  - assert (Hr := pitch_step_overflow (mouse ev) k Hy). fold p in Hr.
    rewrite !(unless_raised_some _ _ _ Hr). exact Hr.
Qed.

Lemma run_flag (ev : LowLevelAction) :
  camera_fits CAMERA_SCALER (dy (mouse ev)) = true ->
  camera_fits CAMERA_SCALER (dx (mouse ev)) = true ->
  is_null_action (run ev)
  = forallb (fun k => negb (mapped k)) (keys (keyboard ev))
    && negb (float_truthy (dy (mouse ev)))
    && negb (float_truthy (dx (mouse ev)))
    && negb (bool_decide (0%Z ∈ buttons (mouse ev)))
    && negb (bool_decide (2%Z ∈ buttons (mouse ev))).
Proof.
  intros Hy Hx. rewrite (proj1 (run_fits ev Hy Hx)).
  rewrite mouse_buttons_step_flag, glitch_step_flag, yaw_step_flag,
    pitch_step_flag, keys_loop_flag.
  reflexivity.
Qed.

Lemma run_camera (ev : LowLevelAction) :
  camera_fits CAMERA_SCALER (dy (mouse ev)) = true ->
  camera_fits CAMERA_SCALER (dx (mouse ev)) = true ->
  env_camera (env_action (run ev))
  = (camera_cell CAMERA_SCALER (dy (mouse ev)),
     camera_cell CAMERA_SCALER (dx (mouse ev))).
Proof.
  intros Hy Hx. rewrite (proj1 (run_fits ev Hy Hx)).
  rewrite mouse_buttons_step_camera, glitch_step_camera.
  rewrite (yaw_step_fits _ _ Hx), (pitch_step_fits _ _ Hy).
  reflexivity.
Qed.

Lemma run_buttons (ev : LowLevelAction) (name : string) :
  camera_fits CAMERA_SCALER (dy (mouse ev)) = true ->
  camera_fits CAMERA_SCALER (dx (mouse ev)) = true ->
  env_buttons (env_action (run ev)) !! name
  = if key_sets KEYBOARD_BUTTON_MAPPING (keys (keyboard ev)) name
       || mouse_sets (mouse ev) name
    then Some 1%Z
    else NOOP_ACTION !! name.
Proof.
  intros Hy Hx. rewrite (proj1 (run_fits ev Hy Hx)).
  rewrite mouse_buttons_step_buttons, glitch_step_buttons.
  rewrite (yaw_step_fits _ _ Hx), (pitch_step_fits _ _ Hy).
  cbn [env_action set_camera0 set_camera1 env_buttons].
  rewrite keys_loop_buttons.
  destruct (key_sets _ _ _), (mouse_sets _ _); reflexivity.
Qed.

(** What the call returns or raises. *)
Lemma decode_fits (ev : LowLevelAction) :
  camera_fits CAMERA_SCALER (dy (mouse ev)) = true ->
  camera_fits CAMERA_SCALER (dx (mouse ev)) = true ->
  decode ev = inr (env_action (run ev), is_null_action (run ev)).
Proof.
  intros Hy Hx. unfold annotation_action_to_env_action.
  rewrite (proj2 (run_fits ev Hy Hx)). reflexivity.
Qed.

Lemma decode_overflow (ev : LowLevelAction) :
  camera_fits CAMERA_SCALER (dy (mouse ev))
  && camera_fits CAMERA_SCALER (dx (mouse ev)) = false ->
  decode ev = inl OverflowError.
Proof.
  intros H. unfold annotation_action_to_env_action.
  rewrite (run_overflow ev H). reflexivity.
Qed.

Lemma decode_inr (ev : LowLevelAction) (r : EnvAction * bool) :
  decode ev = inr r ->
  camera_fits CAMERA_SCALER (dy (mouse ev)) = true
  /\ camera_fits CAMERA_SCALER (dx (mouse ev)) = true
  /\ r = (env_action (run ev), is_null_action (run ev)).
Proof.
  intros H.
  destruct (camera_fits CAMERA_SCALER (dy (mouse ev))
            && camera_fits CAMERA_SCALER (dx (mouse ev))) eqn:E.
  - apply andb_true_iff in E as [Hy Hx].
    rewrite (decode_fits ev Hy Hx) in H. injection H as <-. auto.
  - rewrite (decode_overflow ev E) in H. discriminate H.
Qed.
End DecoderSteps.




(** ** C6: construction of the quantizer *)

(** C6, counterexample: a construction with [mu = -1] returns a quantizer. *)
Lemma init_accepts_negative_mu :
  (-1 <= 0)%R
  /\ CameraQuantizer_init 10 2 (Some QuantizationScheme.MU_LAW) (Some (-1)%R)
     = inr (mkCameraQuantizer 10 2 QuantizationScheme.MU_LAW (-1)%R).
Proof. split; [lra|reflexivity]. Qed.

(** C6 (amended): constructing a [CameraQuantizer] fails if and only if the
    scheme is not one of [linear] and [mu_law], and then with the
    [ValueError] of the validator; [mu], [binsize] and [maxval] are not
    validated, so every construction with a valid scheme succeeds and stores
    them as given. *)
Theorem init_fails_iff_bad_scheme
    (maxval binsize : Z) (scheme : option string) (mu0 : option R) :
  let s := default QuantizationScheme.LINEAR scheme in
  ((exists e, CameraQuantizer_init maxval binsize scheme mu0 = inl e)
   <-> s <> QuantizationScheme.LINEAR /\ s <> QuantizationScheme.MU_LAW)
  /\ (forall e, CameraQuantizer_init maxval binsize scheme mu0 = inl e ->
        exists msg, e = ValueError msg)
  /\ (s = QuantizationScheme.LINEAR \/ s = QuantizationScheme.MU_LAW ->
        CameraQuantizer_init maxval binsize scheme mu0
        = inr (mkCameraQuantizer maxval binsize s (default 5%R mu0))).
Proof.
  intros s. unfold CameraQuantizer_init. fold s.
  case_bool_decide as Hs.
  - assert (Hv : s = QuantizationScheme.LINEAR \/ s = QuantizationScheme.MU_LAW).
    { apply elem_of_cons in Hs as [Hs|Hs]; [by left|].
      apply list_elem_of_singleton in Hs. by right. }
    split; [split|split].
    + intros [e He]. discriminate He.
    + intros [H1 H2]. destruct Hv; contradiction.
    + intros e He. discriminate He.
    + intros _. reflexivity.
  - assert (Hn : s <> QuantizationScheme.LINEAR /\ s <> QuantizationScheme.MU_LAW).
    { split; intros E; apply Hs; rewrite E.
      - apply list_elem_of_here.
      - apply list_elem_of_further, list_elem_of_here. }
    split; [split|split].
    + intros _. exact Hn.
    + intros _. eexists. reflexivity.
    + intros e He. injection He as <-. eexists. reflexivity.
    + intros [E|E]; destruct Hn; contradiction.
Qed.

Lemma init_fails_iff_bad_scheme_witness :
  CameraQuantizer_init 10 2 (Some "mu_law") None
  = inr (mkCameraQuantizer 10 2 "mu_law" 5%R).
Proof.
  refine (proj2 (proj2 (init_fails_iff_bad_scheme 10 2 (Some "mu_law") None)) _).
  right. reflexivity.
Defined.

(** ** Stacking and unstacking the button columns *)

Section StackFacts.
Lemma map_nth_seq (l : list Z) :
  map (fun b => nth b l 0%Z) (seq 0 (length l)) = l.
Proof.
  induction l as [|x l IH]; [reflexivity|].
  cbn [length seq map nth]. f_equal.
  rewrite <- seq_shift, map_map. exact IH.
Qed.

Lemma nth_map_cols (b i : nat) (cols : list (list Z)) :
  nth i (map (fun c => nth b c 0%Z) cols) 0%Z = nth b (nth i cols []) 0%Z.
Proof.
  revert i. induction cols as [|c cols IH]; intros [|i]; cbn; try done.
  - by destruct b.
  - by destruct b.
Qed.

Lemma np_stack_last_ok (cols : list (list Z)) (n : nat) :
  cols <> [] ->
  Forall (fun c => length c = n) cols ->
  np_stack_last cols
  = inr (mkArray2 (n, length cols)
           (map (fun b => map (fun c => nth b c 0%Z) cols) (seq 0 n))).
Proof.
  intros Hne Hall. destruct cols as [|c0 cols]; [done|].
  unfold np_stack_last.
  assert (Hc0 : length c0 = n) by (by inversion Hall).
  assert (Hb : forallb (fun c => length c =? length c0) (c0 :: cols) = true).
  { apply forallb_forall. intros c Hc. apply Nat.eqb_eq.
    rewrite Forall_forall in Hall. rewrite Hc0. apply Hall.
    by apply list_elem_of_In. }
  rewrite Hb, Hc0. reflexivity.
Qed.

Lemma column_stacked (cols : list (list Z)) (n i : nat) (c : list Z) :
  Forall (fun c => length c = n) cols ->
  cols !! i = Some c ->
  column i (mkArray2 (n, length cols)
              (map (fun b => map (fun c => nth b c 0%Z) cols) (seq 0 n)))
  = c.
Proof.
  intros Hall Hi. unfold column. cbn [rows].
  rewrite map_map.
  assert (Hlen : length c = n).
  { rewrite Forall_forall in Hall. apply Hall.
    eapply list_elem_of_lookup_2. exact Hi. }
  assert (Hnth : nth i cols [] = c).
  { apply nth_lookup_Some with (d := []) in Hi. exact Hi. }
  rewrite <- Hlen.
  rewrite <- (map_nth_seq c) at 2.
  apply map_ext. intros b. rewrite nth_map_cols, Hnth. reflexivity.
Qed.
End StackFacts.

Section ButtonsDict.
Variable f : nat -> list Z.

Abbreviation fill names s m0 :=
  (fold_left (fun (out : gmap string (list Z)) (ik : nat * string) =>
                <[snd ik := f (fst ik)]> out)
     (combine (seq s (length names)) names) m0).

Lemma fill_lookup_notin (names : list string) (s : nat)
    (m0 : gmap string (list Z)) (k : string) :
  k ∉ names -> fill names s m0 !! k = m0 !! k.
Proof.
  revert s m0. induction names as [|n ns IH]; intros s m0 Hk; [reflexivity|].
  cbn [length seq combine fold_left fst snd].
  apply not_elem_of_cons in Hk as [Hne Hk].
  rewrite IH by exact Hk. by rewrite lookup_insert_ne.
Qed.

Lemma fill_lookup_in (names : list string) (s j : nat)
    (m0 : gmap string (list Z)) (k : string) :
  NoDup names -> names !! j = Some k ->
  fill names s m0 !! k = Some (f (s + j)).
Proof.
  revert s j m0. induction names as [|n ns IH]; intros s j m0 Hnd Hj; [done|].
  cbn [length seq combine fold_left fst snd].
  apply NoDup_cons in Hnd as [Hn Hnd].
  destruct j as [|j]; cbn in Hj.
  - injection Hj as ->. rewrite fill_lookup_notin by exact Hn.
    rewrite lookup_insert_eq. by rewrite Nat.add_0_r.
  - rewrite (IH (S s) j) by done. f_equal. f_equal. lia.
Qed.
End ButtonsDict.

(** ** C4: environment action to policy action and back *)

Section RoundTripActions.
Variable Buttons_ALL : list string.
Variable self : ActionTransformer.

Abbreviation requantize :=
  (fun c : R * R =>
     undiscretize_xy_value (quantizer self) (discretize_camera self c)).

(** What [policy2env (env2policy a)] is, for a batch [a] whose stacked
    columns have one length, when [undiscretize] does not divide by
    zero. *)
Lemma env2policy_policy2env (a : EnvActionOf (list Z) (list (R * R)))
    (n : nat) :
  Buttons_ALL <> [] ->
  NoDup Buttons_ALL ->
  (forall k, k ∈ Buttons_ALL ->
     length (default (repeat 0%Z (length (env_camera a)))
               (env_buttons a !! k)) = n) ->
  mu_division (quantizer self) = inr tt ->
  exists p a',
    env2policy Buttons_ALL self a = inr p
    /\ policy2env Buttons_ALL self p = inr a'
    /\ (forall k, env_buttons a' !! k
          = if decide (k ∈ Buttons_ALL)
            then Some (default (repeat 0%Z (length (env_camera a)))
                         (env_buttons a !! k))
            else None)
    /\ env_camera a' = map requantize (env_camera a).
Proof.
  intros Hne Hnd Hlen Hmu.
  set (cols := map (fun k => default (repeat 0%Z (length (env_camera a)))
                               (env_buttons a !! k))
                 Buttons_ALL).
  assert (Hcols : Forall (fun c => length c = n) cols).
  { apply Forall_forall. intros c Hc.
    apply list_elem_of_In, in_map_iff in Hc as (k & <- & Hk).
    apply list_elem_of_In in Hk. by apply Hlen. }
  assert (Hcne : cols <> []).
  { unfold cols. destruct Buttons_ALL; [done|discriminate]. }
  eexists _, _. split; [|split; [|split]].
  - unfold env2policy. fold cols.
    rewrite (np_stack_last_ok cols n Hcne Hcols). reflexivity.
  - unfold policy2env, numpy_to_dict. cbn [policy_buttons shape2 snd policy_camera].
    unfold cols at 1. rewrite length_map, Nat.eqb_refl.
    unfold undiscretize_camera. rewrite Hmu. reflexivity.
  - intros k. cbn [env_buttons]. unfold buttons_dict.
    destruct (decide (k ∈ Buttons_ALL)) as [Hk|Hk].
    + apply list_elem_of_lookup_1 in Hk as [j Hj].
      rewrite (fill_lookup_in (fun i => column i _) _ 0 j) by done.
      f_equal. cbn [Nat.add].
      apply column_stacked; [exact Hcols|].
      unfold cols.
      change (map ?g Buttons_ALL) with (g <$> Buttons_ALL).
      rewrite list_lookup_fmap, Hj. reflexivity.
    + rewrite (fill_lookup_notin (fun i => column i _)) by exact Hk.
      apply lookup_empty.
  - cbn [env_camera]. rewrite map_map. reflexivity.
Qed.
End RoundTripActions.

Section GridFacts.
Local Open Scope R_scope.
Import QuantizationScheme.
Variable q : CameraQuantizer.

Lemma on_grid_fixed (x : R) :
  quantization_scheme q = LINEAR -> sizes_in_range q ->
  on_grid q x -> undiscretize_value q (discretize q x) = x.
Proof.
  intros Hs Hsz [Hx [k Hk]].
  pose proof Hsz as [[HM0 HM1] [HB0 HB1]].
  pose proof (IZR_lt _ _ HB0) as HB.
  rewrite discretize_linear, clip_id by assumption.
  rewrite undiscretize_value_linear by assumption.
  replace ((x + IZR (camera_maxval q)) / IZR (camera_binsize q)) with (IZR k)
    by (rewrite Hk; field; lra).
  rewrite round_IZR.
  assert (Hk0 : (0 <= k * camera_binsize q)%Z).
  { apply le_IZR. rewrite mult_IZR. lra. }
  assert (Hk1 : (k * camera_binsize q <= 2 * camera_maxval q)%Z).
  { apply le_IZR. rewrite !mult_IZR. lra. }
  rewrite linear_dequantize_small by lia. lra.
Qed.
End GridFacts.

Section FidelityCounterexample.
Import Example FidelityExample.
Local Open Scope R_scope.

Lemma requantize_half :
  undiscretize_value quantizer (discretize quantizer (1 / 2)) = 0.
Proof.
  rewrite discretize_linear by reflexivity.
  cbn [camera_maxval camera_binsize quantizer].
  rewrite clip_id by lra.
  rewrite (round_near _ 5) by lra.
  rewrite undiscretize_value_linear by reflexivity.
  rewrite linear_dequantize_small by (cbn; lia).
  cbn [camera_maxval camera_binsize quantizer]. lra.
Qed.

Lemma vocabulary_keys (v1 v2 v3 : list Z) :
  forall k,
    is_Some ((<["forward" := v1]> (<["attack" := v2]> (<["use" := v3]> ∅))
              : gmap string (list Z)) !! k)
    <-> k ∈ Example.Buttons_ALL.
Proof.
  intros k. unfold Buttons_ALL.
  rewrite !lookup_insert_is_Some, lookup_empty, is_Some_alt.
  rewrite !elem_of_cons, elem_of_nil.
  split; [intros [?|[_ [?|[_ [?|[_ []]]]]]]; auto
         |intros [->|[->|[->|[]]]]; auto 10].
Qed.

(** C4, counterexample: an action whose keys are exactly the vocabulary and
    whose camera is [(0, 0.5)] does not come back: the camera returns as
    a bin centre, which [0.5] is not.  Two more actions over the
    vocabulary have no round trip at all: with button arrays of different
    lengths [env2policy] raises the [ValueError] of [np.stack], and with
    the mu-law scheme and [mu = 0] [policy2env] raises
    [ZeroDivisionError]. *)
Lemma roundtrip_changes_camera :
  ((forall k, is_Some (env_buttons action !! k) <-> k ∈ Buttons_ALL)
   /\ exists p a',
        env2policy Buttons_ALL transformer action = inr p
        /\ policy2env Buttons_ALL transformer p = inr a'
        /\ a' <> action)
  /\ ((forall k, is_Some (env_buttons ragged_action !! k) <-> k ∈ Buttons_ALL)
      /\ env2policy Buttons_ALL transformer ragged_action
         = inl (ValueError "all input arrays must have the same shape"))
  /\ (exists p,
        env2policy Buttons_ALL transformer_mu_0 action = inr p
        /\ policy2env Buttons_ALL transformer_mu_0 p = inl ZeroDivisionError).
Proof.
  split; [split|split; [split|]].
  - apply vocabulary_keys.
  - destruct (env2policy_policy2env Buttons_ALL transformer action 1)
      as (p & a' & Hp & Ha & _ & Hc).
    + discriminate.
    + unfold Buttons_ALL. repeat constructor; set_solver.
    + intros k Hk. unfold Buttons_ALL in Hk.
      repeat (apply elem_of_cons in Hk as [-> | Hk]); try reflexivity.
      by apply elem_of_nil in Hk.
    + reflexivity.
    + exists p, a'. split; [exact Hp|split; [exact Ha|]].
      intros E. rewrite E in Hc. cbn in Hc.
      injection Hc as Hc0 Hc1. rewrite requantize_half in Hc1. lra.
  - apply vocabulary_keys.
  - reflexivity.
  - eexists. split; [reflexivity|].
    unfold policy2env, numpy_to_dict. cbn [policy_buttons shape2 snd].
    cbn [length Buttons_ALL Nat.eqb policy_camera].
    unfold undiscretize_camera.
    rewrite mu_division_zero by reflexivity.
    reflexivity.
Qed.
End FidelityCounterexample.

(** C4 (amended): for every batched [EnvAction] [a] whose button keys are
    exactly the names of a non-empty, duplicate-free vocabulary and whose
    button arrays have one length, and every transformer that is not in
    the mu-law scheme with [mu = 0], [policy_to_env(env_to_policy(a))]
    succeeds, has the button entries of [a], and has as camera the
    re-quantized camera, [undiscretize] of [discretize] of the camera rows;
    it is equal to [a] when, under the linear scheme with [maxval] and
    [binsize] positive and below [2 ^ 31], every camera component is in
    range and at a bin centre. *)
Theorem vocabulary_fidelity (Buttons_ALL : list string) (self : ActionTransformer)
    (a : EnvActionOf (list Z) (list (R * R))) :
  Buttons_ALL <> [] ->
  NoDup Buttons_ALL ->
  (forall k, is_Some (env_buttons a !! k) <-> k ∈ Buttons_ALL) ->
  (exists n, forall k v, env_buttons a !! k = Some v -> length v = n) ->
  (quantization_scheme (quantizer self) = QuantizationScheme.MU_LAW ->
     mu (quantizer self) <> 0%R) ->
  exists p a',
    env2policy Buttons_ALL self a = inr p
    /\ policy2env Buttons_ALL self p = inr a'
    /\ env_buttons a' = env_buttons a
    /\ env_camera a'
       = map (fun c => undiscretize_xy_value (quantizer self)
                         (discretize_camera self c))
           (env_camera a)
    /\ (quantization_scheme (quantizer self) = QuantizationScheme.LINEAR ->
        sizes_in_range (quantizer self) ->
        Forall (fun c => on_grid (quantizer self) (fst c)
                         /\ on_grid (quantizer self) (snd c)) (env_camera a) ->
        a' = a).
Proof.
  intros Hne Hnd Hdom [n Hlen] Hmu.
  destruct (env2policy_policy2env Buttons_ALL self a n Hne Hnd)
    as (p & a' & Hp & Ha & Hb & Hc).
  { intros k Hk. apply Hdom in Hk as [v Hv]. rewrite Hv. cbn.
    by apply (Hlen k). }
  { unfold mu_division.
    destruct (String.eqb_spec (quantization_scheme (quantizer self))
                QuantizationScheme.MU_LAW) as [Hs|Hs]; [|reflexivity].
    destruct (Req_dec_T (mu (quantizer self)) 0) as [E|E]; [|reflexivity].
    by destruct (Hmu Hs). }
  assert (Hbtn : env_buttons a' = env_buttons a).
  { apply map_eq. intros k. rewrite Hb.
    destruct (decide (k ∈ Buttons_ALL)) as [Hk|Hk].
    - apply Hdom in Hk as [v Hv]. rewrite Hv. reflexivity.
    - symmetry. apply eq_None_not_Some. intros Hs. apply Hk, Hdom, Hs. }
  exists p, a'. repeat split; try assumption.
  intros Hs Hsz Hgrid.
  destruct a' as [b' c'], a as [b c]. cbn in *. subst b'. f_equal.
  rewrite Hc. clear Hc Hp Ha Hb Hlen.
  induction Hgrid as [|[x y] cs [Hx Hy] _ IH]; [reflexivity|].
  cbn [map]. rewrite IH. f_equal.
  unfold undiscretize_xy_value, discretize_camera, discretize_xy.
  cbn [fst snd]. rewrite !on_grid_fixed by assumption. reflexivity.
Qed.

Lemma vocabulary_fidelity_witness :
  exists p,
    env2policy Example.Buttons_ALL FidelityExample.transformer
      FidelityWitness.action = inr p
    /\ policy2env Example.Buttons_ALL FidelityExample.transformer p
       = inr FidelityWitness.action.
Proof.
  destruct (vocabulary_fidelity Example.Buttons_ALL FidelityExample.transformer
              FidelityWitness.action)
    as (p & a' & Hp & Ha & _ & _ & Heq).
  - discriminate.
  - unfold Example.Buttons_ALL. repeat constructor; set_solver.
  - apply vocabulary_keys.
  - exists 1%nat. intros k v.
    unfold FidelityWitness.action. cbn [env_buttons env_camera].
    rewrite !lookup_insert_Some, lookup_empty.
    intros [[_ <-]|[_ [[_ <-]|[_ [[_ <-]|[_ H]]]]]]; [reflexivity..|discriminate H].
  - intros H. discriminate H.
  - exists p. split; [exact Hp|]. rewrite Ha. f_equal. apply Heq.
    + reflexivity.
    + split; cbn; lia.
    + repeat constructor; cbn; try lra.
      * exists 5%Z. lra.
      * exists 6%Z. lra.
Defined.

(** ** C9: the scalar and the batched conversion *)

Section ScalarAndBatched.
Variable Buttons_ALL : list string.

Lemma init_human_spaces (mv bs : option Z) (sch : option string)
    (m : option R) (t : ActionTransformer) :
  ActionTransformer_init mv bs sch m = inr t -> human_spaces t = None.
Proof.
  unfold ActionTransformer_init. intros H.
  destruct (CameraQuantizer_init _ _ _ _) as [e|q]; cbn in H; [discriminate|].
  injection H as <-. reflexivity.
Qed.

Lemma batch_of_one_column (acs : EnvActionOf Z (R * R)) (k : string) :
  default (repeat 0%Z 1) (env_buttons (batch_of_one acs) !! k)
  = [default 0%Z (env_buttons acs !! k)].
Proof.
  unfold batch_of_one. cbn [env_buttons]. rewrite lookup_fmap.
  destruct (env_buttons acs !! k); reflexivity.
Qed.

(** The batched conversion on a batch of one: one row, the button vector
    the scalar conversion builds, and that camera bin. *)
Lemma env2policy_batch_of_one (t : ActionTransformer)
    (acs : EnvActionOf Z (R * R)) :
  Buttons_ALL <> [] ->
  env2policy Buttons_ALL t (batch_of_one acs)
  = inr (mkPolicyAction
           (mkArray2 (1, length Buttons_ALL)
              [map (fun k => default 0%Z (env_buttons acs !! k)) Buttons_ALL])
           [discretize_camera t (env_camera acs)]).
Proof.
  intros Hne. unfold env2policy.
  change (length (env_camera (batch_of_one acs))) with 1.
  rewrite (map_ext _ (fun k => [default 0%Z (env_buttons acs !! k)]))
    by apply batch_of_one_column.
  erewrite (np_stack_last_ok _ 1).
  - cbn [mbind result_bind mret result_ret seq map]. rewrite length_map.
    do 3 f_equal. rewrite map_map. reflexivity.
  - destruct Buttons_ALL; [done|discriminate].
  - apply Forall_forall. intros c Hc.
    apply list_elem_of_In, in_map_iff in Hc as (k & <- & _). reflexivity.
Qed.

(** Were the attribute set to true, the scalar conversion would return
    the only row of the batched one. *)
Lemma dict_to_numpy_if_human_spaces (q : CameraQuantizer)
    (acs : EnvActionOf Z (R * R)) :
  Buttons_ALL <> [] ->
  let t := mkActionTransformer q (Some true) in
  exists s b,
    dict_to_numpy Buttons_ALL t acs = inr s
    /\ env2policy Buttons_ALL t (batch_of_one acs) = inr b
    /\ rows (policy_buttons b) = [policy_buttons s]
    /\ policy_camera b = [policy_camera s].
Proof.
  intros Hne t. eexists _, _.
  rewrite env2policy_batch_of_one by exact Hne.
  unfold dict_to_numpy. destruct Buttons_ALL as [|k0 ks] eqn:E; [done|].
  cbn [mbind result_bind mret result_ret human_spaces t].
  repeat split.
Qed.
End ScalarAndBatched.

(** C9: for every transformer that [ActionTransformer.__init__] builds and
    every unbatched action, the scalar conversion [dict_to_numpy] returns no
    value: with a non-empty vocabulary it raises [AttributeError] on
    [self.human_spaces], an attribute the constructor never sets, after it
    has built the button vector and the camera bin; the batched conversion
    [env2policy] of the batch of one succeeds, with exactly that button
    vector as its only row and that camera bin. *)
Theorem dict_to_numpy_never_returns (Buttons_ALL : list string)
    (mv bs : option Z) (sch : option string) (m : option R)
    (t : ActionTransformer) (acs : EnvActionOf Z (R * R)) :
  ActionTransformer_init mv bs sch m = inr t ->
  (forall s, dict_to_numpy Buttons_ALL t acs <> inr s)
  /\ (Buttons_ALL <> [] ->
      dict_to_numpy Buttons_ALL t acs = inl (AttributeError "human_spaces")
      /\ env2policy Buttons_ALL t (batch_of_one acs)
         = inr (mkPolicyAction
                  (mkArray2 (1, length Buttons_ALL)
                     [map (fun k => default 0%Z (env_buttons acs !! k))
                        Buttons_ALL])
                  [discretize_camera t (env_camera acs)])).
Proof.
  intros Hinit. apply init_human_spaces in Hinit.
  split.
  - intros s. unfold dict_to_numpy. rewrite Hinit.
    destruct Buttons_ALL; cbn; discriminate.
  - intros Hne. split.
    + unfold dict_to_numpy. rewrite Hinit.
      destruct Buttons_ALL; [done|reflexivity].
    + apply env2policy_batch_of_one, Hne.
Qed.

Lemma dict_to_numpy_never_returns_witness :
  dict_to_numpy Example.Buttons_ALL FidelityExample.transformer
    ScalarExample.action
  = inl (AttributeError "human_spaces").
Proof.
  refine (proj1 (proj2 (dict_to_numpy_never_returns Example.Buttons_ALL
    None None None None FidelityExample.transformer ScalarExample.action _) _)).
  - reflexivity.
  - discriminate.
Defined.

(** ** Facts about the traversals *)

Section TraversalFacts.
Context {A B : Type}.

Lemma mapM_result_inr (f : A -> result B) (l : list A) (bs : list B) :
  mapM_result f l = inr bs <-> Forall2 (fun a b => f a = inr b) l bs.
Proof.
  revert bs. induction l as [|a l IH]; intros bs; cbn.
  - split.
    + intros H. injection H as <-. constructor.
    + intros H. inversion H. reflexivity.
  - destruct (f a) as [e|b] eqn:Ef; cbn.
    + split; [discriminate|]. intros H.
      inversion H as [|? b' ? bs' Hb Hbs]; subst.
      rewrite Ef in Hb. discriminate.
    + destruct (mapM_result f l) as [e|bs'] eqn:El; cbn.
      * split; [discriminate|]. intros H.
        inversion H as [|? b' ? bs'' Hb Hbs]; subst.
        apply IH in Hbs. discriminate.
      * split.
        -- intros H. injection H as <-. constructor; [exact Ef|]. by apply IH.
        -- intros H. inversion H as [|? b' ? bs'' Hb Hbs]; subst.
           apply IH in Hbs. rewrite Ef in Hb.
           injection Hb as ->. injection Hbs as ->. reflexivity.
Qed.

Lemma mapM_result_inl (f : A -> result B) (l : list A) (e : exn) :
  mapM_result f l = inl e -> exists a, In a l /\ f a = inl e.
Proof.
  induction l as [|a l IH]; cbn; [discriminate|].
  destruct (f a) as [e'|b] eqn:Ef; cbn.
  - intros H. injection H as <-. exists a. auto.
  - destruct (mapM_result f l) as [e'|bs'] eqn:El; cbn; [|discriminate].
    intros H. injection H as <-.
    destruct (IH eq_refl) as (a' & Hin & Ha). exists a'. auto.
Qed.

Lemma mapMi_result_inr (f : nat -> A -> result B) (l : list A) :
  forall (s : nat) (bs : list B),
    mapMi_result f s l = inr bs ->
    length bs = length l
    /\ forall i a, l !! i = Some a ->
                   exists b, bs !! i = Some b /\ f (s + i) a = inr b.
Proof.
  induction l as [|a l IH]; intros s bs; cbn.
  - intros H. injection H as <-. split; [reflexivity|]. intros i a Hi. done.
  - destruct (f s a) as [e|b] eqn:Ef; cbn; [discriminate|].
    destruct (mapMi_result f (S s) l) as [e|bs'] eqn:El; cbn; [discriminate|].
    intros H. injection H as <-.
    destruct (IH (S s) bs' El) as [Hlen Hall].
    split; [cbn; by rewrite Hlen|].
    intros [|i] a' Hi; cbn in Hi.
    + injection Hi as <-. exists b. rewrite Nat.add_0_r. auto.
    + destruct (Hall i a' Hi) as (b' & Hb & Hf). exists b'.
      replace (s + S i) with (S s + i) by lia. auto.
Qed.

Lemma mapMi_result_inl (f : nat -> A -> result B) (l : list A) :
  forall (s : nat) (e : exn),
    mapMi_result f s l = inl e ->
    exists i a, l !! i = Some a /\ f (s + i) a = inl e.
Proof.
  induction l as [|a l IH]; intros s e; cbn; [discriminate|].
  destruct (f s a) as [e'|b] eqn:Ef; cbn.
  - intros H. injection H as <-. exists 0, a. rewrite Nat.add_0_r. auto.
  - destruct (mapMi_result f (S s) l) as [e'|bs'] eqn:El; cbn; [|discriminate].
    intros H. injection H as <-.
    destruct (IH (S s) e' El) as (i & a' & Hi & Hf). exists (S i), a'.
    replace (s + S i) with (S s + i) by lia. auto.
Qed.
End TraversalFacts.

Section AssocFacts.
Context {V : Type}.

Lemma assoc_In (k : string) (l : list (string * V)) (v : V) :
  assoc k l = Some v -> In (k, v) l.
Proof.
  induction l as [|[k' v'] l IH]; cbn; [discriminate|].
  destruct (String.eqb_spec k k') as [->|Hne].
  - intros H. injection H as <-. auto.
  - auto.
Qed.

Lemma assoc_NoDup (k : string) (l : list (string * V)) (v : V) :
  NoDup (map fst l) -> In (k, v) l -> assoc k l = Some v.
Proof.
  induction l as [|[k' v'] l IH]; cbn; [done|].
  intros Hnd [H|H].
  - injection H as -> ->. by rewrite String.eqb_refl.
  - apply NoDup_cons in Hnd as [Hk Hnd].
    destruct (String.eqb_spec k k') as [->|Hne]; [|auto].
    exfalso. apply Hk. apply list_elem_of_In.
    change k' with (fst (k', v)). by apply in_map.
Qed.
End AssocFacts.

Lemma assoc_Forall2 {V W : Type} (Q : string -> V -> W -> Prop)
    (l : list (string * V)) (l' : list (string * W)) (k : string) (v : V) :
  Forall2 (fun kv kv' => fst kv' = fst kv /\ Q (fst kv) (snd kv) (snd kv')) l l' ->
  assoc k l = Some v ->
  exists w, assoc k l' = Some w /\ Q k v w.
Proof.
  induction 1 as [|[k1 v1] [k2 w2] l l' [Hk HQ] _ IH]; cbn; [discriminate|].
  cbn in Hk, HQ. subst k2.
  destruct (String.eqb_spec k k1) as [->|Hne].
  - intros H. injection H as <-. eauto.
  - exact IH.
Qed.

(** ** The batcher on leaves *)

Section LeafFacts.
Variable th_bound : bool.

Lemma mapM_arrays (lib : array_lib) (bad : exn) (arrs : list ndarray) :
  mapM_result
    (fun o => match o with
              | OArray lib' a => if decide (lib' = lib) then mret a else raise bad
              | _ => raise bad
              end) (map (OArray lib) arrs)
  = inr arrs.
Proof.
  apply mapM_result_inr.
  induction arrs as [|a arrs IH]; constructor; [|exact IH].
  destruct (decide (lib = lib)); [reflexivity|done].
Qed.

Lemma concat_axis0_ok (lib : array_lib) (a0 : ndarray) (arrs : list ndarray)
    (n : nat) (inner : list nat) :
  shape a0 = n :: inner ->
  Forall (fun a => exists m, shape a = m :: inner) arrs ->
  concat_axis0 lib (map (OArray lib) (a0 :: arrs))
  = inr (OArray lib
           (mkNdarray (list_sum (map batch_size (a0 :: arrs)) :: inner)
              (concat (map data (a0 :: arrs))))).
Proof.
  intros H0 Hall. unfold concat_axis0.
  rewrite mapM_arrays. cbn [mbind result_bind]. rewrite H0.
  assert (Hb : forallb (fun a => match shape a with
                                 | [] => false
                                 | _ :: tl' => bool_decide (tl' = inner)
                                 end) (a0 :: arrs) = true).
  { apply forallb_forall. intros a [<-|Ha].
    - rewrite H0. by apply bool_decide_eq_true_2.
    - rewrite Forall_forall in Hall.
      destruct (Hall a (proj2 (list_elem_of_In _ _) Ha)) as [m Hm].
      rewrite Hm. by apply bool_decide_eq_true_2. }
  rewrite Hb. reflexivity.
Qed.

Lemma same_structure_array_inv (lib : array_lib) (a0 : ndarray) (r : obj) :
  same_structure th_bound (OArray lib a0) r ->
  (lib = Torch -> th_bound = true)
  /\ exists a n m inner,
       r = OArray lib a /\ shape a0 = n :: inner /\ shape a = m :: inner.
Proof.
  intros H. inversion H as [| | | | |? ? b n m inner Hth Ha Hb|? ? Hu]; subst.
  - split; [exact Hth|]. exists b, n, m, inner. auto.
  - destruct Hu.
Qed.

Lemma same_structure_arrays (lib : array_lib) (a0 : ndarray) (rest : list obj) :
  Forall (same_structure th_bound (OArray lib a0)) (OArray lib a0 :: rest) ->
  (lib = Torch -> th_bound = true)
  /\ exists n inner arrs,
       shape a0 = n :: inner
       /\ rest = map (OArray lib) arrs
       /\ Forall (fun a => exists m, shape a = m :: inner) arrs.
Proof.
  intros H. apply Forall_cons in H as [H0 Hrest].
  apply same_structure_array_inv in H0 as (Hth & _ & n & _ & inner & _ & Hs & _).
  split; [exact Hth|]. exists n, inner.
  induction Hrest as [|r rest Hr _ IH].
  - exists []. split; [exact Hs|]. split; [reflexivity|constructor].
  - destruct IH as (arrs & Hsh & -> & Hall).
    apply same_structure_array_inv in Hr as (_ & a & n' & m & inner' & -> & Hs' & Ha).
    rewrite Hs in Hs'. injection Hs' as _ <-.
    exists (a :: arrs). split; [exact Hs|]. split; [reflexivity|].
    constructor; [eauto|exact Hall].
Qed.

Lemma batch_leaf_array (lib : array_lib) (a0 : ndarray) (rest : list obj) :
  (lib = Torch -> th_bound = true) ->
  batch_leaf th_bound false (OArray lib a0) rest
  = concat_axis0 lib (OArray lib a0 :: rest).
Proof.
  intros Hth. unfold batch_leaf. cbn [mbind result_bind mret result_ret].
  destruct lib; [reflexivity|]. rewrite Hth by reflexivity. reflexivity.
Qed.

Lemma descend_leaf (p : list step) (o x : obj) :
  is_leaf o = true -> descend p o = Some x -> p = [] /\ x = o.
Proof.
  intros Hl. destruct p as [|s p]; cbn.
  - intros H. injection H as <-. auto.
  - destruct s, o; cbn in *; discriminate.
Qed.

Lemma batch_from_array (lib : array_lib) (a0 : ndarray) (rest : list obj) :
  Forall (same_structure th_bound (OArray lib a0)) (OArray lib a0 :: rest) ->
  batch_outcome th_bound (OArray lib a0) rest
    (batch_from th_bound false (OArray lib a0) rest).
Proof.
  intros H.
  apply same_structure_arrays in H as (Hth & n & inner & arrs & Hs & -> & Hall).
  cbn [batch_from]. rewrite batch_leaf_array by exact Hth.
  change (OArray lib a0 :: map (OArray lib) arrs)
    with (map (OArray lib) (a0 :: arrs)).
  rewrite (concat_axis0_ok lib a0 arrs n inner Hs Hall).
  cbn [batch_outcome]. split; [|split].
  - cbn. rewrite Hs. reflexivity.
  - intros p x Hp. apply descend_leaf in Hp as [_ ->]; [|reflexivity]. intros [].
  - intros p lib' a0' Hp.
    apply descend_leaf in Hp as [-> Hp]; [|reflexivity].
    injection Hp as -> ->.
    exists arrs. eexists. split; [|split; [reflexivity|split]].
    + clear. induction arrs; constructor; [reflexivity|assumption].
    + cbn [shape]. rewrite Hs. reflexivity.
    + reflexivity.
Qed.

Lemma batch_from_unsupported (x : obj) (rest : list obj) :
  unsupported x ->
  batch_from th_bound false x rest = inl (unsupported_error th_bound x).
Proof.
  intros Hu. unfold unsupported_error.
  destruct x; try destruct Hu; cbn; destruct th_bound; reflexivity.
Qed.
End LeafFacts.

(** ** The batcher on containers *)

Section ContainerFacts.
Variable th_bound : bool.

Abbreviation outcome := (batch_outcome th_bound).
Abbreviation batch := (batch_from th_bound false).
Abbreviation same := (same_structure th_bound).

Lemma collect_children (s : step) (get : obj -> result obj) (v : obj)
    (rest : list obj) :
  Forall (fun r => exists v', get r = inr v' /\ child s r = Some v'
                              /\ same v v') rest ->
  exists vs, mapM_result get rest = inr vs
             /\ Forall2 (fun r v' => child s r = Some v') rest vs
             /\ Forall (same v) vs.
Proof.
  induction 1 as [|r rest (v' & Hg & Hc & Hs) _ (vs & Hm & Hch & Hss)].
  - exists []. repeat split; constructor.
  - exists (v' :: vs). split; [|split].
    + cbn. rewrite Hg. cbn. rewrite Hm. reflexivity.
    + by constructor.
    + by constructor.
Qed.

Lemma entry_outcome (s : step) (get : obj -> result obj) (v : obj)
    (rest : list obj) :
  batch_spec_at th_bound v ->
  same v v ->
  Forall (fun r => exists v', get r = inr v' /\ child s r = Some v'
                              /\ same v v') rest ->
  exists vs, mapM_result get rest = inr vs
             /\ Forall2 (fun r v' => child s r = Some v') rest vs
             /\ outcome v vs (batch v vs).
Proof.
  intros IH Hself Hrest.
  destruct (collect_children s get v rest Hrest) as (vs & Hm & Hch & Hss).
  exists vs. split; [exact Hm|]. split; [exact Hch|].
  apply IH. by constructor.
Qed.

Lemma lift_inl (first : obj) (rest : list obj) (s : step) (v : obj)
    (vs : list obj) (e : exn) :
  child s first = Some v -> outcome v vs (inl e) -> outcome first rest (inl e).
Proof.
  intros Hc (p & x & Hp & Hu & He). exists (s :: p), x.
  cbn. rewrite Hc. auto.
Qed.

Lemma lift_inr (first out : obj) (rest : list obj) :
  is_leaf first = false ->
  ~ unsupported first ->
  skeleton out = skeleton first ->
  (forall s v, child s first = Some v ->
     exists b vs, child s out = Some b
                  /\ Forall2 (fun r v' => child s r = Some v') rest vs
                  /\ outcome v vs (inr b)) ->
  outcome first rest (inr out).
Proof.
  intros Hleaf Hun Hsk Hch. split; [exact Hsk|]. split.
  - intros [|s p] x; cbn.
    + intros H. by injection H as <-.
    + destruct (child s first) as [v|] eqn:Hc; [|discriminate].
      destruct (Hch s v Hc) as (b & vs & _ & _ & _ & Hno & _).
      apply Hno.
  - intros [|s p] lib a0; cbn.
    + intros H. injection H as ->. discriminate Hleaf.
    + destruct (child s first) as [v|] eqn:Hc; [|discriminate].
      destruct (Hch s v Hc) as (b & vs & Hb & Hvs & _ & _ & Hlb).
      intros Hp. destruct (Hlb p lib a0 Hp) as (arrs & bb & Harrs & Hbb & Hsh).
      exists arrs, bb. split; [|split; [|exact Hsh]].
      * clear -Hvs Harrs. revert arrs Harrs.
        induction Hvs as [|r v' rest vs Hr _ IH]; intros arrs Harrs.
        -- inversion Harrs. constructor.
        -- inversion Harrs as [|? a ? arrs' Ha Hrest]; subst.
           constructor; [cbn; by rewrite Hr|by apply IH].
      * cbn. by rewrite Hb.
Qed.
End ContainerFacts.

Lemma Forall2_Forall_impl {A B : Type} (P : A -> Prop) (R R' : A -> B -> Prop)
    (l : list A) (l' : list B) :
  Forall2 R l l' -> Forall P l -> (forall a b, P a -> R a b -> R' a b) ->
  Forall2 R' l l'.
Proof.
  intros H2 H1 Himp. induction H2 as [|a b l l' HR _ IH]; [constructor|].
  apply Forall_cons in H1 as [Ha Hl]. constructor; auto.
Qed.

(** Dicts and named tuples: containers whose values are reached by name. *)
Section KeyedContainers.
Variable th_bound : bool.
Variable getk : string -> obj -> result obj.
Variable stk : string -> step.
Variable mk : list (string * obj) -> obj.

Hypothesis child_mk : forall its k, child (stk k) (mk its) = assoc k its.
Hypothesis child_mk_only :
  forall its s v, child s (mk its) = Some v -> exists k, s = stk k.
Hypothesis mk_not_leaf : forall its, is_leaf (mk its) = false.
Hypothesis mk_supported : forall its, ~ unsupported (mk its).
Hypothesis skeleton_mk :
  forall its its',
    map (fun kv => (fst kv, skeleton (snd kv))) its'
    = map (fun kv => (fst kv, skeleton (snd kv))) its ->
    skeleton (mk its') = skeleton (mk its).

Lemma keyed_outcome (items : list (string * obj)) (rest : list obj) :
  NoDup (map fst items) ->
  Forall (fun kv => batch_spec_at th_bound (snd kv)) items ->
  Forall (fun kv =>
            same_structure th_bound (snd kv) (snd kv)
            /\ Forall (fun r => exists v',
                         getk (fst kv) r = inr v'
                         /\ child (stk (fst kv)) r = Some v'
                         /\ same_structure th_bound (snd kv) v') rest) items ->
  batch_outcome th_bound (mk items) rest
    (items' ← mapM_result
                (fun kv =>
                   vs ← mapM_result (getk (fst kv)) rest;
                   b ← batch_from th_bound false (snd kv) vs;
                   mret (fst kv, b)) items;
     mret (mk items')).
Proof.
  intros Hnd HIH Hstr.
  set (g := fun kv : string * obj =>
              vs ← mapM_result (getk (fst kv)) rest;
              b ← batch_from th_bound false (snd kv) vs;
              mret (fst kv, b)).
  assert (Hentry : Forall (fun kv =>
            exists vs, Forall2 (fun r v' => child (stk (fst kv)) r = Some v') rest vs
                       /\ batch_outcome th_bound (snd kv) vs
                            (batch_from th_bound false (snd kv) vs)
                       /\ g kv = (b ← batch_from th_bound false (snd kv) vs;
                                  mret (fst kv, b))) items).
  { clear Hnd. induction items as [|kv items IH]; [constructor|].
    apply Forall_cons in HIH as [Hv HIH].
    apply Forall_cons in Hstr as [[Hself Hrest] Hstr].
    constructor; [|by apply IH].
    destruct (entry_outcome th_bound (stk (fst kv)) (getk (fst kv)) (snd kv)
                rest Hv Hself Hrest) as (vs & Hm & Hch & Hout).
    exists vs. split; [exact Hch|]. split; [exact Hout|].
    unfold g. rewrite Hm. reflexivity. }
  destruct (mapM_result g items) as [e|items'] eqn:Hg;
    cbn [mbind result_bind mret result_ret].
  - apply mapM_result_inl in Hg as (kv & Hin & He).
    rewrite Forall_forall in Hentry.
    destruct (Hentry kv (proj2 (list_elem_of_In _ _) Hin))
      as (vs & _ & Hout & Hgkv).
    rewrite Hgkv in He.
    destruct (batch_from th_bound false (snd kv) vs) as [e'|b] eqn:Hb;
      cbn in He; [|discriminate].
    injection He as ->.
    apply (lift_inl th_bound (mk items) rest (stk (fst kv)) (snd kv) vs e);
      [|exact Hout].
    rewrite child_mk. apply assoc_NoDup; [exact Hnd|]. by destruct kv.
  - apply mapM_result_inr in Hg.
    assert (HQ : Forall2
              (fun kv kv' =>
                 fst kv' = fst kv
                 /\ (fun k v b =>
                       exists vs,
                         Forall2 (fun r v' => child (stk k) r = Some v') rest vs
                         /\ batch_outcome th_bound v vs (inr b))
                      (fst kv) (snd kv) (snd kv')) items items').
    { eapply Forall2_Forall_impl; [exact Hg|exact Hentry|].
      intros kv kv' (vs & Hch & Hout & Hgkv) Hk. rewrite Hgkv in Hk.
      destruct (batch_from th_bound false (snd kv) vs) as [e'|b] eqn:Hb;
        cbn in Hk; [discriminate|].
      injection Hk as <-. split; [reflexivity|]. exists vs. auto. }
    apply lift_inr.
    + apply mk_not_leaf.
    + apply mk_supported.
    + apply skeleton_mk. clear -HQ.
      induction HQ as [|kv kv' l l' [Hk (vs & _ & Hsk & _)] _ IH]; [reflexivity|].
      cbn [map]. rewrite IH, Hk, Hsk. reflexivity.
    + intros s v Hc.
      destruct (child_mk_only _ _ _ Hc) as [k ->].
      rewrite child_mk in Hc.
      destruct (assoc_Forall2 _ _ _ _ _ HQ Hc) as (b & Hb & vs & Hvs & Hout).
      exists b, vs. rewrite child_mk. auto.
Qed.
End KeyedContainers.

(** Lists and tuples: containers whose values are reached by position. *)
Section PositionalContainers.
Variable th_bound : bool.
Variable mk : list obj -> obj.

Hypothesis child_mk : forall (l : list obj) i, child (Idx i) (mk l) = l !! i.
Hypothesis child_mk_only :
  forall l s v, child s (mk l) = Some v -> exists i, s = Idx i.
Hypothesis mk_not_leaf : forall l, is_leaf (mk l) = false.
Hypothesis mk_supported : forall l, ~ unsupported (mk l).
Hypothesis skeleton_mk :
  forall l l', map skeleton l' = map skeleton l ->
               skeleton (mk l') = skeleton (mk l).

Lemma positional_outcome (elems : list obj) (rest : list obj) :
  Forall (batch_spec_at th_bound) elems ->
  (forall i v, elems !! i = Some v ->
     same_structure th_bound v v
     /\ Forall (fun r => exists v',
                  getitem_idx i r = inr v'
                  /\ child (Idx i) r = Some v'
                  /\ same_structure th_bound v v') rest) ->
  batch_outcome th_bound (mk elems) rest
    (elems' ← mapMi_result
                (fun i v =>
                   vs ← mapM_result (getitem_idx i) rest;
                   batch_from th_bound false v vs) 0 elems;
     mret (mk elems')).
Proof.
  intros HIH Hstr.
  set (f := fun (i : nat) (v : obj) =>
              vs ← mapM_result (getitem_idx i) rest;
              batch_from th_bound false v vs).
  assert (Hentry : forall i v, elems !! i = Some v ->
            exists vs, Forall2 (fun r v' => child (Idx i) r = Some v') rest vs
                       /\ batch_outcome th_bound v vs
                            (batch_from th_bound false v vs)
                       /\ f i v = batch_from th_bound false v vs).
  { intros i v Hi. destruct (Hstr i v Hi) as [Hself Hrest].
    assert (Hv : batch_spec_at th_bound v).
    { rewrite Forall_forall in HIH. apply HIH.
      eapply list_elem_of_lookup_2. exact Hi. }
    destruct (entry_outcome th_bound (Idx i) (getitem_idx i) v rest
                Hv Hself Hrest) as (vs & Hm & Hch & Hout).
    exists vs. split; [exact Hch|]. split; [exact Hout|].
    unfold f. rewrite Hm. reflexivity. }
  destruct (mapMi_result f 0 elems) as [e|elems'] eqn:Hf;
    cbn [mbind result_bind mret result_ret].
  - apply mapMi_result_inl in Hf as (i & v & Hi & He). cbn in He.
    destruct (Hentry i v Hi) as (vs & _ & Hout & Hfi).
    rewrite Hfi in He. rewrite He in Hout.
    apply (lift_inl th_bound (mk elems) rest (Idx i) v vs e); [|exact Hout].
    rewrite child_mk. exact Hi.
  - apply mapMi_result_inr in Hf as [Hlen Hall].
    assert (Hpos : forall i v, elems !! i = Some v ->
              exists b vs, elems' !! i = Some b
                /\ Forall2 (fun r v' => child (Idx i) r = Some v') rest vs
                /\ batch_outcome th_bound v vs (inr b)).
    { intros i v Hi.
      destruct (Hall i v Hi) as (b & Hb & Hfb). cbn in Hfb.
      destruct (Hentry i v Hi) as (vs & Hch & Hout & Hfi).
      rewrite Hfi in Hfb. rewrite Hfb in Hout. eauto. }
    apply lift_inr.
    + apply mk_not_leaf.
    + apply mk_supported.
    + apply skeleton_mk.
      change (skeleton <$> elems' = skeleton <$> elems).
      apply list_eq. intros i. rewrite !list_lookup_fmap.
      destruct (elems !! i) as [v|] eqn:Hi.
      * destruct (Hpos i v Hi) as (b & vs & Hb & _ & Hsk & _).
        rewrite Hb. cbn. by rewrite Hsk.
      * apply lookup_ge_None in Hi. rewrite <- Hlen in Hi.
        apply lookup_ge_None in Hi. by rewrite Hi.
    + intros s v Hc.
      destruct (child_mk_only _ _ _ Hc) as [i ->].
      rewrite child_mk in Hc.
      destruct (Hpos i v Hc) as (b & vs & Hb & Hvs & Hout).
      exists b, vs. rewrite child_mk. auto.
Qed.
End PositionalContainers.

(** ** What [same_structure] says about each container *)

Section StructureInversion.
Variable th_bound : bool.
Abbreviation same := (same_structure th_bound).

Lemma same_dict_entry (items : list (string * obj)) (r : obj)
    (kv : string * obj) :
  same (ODict items) r -> In kv items ->
  exists v', getitem_key (fst kv) r = inr v'
             /\ child (Key (fst kv)) r = Some v'
             /\ same (snd kv) v'.
Proof.
  intros H Hin.
  inversion H as [? items' Hnd Hall| | | | | |? ? Hu]; subst; [|destruct Hu].
  rewrite Forall_forall in Hall.
  destruct (Hall kv (proj2 (list_elem_of_In _ _) Hin)) as (v' & Ha & Hs).
  exists v'. cbn. rewrite Ha. auto.
Qed.

Lemma same_dict_inv (items : list (string * obj)) (rest : list obj) :
  Forall (same (ODict items)) (ODict items :: rest) ->
  NoDup (map fst items)
  /\ Forall (fun kv =>
               same (snd kv) (snd kv)
               /\ Forall (fun r => exists v',
                            getitem_key (fst kv) r = inr v'
                            /\ child (Key (fst kv)) r = Some v'
                            /\ same (snd kv) v') rest) items.
Proof.
  intros H. apply Forall_cons in H as [Hself Hrest].
  assert (Hnd : NoDup (map fst items)).
  { inversion Hself as [? ? Hnd _| | | | | |? ? Hu]; [exact Hnd|destruct Hu]. }
  split; [exact Hnd|].
  apply Forall_forall. intros kv Hin. apply list_elem_of_In in Hin. split.
  - destruct (same_dict_entry items _ kv Hself Hin) as (v' & _ & Hc & Hs).
    cbn in Hc. rewrite (assoc_NoDup (fst kv) items (snd kv)) in Hc.
    + by injection Hc as <-.
    + exact Hnd.
    + by destruct kv.
  - apply Forall_forall. intros r Hr.
    rewrite Forall_forall in Hrest.
    apply (same_dict_entry items r kv (Hrest r Hr) Hin).
Qed.

Lemma same_namedtuple_entry (ty : string) (fields : list (string * obj))
    (r : obj) (kv : string * obj) :
  same (ONamedTuple ty fields) r -> In kv fields ->
  exists v', getattr (fst kv) r = inr v'
             /\ child (Field (fst kv)) r = Some v'
             /\ same (snd kv) v'.
Proof.
  intros H Hin.
  inversion H as [| |? ? fields' Hnd Hk Hall| | | |? ? Hu]; subst; [|destruct Hu].
  apply list_elem_of_In, list_elem_of_lookup_1 in Hin as [i Hi].
  assert (Hv : (snd <$> fields) !! i = Some (snd kv))
    by (by rewrite list_lookup_fmap, Hi).
  change (map snd fields) with (snd <$> fields) in Hall.
  change (map snd fields') with (snd <$> fields') in Hall.
  destruct (Forall2_lookup_l _ _ _ _ _ Hall Hv) as (v' & Hv' & Hs).
  rewrite list_lookup_fmap in Hv'.
  destruct (fields' !! i) as [kv'|] eqn:Hi'; [|discriminate].
  cbn in Hv'. injection Hv' as <-.
  assert (Hfst : fst kv' = fst kv).
  { assert (E : (fst <$> fields') !! i = (fst <$> fields) !! i)
      by (change ((map fst fields') !! i = (map fst fields) !! i); by rewrite Hk).
    rewrite !list_lookup_fmap, Hi, Hi' in E. by injection E. }
  assert (Ha : assoc (fst kv) fields' = Some (snd kv')).
  { apply assoc_NoDup; [by rewrite Hk|].
    rewrite <- Hfst. apply list_elem_of_In.
    eapply list_elem_of_lookup_2. rewrite Hi'. by destruct kv'. }
  exists (snd kv'). cbn. rewrite Ha. auto.
Qed.

Lemma same_namedtuple_inv (ty : string) (fields : list (string * obj))
    (rest : list obj) :
  Forall (same (ONamedTuple ty fields)) (ONamedTuple ty fields :: rest) ->
  NoDup (map fst fields)
  /\ Forall (fun kv =>
               same (snd kv) (snd kv)
               /\ Forall (fun r => exists v',
                            getattr (fst kv) r = inr v'
                            /\ child (Field (fst kv)) r = Some v'
                            /\ same (snd kv) v') rest) fields.
Proof.
  intros H. apply Forall_cons in H as [Hself Hrest].
  assert (Hnd : NoDup (map fst fields)).
  { inversion Hself as [| |? ? ? Hnd _ _| | | |? ? Hu]; [exact Hnd|destruct Hu]. }
  split; [exact Hnd|].
  apply Forall_forall. intros kv Hin. apply list_elem_of_In in Hin. split.
  - destruct (same_namedtuple_entry ty fields _ kv Hself Hin)
      as (v' & _ & Hc & Hs).
    cbn in Hc. rewrite (assoc_NoDup (fst kv) fields (snd kv)) in Hc.
    + by injection Hc as <-.
    + exact Hnd.
    + by destruct kv.
  - apply Forall_forall. intros r Hr.
    rewrite Forall_forall in Hrest.
    apply (same_namedtuple_entry ty fields r kv (Hrest r Hr) Hin).
Qed.

Lemma same_list_entry (elems : list obj) (r : obj) (i : nat) (v : obj) :
  same (OList elems) r -> elems !! i = Some v ->
  exists v', getitem_idx i r = inr v' /\ child (Idx i) r = Some v' /\ same v v'.
Proof.
  intros H Hi.
  inversion H as [|? elems' Hall| | | | |? ? Hu]; subst; [|destruct Hu].
  destruct (Forall2_lookup_l _ _ _ _ _ Hall Hi) as (v' & Hv' & Hs).
  exists v'. cbn. unfold list_item. rewrite Hv'. auto.
Qed.

Lemma same_tuple_entry (elems : list obj) (r : obj) (i : nat) (v : obj) :
  same (OTuple elems) r -> elems !! i = Some v ->
  exists v', getitem_idx i r = inr v' /\ child (Idx i) r = Some v' /\ same v v'.
Proof.
  intros H Hi.
  inversion H as [| | |? elems' Hall| | |? ? Hu]; subst; [|destruct Hu].
  destruct (Forall2_lookup_l _ _ _ _ _ Hall Hi) as (v' & Hv' & Hs).
  exists v'. cbn. unfold list_item. rewrite Hv'. auto.
Qed.

Lemma same_positional_inv (mk : list obj -> obj) (elems : list obj)
    (rest : list obj) :
  (forall l i, child (Idx i) (mk l) = l !! i) ->
  (forall r i v, same (mk elems) r -> elems !! i = Some v ->
     exists v', getitem_idx i r = inr v' /\ child (Idx i) r = Some v'
                /\ same v v') ->
  Forall (same (mk elems)) (mk elems :: rest) ->
  forall i v, elems !! i = Some v ->
    same v v
    /\ Forall (fun r => exists v',
                 getitem_idx i r = inr v'
                 /\ child (Idx i) r = Some v'
                 /\ same v v') rest.
Proof.
  intros Hchild Hentry H i v Hi.
  apply Forall_cons in H as [Hself Hrest]. split.
  - destruct (Hentry _ i v Hself Hi) as (v' & _ & Hc & Hs).
    rewrite Hchild, Hi in Hc. by injection Hc as <-.
  - apply Forall_forall. intros r Hr. rewrite Forall_forall in Hrest.
    apply (Hentry r i v (Hrest r Hr) Hi).
Qed.
End StructureInversion.

(** ** The batcher on structurally identical records *)

Lemma batch_from_outcome (th_bound : bool) (first : obj) (rest : list obj) :
  Forall (same_structure th_bound first) (first :: rest) ->
  batch_outcome th_bound first rest (batch_from th_bound false first rest).
Proof.
  revert rest. change (batch_spec_at th_bound first).
  induction first as [items IH|elems IH|ty fields IH|elems IH| |lib a|s|n]
    using obj_rect_nested; intros rest H.
  - apply same_dict_inv in H as [Hnd Hstr]. cbn [batch_from].
    apply (keyed_outcome th_bound getitem_key Key ODict); try done.
    + intros its [k|i|f] v Hc; try discriminate. eauto.
    + intros its [].
    + intros its its' E. cbn. by rewrite E.
  - cbn [batch_from].
    apply (positional_outcome th_bound OList); try done.
    + intros l [k|i|f] v Hc; try discriminate. eauto.
    + intros l [].
    + intros l l' E. cbn. by rewrite E.
    + apply (same_positional_inv th_bound OList); try done.
      intros r i v. apply same_list_entry.
  - apply same_namedtuple_inv in H as [Hnd Hstr]. cbn [batch_from].
    apply (keyed_outcome th_bound getattr Field (ONamedTuple ty)); try done.
    + intros its [k|i|f] v Hc; try discriminate. eauto.
    + intros its [].
    + intros its its' E. cbn. by rewrite E.
  - cbn [batch_from].
    apply (positional_outcome th_bound OTuple); try done.
    + intros l [k|i|f] v Hc; try discriminate. eauto.
    + intros l [].
    + intros l l' E. cbn. by rewrite E.
    + apply (same_positional_inv th_bound OTuple); try done.
      intros r i v. apply same_tuple_entry.
  - cbn. split; [reflexivity|]. split.
    + intros [|[k|i|f] p] x; cbn; try discriminate.
      intros E. injection E as <-. intros [].
    + intros [|[k|i|f] p] lib a0; cbn; discriminate.
  - by apply batch_from_array.
  - rewrite batch_from_unsupported by exact I.
    exists [], (OStr s). repeat split.
  - rewrite batch_from_unsupported by exact I.
    exists [], (OInt n). repeat split.
Qed.

Lemma has_unsupported_here (o : obj) :
  has_unsupported o = false -> ~ unsupported o.
Proof. destruct o; cbn; intros H; try discriminate H; intros []. Qed.

Lemma existsb_false_In {A : Type} (f : A -> bool) (l : list A) (a : A) :
  existsb f l = false -> In a l -> f a = false.
Proof.
  intros Hb Hin. apply not_true_is_false. intros Ha.
  assert (Hex : existsb f l = true) by (apply existsb_exists; eauto).
  rewrite Hex in Hb. discriminate.
Qed.

Lemma has_unsupported_descend (o : obj) :
  has_unsupported o = false ->
  forall p x, descend p o = Some x -> ~ unsupported x.
Proof.
  induction o as [items IH|elems IH|ty fields IH|elems IH| |lib a|s|n]
    using obj_rect_nested; intros Hb [|st p] x;
    try (intros E; injection E as <-; by apply has_unsupported_here);
    cbn [descend].
  - destruct st as [k|i|f]; try discriminate. cbn [child].
    destruct (assoc k items) as [v|] eqn:Ha; [|discriminate].
    apply assoc_In in Ha. rewrite Forall_forall in IH.
    apply (IH (k, v) (proj2 (list_elem_of_In _ _) Ha)).
    apply (existsb_false_In (fun kv => has_unsupported (snd kv)) items (k, v));
      assumption.
  - destruct st as [k|i|f]; try discriminate. cbn [child].
    destruct (elems !! i) as [v|] eqn:Hi; [|discriminate].
    rewrite Forall_forall in IH.
    apply (IH v (list_elem_of_lookup_2 _ _ _ Hi)).
    apply (existsb_false_In has_unsupported elems v); [assumption|].
    apply list_elem_of_In. eapply list_elem_of_lookup_2. exact Hi.
  - destruct st as [k|i|f]; try discriminate. cbn [child].
    destruct (assoc f fields) as [v|] eqn:Ha; [|discriminate].
    apply assoc_In in Ha. rewrite Forall_forall in IH.
    apply (IH (f, v) (proj2 (list_elem_of_In _ _) Ha)).
    apply (existsb_false_In (fun kv => has_unsupported (snd kv)) fields (f, v));
      assumption.
  - destruct st as [k|i|f]; try discriminate. cbn [child].
    destruct (elems !! i) as [v|] eqn:Hi; [|discriminate].
    rewrite Forall_forall in IH.
    apply (IH v (list_elem_of_lookup_2 _ _ _ Hi)).
    apply (existsb_false_In has_unsupported elems v); [assumption|].
    apply list_elem_of_In. eapply list_elem_of_lookup_2. exact Hi.
  - destruct st; discriminate.
  - destruct st; discriminate.
  - destruct st; discriminate.
  - destruct st; discriminate.
Qed.

Lemma batch_from_check_shape_container (th_bound : bool) (first : obj)
    (rest : list obj) (check_shape : bool) :
  is_leaf first = false ->
  batch_from th_bound check_shape first rest = batch_from th_bound false first rest.
Proof. destruct first; try discriminate; reflexivity. Qed.

(** ** C5, C7, C8, C10: the claims about the batcher *)

(** C5: for [n >= 1] structurally identical records ([first] and the [n - 1]
    records of [rest]) whose leaves are arrays with a batch axis,
    [batch(records)] returns a record with the non-leaf structure of the
    inputs (keys, lengths, arities, type and field names, [None] markers,
    and the axes of each leaf after the first), and each of its leaves is
    the concatenation of the input leaves at that place along the batch
    axis: its batch size is the sum of theirs.  This is the call without
    the shape check; with it the same holds when the records are
    containers. *)
Theorem batch_shape_law (th_bound : bool) (first : obj) (rest : list obj)
    (check_shape : bool) :
  check_shape = false \/ is_leaf first = false ->
  Forall (same_structure th_bound first) (first :: rest) ->
  has_unsupported first = false ->
  exists out,
    batch_recursive_objects th_bound (first :: rest) check_shape = inr out
    /\ skeleton out = skeleton first
    /\ leaves_batched first rest out.
Proof.
  intros Hcs Hsame Hsup.
  pose proof (batch_from_outcome th_bound first rest Hsame) as Hout.
  cbn [batch_recursive_objects].
  assert (E : batch_from th_bound check_shape first rest
              = batch_from th_bound false first rest).
  { destruct Hcs as [->|Hl]; [reflexivity|].
    by apply batch_from_check_shape_container. }
  rewrite E.
  destruct (batch_from th_bound false first rest) as [e|out].
  - destruct Hout as (p & x & Hp & Hu & _).
    exfalso. exact (has_unsupported_descend first Hsup p x Hp Hu).
  - destruct Hout as (Hsk & _ & Hl). exists out. auto.
Qed.

Lemma docstring_same_structure :
  Forall (same_structure false (ODict [("a", Docstring.a); ("b", Docstring.b);
                                       ("t", OTuple [Docstring.a; Docstring.b]);
                                       ("n", ONone)])) Docstring.e.
Proof.
  assert (Ha : same_structure false Docstring.a Docstring.a).
  { eapply ss_array; [discriminate|reflexivity|reflexivity]. }
  assert (Hb : same_structure false Docstring.b Docstring.b).
  { eapply ss_array; [discriminate|reflexivity|reflexivity]. }
  assert (Hd : same_structure false
                 (ODict [("a", Docstring.a); ("b", Docstring.b);
                         ("t", OTuple [Docstring.a; Docstring.b]); ("n", ONone)])
                 (ODict [("a", Docstring.a); ("b", Docstring.b);
                         ("t", OTuple [Docstring.a; Docstring.b]); ("n", ONone)])).
  { apply ss_dict.
    - apply (bool_decide_unpack _). vm_compute. exact I.
    - repeat apply List.Forall_cons; try apply List.Forall_nil;
        (eexists; split; [reflexivity|]); try assumption.
      + apply ss_tuple.
        apply List.Forall2_cons; [exact Ha|].
        apply List.Forall2_cons; [exact Hb|].
        apply List.Forall2_nil.
      + apply ss_none. }
  unfold Docstring.e.
  apply List.Forall_cons; [exact Hd|].
  apply List.Forall_cons; [exact Hd|].
  apply List.Forall_nil.
Defined.

Lemma batch_shape_law_witness :
  exists out,
    batch_recursive_objects false Docstring.e false = inr out
    /\ skeleton out
       = KDict [("a", KArray Numpy [1; 4]); ("b", KArray Numpy [2; 4]);
                ("t", KTuple [KArray Numpy [1; 4]; KArray Numpy [2; 4]]);
                ("n", KNone)].
Proof.
  destruct (batch_shape_law false _ _ false (or_introl eq_refl)
              docstring_same_structure eq_refl)
    as (out & Hout & Hsk & _).
  exists out. split; [exact Hout|]. rewrite Hsk. reflexivity.
Defined.

(** C7, counterexample: with shape checking on, a list whose only element
    is a plain string raises [AttributeError] (a string has no [shape]), not
    the error for unsupported types; and without shape checking, a second
    record that lacks the key under which the first one holds a string
    raises [KeyError].  Both hold with [th] bound. *)
Lemma unsupported_leaf_other_exceptions :
  unsupported (OStr "abc")
  /\ batch_recursive_objects true [OStr "abc"] true
     = inl (AttributeError "shape")
  /\ descend [Key "s"] (ODict [("s", OStr "abc")]) = Some (OStr "abc")
  /\ batch_recursive_objects true [ODict [("s", OStr "abc")]; ODict []] false
     = inl (KeyError "s").
Proof. split; [exact I|]. repeat split. Qed.

(** C7 (amended): when the name [th] is bound, shape checking is off or the
    first record is a container, and the records have the structure of the
    first one, a first record that holds a leaf that is neither a container,
    [None] nor an array makes [batch] raise the [ValueError] for unsupported
    types, naming the type of such a leaf of the first record. *)
Theorem unsupported_leaf_rejected (first : obj) (rest : list obj)
    (check_shape : bool) :
  check_shape = false \/ is_leaf first = false ->
  Forall (same_structure true first) (first :: rest) ->
  (exists p x, descend p first = Some x /\ unsupported x) ->
  exists p x,
    descend p first = Some x /\ unsupported x
    /\ batch_recursive_objects true (first :: rest) check_shape
       = inl (ValueError (unsupported_message x)).
Proof.
  intros Hcs Hsame (p & x & Hp & Hu).
  pose proof (batch_from_outcome true first rest Hsame) as Hout.
  cbn [batch_recursive_objects].
  assert (E : batch_from true check_shape first rest
              = batch_from true false first rest).
  { destruct Hcs as [->|Hl]; [reflexivity|].
    by apply batch_from_check_shape_container. }
  rewrite E.
  destruct (batch_from true false first rest) as [e|out].
  - destruct Hout as (p' & x' & Hp' & Hu' & ->). exists p', x'. auto.
  - destruct Hout as (_ & Hno & _). exfalso. exact (Hno p x Hp Hu).
Qed.

Lemma unsupported_leaf_rejected_witness :
  exists p x,
    descend p (ODict [("a", Docstring.a); ("s", OStr "abc")]) = Some x
    /\ unsupported x
    /\ batch_recursive_objects true
         [ODict [("a", Docstring.a); ("s", OStr "abc")];
          ODict [("a", Docstring.a); ("s", OStr "xyz")]] true
       = inl (ValueError (unsupported_message x)).
Proof.
  apply (unsupported_leaf_rejected
           (ODict [("a", Docstring.a); ("s", OStr "abc")])
           [ODict [("a", Docstring.a); ("s", OStr "xyz")]] true).
  - right. reflexivity.
  - assert (Ha : same_structure true Docstring.a Docstring.a).
    { eapply ss_array; [reflexivity|reflexivity|reflexivity]. }
    repeat apply List.Forall_cons; try apply List.Forall_nil.
    + apply ss_dict.
      * apply (bool_decide_unpack _). vm_compute. exact I.
      * repeat apply List.Forall_cons; try apply List.Forall_nil;
          (eexists; split; [reflexivity|]); [exact Ha|].
        apply ss_unsupported. exact I.
    + apply ss_dict.
      * apply (bool_decide_unpack _). vm_compute. exact I.
      * repeat apply List.Forall_cons; try apply List.Forall_nil;
          (eexists; split; [reflexivity|]); [exact Ha|].
        apply ss_unsupported. exact I.
  - exists [Key "s"], (OStr "abc"). split; [reflexivity|exact I].
Defined.

Section ShapeCheck.
Variable th_bound : bool.

Lemma assert_same_shape_arrays (lib : array_lib) (a0 : ndarray)
    (arrs : list ndarray) :
  assert_same_shape (OArray lib a0) (map (OArray lib) arrs)
  = if forallb (fun a => bool_decide (shape a = shape a0)) arrs
    then inr tt
    else inl (AssertionError "All objects must have the same shape").
Proof.
  unfold assert_same_shape.
  assert (Hm : mapM_result
                 (fun e => s ← get_shape e; s0 ← get_shape (OArray lib a0);
                           mret (bool_decide (s = s0)))
                 (map (OArray lib) arrs)
               = inr (map (fun a => bool_decide (shape a = shape a0)) arrs)).
  { apply mapM_result_inr.
    induction arrs as [|a arrs IH]; constructor; [reflexivity|exact IH]. }
  rewrite Hm. cbn [mbind result_bind].
  assert (Hf : forallb (fun ok : bool => ok)
                 (map (fun a => bool_decide (shape a = shape a0)) arrs)
               = forallb (fun a => bool_decide (shape a = shape a0)) arrs).
  { clear. induction arrs as [|a arrs IH]; [reflexivity|].
    cbn. by rewrite IH. }
  rewrite Hf. reflexivity.
Qed.

Lemma batch_leaf_checked (lib : array_lib) (a0 : ndarray) (arrs : list ndarray) :
  (lib = Torch -> th_bound = true) ->
  batch_leaf th_bound true (OArray lib a0) (map (OArray lib) arrs)
  = if forallb (fun a => bool_decide (shape a = shape a0)) arrs
    then concat_axis0 lib (map (OArray lib) (a0 :: arrs))
    else inl (AssertionError "All objects must have the same shape").
Proof.
  intros Hth. unfold batch_leaf.
  change (OArray lib a0 :: map (OArray lib) arrs)
    with (map (OArray lib) (a0 :: arrs)).
  rewrite assert_same_shape_arrays. cbn [forallb].
  rewrite bool_decide_eq_true_2 by reflexivity. cbn [andb].
  destruct (forallb _ arrs); cbn [mbind result_bind]; [|reflexivity].
  destruct lib; [reflexivity|]. rewrite Hth by reflexivity. reflexivity.
Qed.
End ShapeCheck.

(** C8, counterexample: two top-level leaves of shapes (1, 4) and (2, 4)
    agree on every axis but the batch axis, and with shape checking they do
    not batch: the check compares whole shapes.  Without the check they
    batch to a leaf of shape (3, 4). *)
Lemma shape_check_rejects_different_batch_sizes :
  batch_recursive_objects true Docstring.rows_1_and_2 true
  = inl (AssertionError "All objects must have the same shape")
  /\ skeleton <$> Docstring.rows_1_and_2
     = [KArray Numpy [4]; KArray Numpy [4]]
  /\ exists out,
       batch_recursive_objects true Docstring.rows_1_and_2 false
       = inr (OArray Numpy out)
       /\ shape out = [3; 4].
Proof.
  split; [reflexivity|]. split; [reflexivity|].
  eexists. split; reflexivity.
Qed.

(** C8 (amended): with shape checking enabled and records that are
    themselves array leaves (tensors only if [th] is bound), [batch] asserts
    before concatenating that every record has the shape of the first one,
    batch axis included: if some record has another shape it raises the
    [AssertionError] "All objects must have the same shape", and if all have
    the shape of the first one, which has a batch axis, it returns their
    concatenation along that axis. *)
Theorem shape_check_on_leaves (th_bound : bool) (lib : array_lib)
    (a0 : ndarray) (arrs : list ndarray) :
  (lib = Torch -> th_bound = true) ->
  (Exists (fun a => shape a <> shape a0) arrs ->
     batch_recursive_objects th_bound (map (OArray lib) (a0 :: arrs)) true
     = inl (AssertionError "All objects must have the same shape"))
  /\ (Forall (fun a => shape a = shape a0) arrs -> shape a0 <> [] ->
        batch_recursive_objects th_bound (map (OArray lib) (a0 :: arrs)) true
        = inr (OArray lib
                 (mkNdarray
                    (list_sum (map batch_size (a0 :: arrs)) :: tl (shape a0))
                    (concat (map data (a0 :: arrs)))))).
Proof.
  intros Hth. cbn [map batch_recursive_objects batch_from].
  rewrite batch_leaf_checked by exact Hth. split.
  - intros Hex.
    assert (Hb : forallb (fun a => bool_decide (shape a = shape a0)) arrs = false).
    { apply not_true_is_false. intros Hall. rewrite forallb_forall in Hall.
      apply Exists_exists in Hex as (a & Hin & Hne).
      apply list_elem_of_In in Hin. specialize (Hall a Hin).
      apply bool_decide_eq_true_1 in Hall. contradiction. }
    rewrite Hb. reflexivity.
  - intros Hall Hne.
    assert (Hb : forallb (fun a => bool_decide (shape a = shape a0)) arrs = true).
    { apply forallb_forall. intros a Hin. apply bool_decide_eq_true_2.
      rewrite Forall_forall in Hall. apply Hall. by apply list_elem_of_In. }
    rewrite Hb.
    destruct (shape a0) as [|n inner] eqn:Hs; [done|].
    cbn [tl]. apply (concat_axis0_ok lib a0 arrs n inner Hs).
    apply Forall_forall. intros a Hin. rewrite Forall_forall in Hall.
    exists n. exact (Hall a Hin).
Qed.

Lemma shape_check_on_leaves_witness :
  batch_recursive_objects false
    (map (OArray Numpy) [Docstring.zeros [1; 4]; Docstring.zeros [2; 4]]) true
  = inl (AssertionError "All objects must have the same shape").
Proof.
  refine (proj1 (shape_check_on_leaves false Numpy (Docstring.zeros [1; 4])
                   [Docstring.zeros [2; 4]] _) _).
  - discriminate.
  - apply List.Exists_cons_hd. cbn. discriminate.
Defined.

(** C10: [batch] on the empty sequence of records returns no value: it
    raises [IndexError], whatever the shape-check flag (and whether or not
    [th] is bound). *)
Theorem batch_empty_raises (th_bound check_shape : bool) :
  batch_recursive_objects th_bound [] check_shape = inl IndexError
  /\ forall out, batch_recursive_objects th_bound [] check_shape <> inr out.
Proof. split; [reflexivity|]. intros out. discriminate. Qed.

(** * Further properties of the quantizer *)




Section InRange.
Local Open Scope R_scope.
Import QuantizationScheme.
Variable q : CameraQuantizer.
Hypothesis Hsz : sizes_in_range q.
Hypothesis Hmu : mu_in_range q.

Lemma sizes_pos : 0 < IZR (camera_maxval q) /\ 0 < IZR (camera_binsize q).
Proof. destruct Hsz as [[HM _] [HB _]]. split; by apply IZR_lt. Qed.

Lemma mu_pos : quantization_scheme q = MU_LAW -> 0 < mu q.
Proof.
  intros Hs. specialize (Hmu Hs).
  assert (0 < / 1024) by (apply Rinv_0_lt_compat; lra). lra.
Qed.

Lemma mu_division_in_range : mu_division q = inr tt.
Proof.
  unfold mu_division.
  destruct (String.eqb_spec (quantization_scheme q) MU_LAW) as [Hs|Hs];
    [|reflexivity].
  pose proof (mu_pos Hs).
  destruct (Req_dec_T (mu q) 0); [lra|reflexivity].
Qed.

Lemma undiscretize_in_range (b : Z) :
  undiscretize q b = inr (undiscretize_value q b).
Proof. unfold undiscretize. rewrite mu_division_in_range. reflexivity. Qed.

(** A bin in range is the bin of its value. *)
Lemma bin_fixed (b : Z) :
  bin_in_range q b -> discretize q (undiscretize_value q b) = b.
Proof.
  intros [Hlo Hhi].
  destruct sizes_pos as [HM HB].
  pose proof Hsz as [[_ HM1] [_ HB1]].
  assert (Hl : linear_dequantize q b
               = IZR b * IZR (camera_binsize q) - IZR (camera_maxval q)).
  { apply linear_dequantize_small; lia. }
  apply IZR_le in Hlo, Hhi. rewrite !mult_IZR in *.
  assert (Hv : - IZR (camera_maxval q) <= linear_dequantize q b
               <= IZR (camera_maxval q)) by (rewrite Hl; lra).
  assert (Hb : (linear_dequantize q b + IZR (camera_maxval q))
               / IZR (camera_binsize q) = IZR b)
    by (rewrite Hl; field; lra).
  unfold discretize, undiscretize_value.
  destruct (scheme_cases q) as [[-> Hs]| ->].
  - pose proof (mu_pos Hs) as Hm.
    rewrite clip_id by (by apply mu_decode_bounds).
    rewrite (mu_encode_decode q HM Hm), Hb. apply round_IZR.
  - rewrite clip_id by exact Hv. rewrite Hb. apply round_IZR.
Qed.
End InRange.

(** X2, the float operations taken as those of the real numbers: for
    [maxval] and [binsize] positive and below [2 ^ 31] with [binsize]
    dividing [2 * maxval] (and [mu >= 2 ^ -10] under the mu-law scheme),
    every real delta, in range or not, is discretized to a bin between [0]
    and [2 * maxval / binsize]. *)
Theorem discretize_range (q : CameraQuantizer) (x : R) :
  sizes_in_range q ->
  mu_in_range q ->
  Z.divide (camera_binsize q) (2 * camera_maxval q) ->
  (0 <= discretize q x <= 2 * camera_maxval q / camera_binsize q)%Z.
Proof.
  intros Hsz Hmu [k Hk].
  destruct (sizes_pos q Hsz) as [HM HB].
  pose proof Hsz as [[HM0 _] [HB0 _]].
  assert (Hdiv : (2 * camera_maxval q / camera_binsize q = k)%Z).
  { rewrite Hk. apply Z.div_mul. lia. }
  rewrite Hdiv.
  assert (HkR : (2 * IZR (camera_maxval q) = IZR k * IZR (camera_binsize q))%R).
  { rewrite <- !mult_IZR. f_equal. exact Hk. }
  pose proof (clip_bounds x (- IZR (camera_maxval q)) (IZR (camera_maxval q))
                ltac:(lra)) as Hc.
  set (c := Np.clip x (- IZR (camera_maxval q)) (IZR (camera_maxval q))) in *.
  assert (Hv : exists v, (- IZR (camera_maxval q) <= v <= IZR (camera_maxval q))%R
                         /\ discretize q x
                            = Np.round ((v + IZR (camera_maxval q))
                                        / IZR (camera_binsize q))).
  { unfold discretize. fold c.
    destruct (scheme_cases q) as [[-> Hs]| ->]; [|exists c; auto].
    exists (mu_encode q c). split; [|reflexivity].
    apply mu_encode_bounds; [exact HM|by apply mu_pos|exact Hc]. }
  destruct Hv as (v & [Hlo Hhi] & ->).
  split.
  - rewrite <- (round_IZR 0). apply round_monotone.
    apply Rmult_le_pos; [lra|]. apply Rlt_le, Rinv_0_lt_compat, HB.
  - rewrite <- (round_IZR k). apply round_monotone.
    replace (IZR k) with (IZR k * IZR (camera_binsize q) / IZR (camera_binsize q))%R
      by (field; lra).
    apply div_monotone; lra.
Qed.

Lemma discretize_range_witness :
  (0 <= discretize Example.quantizer 1000 <= 10)%Z.
Proof.
  apply (discretize_range Example.quantizer 1000).
  - split; cbn; lia.
  - intros H. discriminate H.
  - exists 10%Z. reflexivity.
Defined.

(** X3, the float operations taken as those of the real numbers: for
    [maxval] and [binsize] positive and below [2 ^ 31] (and
    [mu >= 2 ^ -10] under the mu-law scheme), [undiscretize] returns for a
    bin whose centre lies in range ([0 <= bin * binsize <= 2 * maxval]) a
    value that [discretize] maps back to that bin, under both schemes. *)
Theorem discretize_undiscretize (q : CameraQuantizer) (b : Z) :
  sizes_in_range q ->
  mu_in_range q ->
  bin_in_range q b ->
  exists v, undiscretize q b = inr v /\ discretize q v = b.
Proof.
  intros Hsz Hmu Hb. exists (undiscretize_value q b).
  split; [by apply undiscretize_in_range|by apply bin_fixed].
Qed.

Lemma discretize_undiscretize_witness :
  exists v,
    undiscretize Example.quantizer 7 = inr v
    /\ discretize Example.quantizer v = 7%Z.
Proof.
  apply (discretize_undiscretize Example.quantizer 7).
  - split; cbn; lia.
  - intros H. discriminate H.
  - unfold bin_in_range. cbn. lia.
Defined.

(** X4, the float operations taken as those of the real numbers: for
    [maxval] and [binsize] positive and below [2 ^ 31] with [binsize]
    dividing [maxval] (and [mu >= 2 ^ -10] under the mu-law scheme), the
    zero delta is discretized to the bin [maxval / binsize] (the value
    [camera_zero_bin] names), and [undiscretize] returns exactly 0 for
    that bin, under both schemes. *)
Theorem zero_bin (q : CameraQuantizer) :
  sizes_in_range q ->
  mu_in_range q ->
  Z.divide (camera_binsize q) (camera_maxval q) ->
  discretize q 0 = (camera_maxval q / camera_binsize q)%Z
  /\ undiscretize q (camera_maxval q / camera_binsize q) = inr 0%R.
Proof.
  intros Hsz Hmu [k Hk].
  destruct (sizes_pos q Hsz) as [HM HB].
  pose proof Hsz as [[HM0 HM1] [HB0 HB1]].
  assert (Hdiv : (camera_maxval q / camera_binsize q = k)%Z).
  { rewrite Hk. apply Z.div_mul. lia. }
  rewrite Hdiv.
  assert (HkR : (IZR (camera_maxval q) = IZR k * IZR (camera_binsize q))%R).
  { rewrite <- mult_IZR. f_equal. exact Hk. }
  assert (E0 : (0 / IZR (camera_maxval q) = 0)%R) by (unfold Rdiv; ring).
  assert (Henc : mu_encode q 0 = 0%R).
  { unfold mu_encode. rewrite E0, sign_zero. ring. }
  assert (Hdec : mu_decode q 0 = 0%R).
  { unfold mu_decode. rewrite E0, sign_zero. ring. }
  assert (Hl : linear_dequantize q k = 0%R).
  { rewrite linear_dequantize_small by lia. lra. }
  split.
  - unfold discretize. rewrite clip_id by lra.
    assert (Hr : ((0 + IZR (camera_maxval q)) / IZR (camera_binsize q) = IZR k)%R).
    { rewrite HkR at 1. field. lra. }
    destruct (scheme_cases q) as [[-> Hs]| ->].
    + rewrite Henc, Hr. apply round_IZR.
    + rewrite Hr. apply round_IZR.
  - rewrite (undiscretize_in_range q Hmu). f_equal.
    unfold undiscretize_value. rewrite Hl.
    destruct (scheme_cases q) as [[-> Hs]| ->]; [exact Hdec|reflexivity].
Qed.

Lemma zero_bin_witness :
  discretize Example.quantizer 0 = 5%Z
  /\ undiscretize Example.quantizer 5 = inr 0%R.
Proof.
  apply (zero_bin Example.quantizer).
  - split; cbn; lia.
  - intros H. discriminate H.
  - exists 5%Z. reflexivity.
Defined.

(** * Further properties of the event decoder *)


Section DecoderTheorems.
Variable KEYBOARD_BUTTON_MAPPING : gmap string string.
Variable IGNORED_KEYS : list string.
Variable NOOP_ACTION : gmap string Z.
Variable CAMERA_SCALER : Q.

Lemma key_sets_spec (ks : list string) (name : string) :
  key_sets KEYBOARD_BUTTON_MAPPING ks name = true
  <-> exists k, k ∈ ks /\ KEYBOARD_BUTTON_MAPPING !! k = Some name.
Proof.
  unfold key_sets. rewrite existsb_exists. split.
  - intros (k & Hin & Hk). apply bool_decide_eq_true_1 in Hk.
    exists k. split; [by apply list_elem_of_In|exact Hk].
  - intros (k & Hin & Hk). exists k. split; [by apply list_elem_of_In|].
    by apply bool_decide_eq_true_2.
Qed.

Lemma int64_abs_fits (t : Z) :
  Int64.fits t = true -> t <> Int64.min_int -> Int64.abs t = Z.abs t.
Proof.
  unfold Int64.fits, Int64.min_int, Int64.max_int. intros H Hne.
  apply andb_true_iff in H as [H1 H2]. apply Z.leb_le in H1, H2.
  unfold Int64.abs. apply wrap_fits.
  unfold Int64.fits, Int64.min_int, Int64.max_int.
  apply andb_true_iff. split; apply Z.leb_le; lia.
Qed.

(** A stored cell ends within 180 degrees, but for the least [int64]
    value, whose [abs] is not beyond 180. *)
Lemma camera_cell_bound (d : Q) :
  camera_fits CAMERA_SCALER d = true ->
  (-180 <= camera_cell CAMERA_SCALER d <= 180)%Z
  \/ camera_cell CAMERA_SCALER d = Int64.min_int.
Proof.
  unfold camera_fits, camera_cell. intros H.
  set (t := Float64.truncate (Float64.mul d CAMERA_SCALER)) in *.
  assert (Ht : Int64.fits t = true).
  { destruct (float_truthy d) eqn:E; [exact H|].
    unfold t. rewrite (zero_delta_cell CAMERA_SCALER d E). reflexivity. }
  destruct (Z.eq_dec t Int64.min_int) as [E|E].
  - right. rewrite E. reflexivity.
  - left. rewrite (int64_abs_fits t Ht E).
    destruct (Z.ltb_spec 180 (Z.abs t)); lia.
Qed.

Lemma truncate_small (x : Q) :
  (-(1) < x)%Q -> (x < 1)%Q -> Float64.truncate x = 0%Z.
Proof.
  unfold Qlt, Float64.truncate. destruct x as [n d]. cbn. intros Hlo Hhi.
  destruct (Z_le_gt_dec 0 n) as [Hn|Hn].
  - apply Z.quot_small. lia.
  - replace n with (- - n)%Z by lia.
    rewrite Z.quot_opp_l by lia. rewrite Z.quot_small by lia. reflexivity.
Qed.
End DecoderTheorems.

(** X5: the buttons of the action a call returns: a button is 1 when a
    held key is mapped to it by the keyboard table, or it is ["attack"] and
    mouse button 0 is held, or it is ["use"] and mouse button 2 is held;
    every other entry is the one of [NOOP_ACTION] (absent if absent
    there). *)
Theorem decoded_buttons
    (KEYBOARD_BUTTON_MAPPING : gmap string string) (IGNORED_KEYS : list string)
    (NOOP_ACTION : gmap string Z) (CAMERA_SCALER : Q) (ev : LowLevelAction)
    (a : EnvAction) (flag : bool) (name : string) :
  annotation_action_to_env_action KEYBOARD_BUTTON_MAPPING IGNORED_KEYS
    NOOP_ACTION CAMERA_SCALER ev = inr (a, flag) ->
  env_buttons a !! name
  = if key_sets KEYBOARD_BUTTON_MAPPING (keys (keyboard ev)) name
       || mouse_sets (mouse ev) name
    then Some 1%Z
    else NOOP_ACTION !! name.
Proof.
  intros H. apply decode_inr in H as (Hy & Hx & H). injection H as -> _.
  by apply run_buttons.
Qed.

Lemma decoded_buttons_witness :
  exists a flag,
    Example.decode Example.event = inr (a, flag)
    /\ env_buttons a !! "attack" = Some 1%Z.
Proof.
  destruct (Example.decode Example.event) as [e|[a flag]] eqn:H.
  - vm_compute in H. discriminate H.
  - exists a, flag. split; [reflexivity|].
    apply (decoded_buttons Example.KEYBOARD_BUTTON_MAPPING
             Example.IGNORED_KEYS Example.NOOP_ACTION Example.CAMERA_SCALER
             Example.event a flag "attack" H).
Defined.

(** X6: the camera of the action a call returns depends on the mouse
    deltas only: its cells are the float products of [dy] and [dx] with the
    scaler, cut to integers, or 0 where that is beyond 180; so each cell
    lies in [[-180, 180]], or is the least [int64] value, whose [abs] is
    negative. *)
Theorem decoded_camera
    (KEYBOARD_BUTTON_MAPPING : gmap string string) (IGNORED_KEYS : list string)
    (NOOP_ACTION : gmap string Z) (CAMERA_SCALER : Q) (ev : LowLevelAction)
    (a : EnvAction) (flag : bool) :
  annotation_action_to_env_action KEYBOARD_BUTTON_MAPPING IGNORED_KEYS
    NOOP_ACTION CAMERA_SCALER ev = inr (a, flag) ->
  env_camera a = (camera_cell CAMERA_SCALER (dy (mouse ev)),
                  camera_cell CAMERA_SCALER (dx (mouse ev)))
  /\ ((-180 <= fst (env_camera a) <= 180)%Z
      \/ fst (env_camera a) = Int64.min_int)
  /\ ((-180 <= snd (env_camera a) <= 180)%Z
      \/ snd (env_camera a) = Int64.min_int).
Proof.
  intros H. apply decode_inr in H as (Hy & Hx & H). injection H as -> _.
  rewrite (run_camera _ _ _ _ ev Hy Hx). cbn [fst snd].
  split; [reflexivity|]. split; by apply camera_cell_bound.
Qed.

Lemma decoded_camera_witness :
  exists a flag,
    Example.decode Example.event = inr (a, flag)
    /\ env_camera a = (0, 13)%Z.
Proof.
  destruct (Example.decode Example.event) as [e|[a flag]] eqn:H.
  - vm_compute in H. discriminate H.
  - exists a, flag. split; [reflexivity|].
    apply (decoded_camera Example.KEYBOARD_BUTTON_MAPPING Example.IGNORED_KEYS
             Example.NOOP_ACTION Example.CAMERA_SCALER Example.event a flag H).
Defined.

(** X7: when a call returns for a non-zero mouse [dx] whose float product
    with the scaler is below one degree in size, [is_null_action] is
    false and yet the yaw cell of the camera is 0: the fraction is lost
    when the product is stored in the integer camera array. *)
Theorem small_yaw_is_lost
    (KEYBOARD_BUTTON_MAPPING : gmap string string) (IGNORED_KEYS : list string)
    (NOOP_ACTION : gmap string Z) (CAMERA_SCALER : Q) (ev : LowLevelAction)
    (a : EnvAction) (flag : bool) :
  ~ (dx (mouse ev) == 0)%Q ->
  (-(1) < Float64.mul (dx (mouse ev)) CAMERA_SCALER)%Q ->
  (Float64.mul (dx (mouse ev)) CAMERA_SCALER < 1)%Q ->
  annotation_action_to_env_action KEYBOARD_BUTTON_MAPPING IGNORED_KEYS
    NOOP_ACTION CAMERA_SCALER ev = inr (a, flag) ->
  snd (env_camera a) = 0%Z /\ flag = false.
Proof.
  intros Hnz Hlo Hhi H.
  apply decode_inr in H as (Hy & Hx & H). injection H as -> ->. split.
  - rewrite (run_camera _ _ _ _ ev Hy Hx). cbn [snd]. unfold camera_cell.
    rewrite (truncate_small _ Hlo Hhi). reflexivity.
  - rewrite (run_flag _ _ _ _ ev Hy Hx), (float_truthy_true _ Hnz). cbn.
    by rewrite !andb_false_r.
Qed.

Lemma small_yaw_is_lost_witness :
  let ev := mkLowLevelAction (mkKeyboard []) (mkMouse 3 0 []) in
  exists a,
    Example.decode ev = inr (a, false) /\ snd (env_camera a) = 0%Z.
Proof.
  eexists. split; [vm_compute; reflexivity|].
  refine (proj1 (small_yaw_is_lost Example.KEYBOARD_BUTTON_MAPPING
                   Example.IGNORED_KEYS Example.NOOP_ACTION
                   Example.CAMERA_SCALER
                   (mkLowLevelAction (mkKeyboard []) (mkMouse 3 0 []))
                   _ false _ _ _ _)).
  - cbn. intros H. discriminate H.
  - reflexivity.
  - reflexivity.
  - vm_compute. reflexivity.
Defined.

(** X8: the held keys count as a set of mapped keys: two events with the
    same mouse record that hold the same keys of the keyboard table, in any
    order, any number of times and among any other keys, are decoded to the
    same action and flag. *)
Theorem decode_keys_as_set
    (KEYBOARD_BUTTON_MAPPING : gmap string string) (IGNORED_KEYS : list string)
    (NOOP_ACTION : gmap string Z) (CAMERA_SCALER : Q)
    (ev ev' : LowLevelAction) :
  mouse ev = mouse ev' ->
  (forall k, is_Some (KEYBOARD_BUTTON_MAPPING !! k) ->
     (k ∈ keys (keyboard ev) <-> k ∈ keys (keyboard ev'))) ->
  annotation_action_to_env_action KEYBOARD_BUTTON_MAPPING IGNORED_KEYS
    NOOP_ACTION CAMERA_SCALER ev
  = annotation_action_to_env_action KEYBOARD_BUTTON_MAPPING IGNORED_KEYS
      NOOP_ACTION CAMERA_SCALER ev'.
Proof.
  intros Hm Hk.
  assert (Hsets : forall name,
            key_sets KEYBOARD_BUTTON_MAPPING (keys (keyboard ev)) name
            = key_sets KEYBOARD_BUTTON_MAPPING (keys (keyboard ev')) name).
  { intros name. apply eq_true_iff_eq. rewrite !key_sets_spec.
    split; intros (k & Hin & Hname); exists k; (split; [|exact Hname]);
      apply (Hk k); eauto. }
  assert (Hall : forallb (fun k => negb (bool_decide
                            (is_Some (KEYBOARD_BUTTON_MAPPING !! k))))
                   (keys (keyboard ev))
                 = forallb (fun k => negb (bool_decide
                              (is_Some (KEYBOARD_BUTTON_MAPPING !! k))))
                     (keys (keyboard ev'))).
  { apply eq_true_iff_eq. rewrite !forallb_forall.
    split; intros H k Hin; destruct (KEYBOARD_BUTTON_MAPPING !! k) eqn:E;
      try (rewrite bool_decide_eq_false_2 by apply is_Some_None; reflexivity).
    - specialize (H k (proj1 (list_elem_of_In _ _)
                         (proj2 (Hk k ltac:(rewrite E; eauto))
                            (proj2 (list_elem_of_In _ _) Hin)))).
      by rewrite E in H.
    - specialize (H k (proj1 (list_elem_of_In _ _)
                         (proj1 (Hk k ltac:(rewrite E; eauto))
                            (proj2 (list_elem_of_In _ _) Hin)))).
      by rewrite E in H. }
  destruct (camera_fits CAMERA_SCALER (dy (mouse ev))
            && camera_fits CAMERA_SCALER (dx (mouse ev))) eqn:Hfit.
  - apply andb_true_iff in Hfit as [Hy Hx].
    pose proof Hy as Hy'. pose proof Hx as Hx'. rewrite Hm in Hy', Hx'.
    rewrite (decode_fits _ _ _ _ ev Hy Hx), (decode_fits _ _ _ _ ev' Hy' Hx').
    f_equal. f_equal.
    + pose proof (run_camera KEYBOARD_BUTTON_MAPPING IGNORED_KEYS NOOP_ACTION
                    CAMERA_SCALER ev Hy Hx) as Hc.
      pose proof (run_camera KEYBOARD_BUTTON_MAPPING IGNORED_KEYS NOOP_ACTION
                    CAMERA_SCALER ev' Hy' Hx') as Hc'.
      pose proof (fun name => run_buttons KEYBOARD_BUTTON_MAPPING IGNORED_KEYS
                    NOOP_ACTION CAMERA_SCALER ev name Hy Hx) as Hb.
      pose proof (fun name => run_buttons KEYBOARD_BUTTON_MAPPING IGNORED_KEYS
                    NOOP_ACTION CAMERA_SCALER ev' name Hy' Hx') as Hb'.
      destruct (env_action (decoder_run _ _ _ _ ev)) as [b c].
      destruct (env_action (decoder_run _ _ _ _ ev')) as [b' c'].
      cbn in Hc, Hc', Hb, Hb'. f_equal.
      * apply map_eq. intros name.
        rewrite Hb, Hb', Hsets, Hm. reflexivity.
      * rewrite Hc, Hc', Hm. reflexivity.
    + rewrite (run_flag _ _ _ _ ev Hy Hx), (run_flag _ _ _ _ ev' Hy' Hx').
      rewrite Hall, Hm. reflexivity.
  - pose proof Hfit as Hfit'. rewrite Hm in Hfit'.
    rewrite (decode_overflow _ _ _ _ ev Hfit).
    rewrite (decode_overflow _ _ _ _ ev' Hfit'). reflexivity.
Qed.

Lemma decode_keys_as_set_witness :
  Example.decode
    (mkLowLevelAction (mkKeyboard ["key.keyboard.w"; "f3"; "key.keyboard.w"])
       (mkMouse 0 0 []))
  = Example.decode
      (mkLowLevelAction (mkKeyboard ["key.keyboard.w"]) (mkMouse 0 0 [])).
Proof.
  apply (decode_keys_as_set Example.KEYBOARD_BUTTON_MAPPING Example.IGNORED_KEYS
           Example.NOOP_ACTION Example.CAMERA_SCALER).
  - reflexivity.
  - intros k Hk. cbn [keys keyboard].
    unfold Example.KEYBOARD_BUTTON_MAPPING, Example.forward_key in Hk.
    apply lookup_singleton_is_Some in Hk. subst k.
    split; intros _; apply list_elem_of_here.
Defined.

(** X9: the diagnostics a call prints are, in the order of the held keys,
    one line ["<key> not in the mapping"] for every held key that is neither
    in the keyboard table nor in the ignored keys, and nothing else. *)
Theorem decoder_diagnostics
    (KEYBOARD_BUTTON_MAPPING : gmap string string) (IGNORED_KEYS : list string)
    (NOOP_ACTION : gmap string Z) (CAMERA_SCALER : Q) (ev : LowLevelAction) :
  stdout (decoder_run KEYBOARD_BUTTON_MAPPING IGNORED_KEYS NOOP_ACTION
            CAMERA_SCALER ev)
  = map (fun k => String.append k " not in the mapping")
      (List.filter (unknown_key KEYBOARD_BUTTON_MAPPING IGNORED_KEYS)
         (keys (keyboard ev))).
Proof.
  unfold decoder_run.
  rewrite unless_raised_stdout by apply mouse_buttons_step_stdout.
  rewrite unless_raised_stdout by reflexivity.
  rewrite unless_raised_stdout by apply yaw_step_stdout.
  rewrite pitch_step_stdout, keys_loop_stdout. reflexivity.
Qed.

(** * Further properties of the action transformer *)

Section StackMore.
Lemma np_stack_last_inr (cols : list (list Z)) (a : array2) :
  np_stack_last cols = inr a ->
  cols <> [] /\ Forall (fun c => length c = fst (shape2 a)) cols
  /\ a = mkArray2 (fst (shape2 a), length cols)
           (map (fun b => map (fun c => nth b c 0%Z) cols)
              (seq 0 (fst (shape2 a)))).
Proof.
  unfold np_stack_last. destruct cols as [|c0 cols]; [discriminate|].
  destruct (forallb _ _) eqn:Hb; [|discriminate].
  intros H. injection H as <-. cbn [shape2 fst].
  split; [discriminate|]. split; [|reflexivity].
  apply Forall_forall. intros c Hc. rewrite forallb_forall in Hb.
  apply Nat.eqb_eq, Hb. by apply list_elem_of_In.
Qed.

Lemma np_stack_last_inl (cols : list (list Z)) (e : exn) :
  np_stack_last cols = inl e -> exists msg, e = ValueError msg.
Proof.
  unfold np_stack_last. destruct cols as [|c0 cols].
  - intros H. injection H as <-. eauto.
  - destruct (forallb _ _); [discriminate|].
    intros H. injection H as <-. eauto.
Qed.

Lemma map_nth_seq_gen {A : Type} (d : A) (l : list A) :
  map (fun b => nth b l d) (seq 0 (length l)) = l.
Proof.
  induction l as [|x l IH]; [reflexivity|].
  cbn [length seq map nth]. f_equal.
  rewrite <- seq_shift, map_map. exact IH.
Qed.

Lemma nth_column (b i : nat) (rs : list (list Z)) (sh : nat * nat) :
  nth b (column i (mkArray2 sh rs)) 0%Z = nth i (nth b rs []) 0%Z.
Proof.
  unfold column. cbn [rows].
  revert b. induction rs as [|r rs IH]; intros [|b]; cbn; try done.
  - by destruct i.
  - by destruct i.
Qed.
End StackMore.

Section ButtonsDictMore.
Variable f : nat -> list Z.

Lemma fill_is_Some (names : list string) (s : nat)
    (m0 : gmap string (list Z)) (k : string) :
  is_Some (fold_left (fun (out : gmap string (list Z)) (ik : nat * string) =>
                        <[snd ik := f (fst ik)]> out)
             (combine (seq s (length names)) names) m0 !! k)
  <-> k ∈ names \/ is_Some (m0 !! k).
Proof.
  revert s m0. induction names as [|n ns IH]; intros s m0.
  - cbn. rewrite elem_of_nil. tauto.
  - cbn [length seq combine fold_left fst snd].
    rewrite IH, lookup_insert_is_Some, elem_of_cons.
    destruct (decide (n = k)) as [->|Hne]; [tauto|].
    split; [intros [?|[?|[? ?]]]|intros [[?|?]|?]]; auto; congruence.
Qed.
End ButtonsDictMore.

(** X10: [env2policy] returns a value exactly when the vocabulary is not
    empty and the columns it stacks (for each vocabulary name the button
    array of the action, or [nbatch] zeros when the action has no such key)
    all have one length; otherwise it raises the [ValueError] of
    [np.stack].  The length need not be the batch size of the camera. *)
Theorem env2policy_succeeds_iff (Buttons_ALL : list string)
    (self : ActionTransformer) (acs : EnvActionOf (list Z) (list (R * R))) :
  let dummy := repeat 0%Z (length (env_camera acs)) in
  ((exists p, env2policy Buttons_ALL self acs = inr p)
   <-> Buttons_ALL <> []
       /\ exists n, Forall (fun k => length (default dummy (env_buttons acs !! k)) = n)
                      Buttons_ALL)
  /\ (forall e, env2policy Buttons_ALL self acs = inl e ->
        exists msg, e = ValueError msg).
Proof.
  cbn zeta. unfold env2policy.
  set (cols := map _ Buttons_ALL).
  split; [split|].
  - intros [p Hp].
    destruct (np_stack_last cols) as [e|a] eqn:Hs; [discriminate|].
    apply np_stack_last_inr in Hs as (Hne & Hall & _).
    split.
    + intros ->. by apply Hne.
    + exists (fst (shape2 a)). apply Forall_forall. intros k Hk.
      rewrite Forall_forall in Hall. apply Hall.
      apply list_elem_of_In. unfold cols. apply in_map_iff.
      exists k. split; [reflexivity|by apply list_elem_of_In].
  - intros [Hne [n Hall]].
    assert (Hc : Forall (fun c => length c = n) cols).
    { apply Forall_forall. intros c Hc.
      apply list_elem_of_In, in_map_iff in Hc as (k & <- & Hk).
      rewrite Forall_forall in Hall. apply Hall. by apply list_elem_of_In. }
    assert (Hcne : cols <> []).
    { unfold cols. destruct Buttons_ALL; [done|discriminate]. }
    rewrite (np_stack_last_ok cols n Hcne Hc). eexists. reflexivity.
  - intros e He.
    destruct (np_stack_last cols) as [e'|a] eqn:Hs; [|discriminate].
    injection He as <-. by apply np_stack_last_inl in Hs.
Qed.

(** X11: what [env2policy] returns: a button matrix with one column per
    vocabulary name, in vocabulary order, the column of a name being the
    button array the action has under it, or zeros when it has none (keys
    outside the vocabulary are not read); and the camera bins of the camera
    rows. *)
Theorem env2policy_columns (Buttons_ALL : list string)
    (self : ActionTransformer) (acs : EnvActionOf (list Z) (list (R * R)))
    (p : PolicyActionOf array2 (list (Z * Z))) :
  env2policy Buttons_ALL self acs = inr p ->
  snd (shape2 (policy_buttons p)) = length Buttons_ALL
  /\ length (rows (policy_buttons p)) = fst (shape2 (policy_buttons p))
  /\ (forall i name, Buttons_ALL !! i = Some name ->
        column i (policy_buttons p)
        = default (repeat 0%Z (length (env_camera acs)))
            (env_buttons acs !! name))
  /\ policy_camera p = map (discretize_camera self) (env_camera acs).
Proof.
  unfold env2policy. set (cols := map _ Buttons_ALL).
  destruct (np_stack_last cols) as [e|a] eqn:Hs; [discriminate|].
  intros H. injection H as <-. cbn [policy_buttons policy_camera].
  apply np_stack_last_inr in Hs as (Hne & Hall & Ha).
  assert (Hlen : length cols = length Buttons_ALL) by apply length_map.
  split; [rewrite Ha; cbn; exact Hlen|].
  split; [rewrite Ha; cbn; by rewrite length_map, length_seq|].
  split; [|reflexivity].
  intros i name Hi. rewrite Ha.
  apply column_stacked; [exact Hall|].
  unfold cols. change (map ?g Buttons_ALL) with (g <$> Buttons_ALL).
  rewrite list_lookup_fmap, Hi. reflexivity.
Qed.

Lemma env2policy_columns_witness :
  exists p,
    env2policy Example.Buttons_ALL FidelityExample.transformer
      FidelityWitness.action = inr p
    /\ column 0 (policy_buttons p) = [1%Z].
Proof.
  destruct (env2policy Example.Buttons_ALL FidelityExample.transformer
              FidelityWitness.action) as [e|p] eqn:Hp.
  - exfalso. unfold env2policy in Hp. cbn in Hp. discriminate Hp.
  - exists p. split; [reflexivity|].
    destruct (env2policy_columns _ _ _ _ Hp) as (_ & _ & Hc & _).
    rewrite (Hc 0 "forward" eq_refl). reflexivity.
Defined.

(** X12: [policy2env] raises [AssertionError] when the last axis of the
    button matrix is not as long as the vocabulary; otherwise, under the
    mu-law scheme with [mu = 0], it raises [ZeroDivisionError]; otherwise
    it returns an action whose button keys are exactly the vocabulary
    names, with as many camera rows as the policy action has; for a
    vocabulary without duplicates the entry of the i-th name is column i
    of the matrix. *)
Theorem policy2env_keys (Buttons_ALL : list string) (self : ActionTransformer)
    (p : PolicyActionOf array2 (list (Z * Z))) :
  (snd (shape2 (policy_buttons p)) <> length Buttons_ALL ->
     policy2env Buttons_ALL self p = inl (AssertionError "Mismatched actions"))
  /\ (snd (shape2 (policy_buttons p)) = length Buttons_ALL ->
      quantization_scheme (quantizer self) = QuantizationScheme.MU_LAW ->
      mu (quantizer self) = 0%R ->
      policy2env Buttons_ALL self p = inl ZeroDivisionError)
  /\ (snd (shape2 (policy_buttons p)) = length Buttons_ALL ->
      (quantization_scheme (quantizer self) = QuantizationScheme.MU_LAW ->
         mu (quantizer self) <> 0%R) ->
      exists a,
        policy2env Buttons_ALL self p = inr a
        /\ (forall name, is_Some (env_buttons a !! name) <-> name ∈ Buttons_ALL)
        /\ length (env_camera a) = length (policy_camera p)
        /\ (NoDup Buttons_ALL ->
            forall i name, Buttons_ALL !! i = Some name ->
              env_buttons a !! name = Some (column i (policy_buttons p)))).
Proof.
  unfold policy2env, numpy_to_dict, undiscretize_camera.
  split; [|split].
  - intros Hne. apply Nat.eqb_neq in Hne. rewrite Hne. reflexivity.
  - intros He Hs Hmu. rewrite He, Nat.eqb_refl.
    rewrite (mu_division_zero _ Hs Hmu). reflexivity.
  - intros He Hmu. rewrite He, Nat.eqb_refl.
    assert (Hd : mu_division (quantizer self) = inr tt).
    { unfold mu_division.
      destruct (String.eqb_spec (quantization_scheme (quantizer self))
                  QuantizationScheme.MU_LAW) as [Hs|Hs]; [|reflexivity].
      destruct (Req_dec_T (mu (quantizer self)) 0) as [E|E]; [|reflexivity].
      by destruct (Hmu Hs). }
    rewrite Hd. eexists. split; [reflexivity|].
    cbn [env_buttons env_camera]. unfold buttons_dict.
    split; [|split].
    + intros name.
      rewrite (fill_is_Some (fun i => column i (policy_buttons p))).
      rewrite lookup_empty, is_Some_alt. tauto.
    + apply length_map.
    + intros Hnd i name Hi.
      rewrite (fill_lookup_in (fun i => column i (policy_buttons p)) _ 0 i)
        by assumption.
      reflexivity.
Qed.

Lemma policy2env_keys_witness :
  policy2env Example.Buttons_ALL FidelityExample.transformer
    (mkPolicyAction (mkArray2 (1, 2) [[1%Z; 0%Z]]) [(5, 5)%Z])
  = inl (AssertionError "Mismatched actions").
Proof.
  apply (proj1 (policy2env_keys Example.Buttons_ALL FidelityExample.transformer
                  (mkPolicyAction (mkArray2 (1, 2) [[1%Z; 0%Z]]) [(5, 5)%Z]))).
  cbn. discriminate.
Defined.

Section PolicyRoundTrip.
Variable Buttons_ALL : list string.
Variable self : ActionTransformer.

Lemma columns_of_dict (b : array2) :
  NoDup Buttons_ALL ->
  forall d,
    map (fun k => default d (buttons_dict Buttons_ALL b !! k)) Buttons_ALL
    = map (fun i => column i b) (seq 0 (length Buttons_ALL)).
Proof.
  intros Hnd d.
  change (map ?g Buttons_ALL) with (g <$> Buttons_ALL).
  change (map ?g (seq 0 ?n)) with (g <$> seq 0 n).
  apply list_eq. intros j. rewrite !list_lookup_fmap.
  destruct (Buttons_ALL !! j) as [k|] eqn:Hj.
  - rewrite lookup_seq_lt by (eapply lookup_lt_Some; exact Hj).
    cbn [fmap option_fmap option_map]. unfold buttons_dict.
    rewrite (fill_lookup_in (fun i => column i b) _ 0 j _ k Hnd Hj).
    reflexivity.
  - rewrite lookup_seq_ge by (by apply lookup_ge_None). reflexivity.
Qed.

Lemma rows_of_columns (rs : list (list Z)) (w : nat) (sh : nat * nat) :
  Forall (fun r => length r = w) rs ->
  map (fun b => map (fun c => nth b c 0%Z)
                  (map (fun i => column i (mkArray2 sh rs)) (seq 0 w)))
    (seq 0 (length rs))
  = rs.
Proof.
  intros Hw.
  rewrite <- (map_nth_seq_gen [] rs) at 2.
  apply map_ext_in. intros b Hb. apply in_seq in Hb.
  rewrite map_map.
  assert (Hr : length (nth b rs []) = w).
  { rewrite Forall_forall in Hw. apply Hw, list_elem_of_In, nth_In. lia. }
  rewrite <- Hr.
  etransitivity; [|apply (map_nth_seq (nth b rs []))].
  apply map_ext. intros i. apply nth_column.
Qed.
End PolicyRoundTrip.

Lemma camera_bins_fixed (self : ActionTransformer) (cam : list (Z * Z)) :
  sizes_in_range (quantizer self) ->
  mu_in_range (quantizer self) ->
  Forall (fun pq => bin_in_range (quantizer self) (fst pq)
                    /\ bin_in_range (quantizer self) (snd pq)) cam ->
  map (discretize_camera self)
    (map (undiscretize_xy_value (quantizer self)) cam) = cam.
Proof.
  intros Hsz Hmu Hall. induction Hall as [|[b1 b2] cam [H1 H2] _ IH];
    [reflexivity|].
  cbn [map]. rewrite IH. f_equal.
  unfold discretize_camera, discretize_xy, undiscretize_xy_value.
  cbn [fst snd] in *.
  rewrite !bin_fixed by assumption. reflexivity.
Qed.

(** X13, the float operations taken as those of the real numbers: policy
    action to environment action and back is the identity: for a
    vocabulary without duplicates and not empty, a button matrix whose
    rows are as long as the vocabulary, [maxval] and [binsize] positive and
    below [2 ^ 31] (and [mu >= 2 ^ -10] under the mu-law scheme) and
    camera bins between 0 and [2 * maxval / binsize], [policy2env] returns
    an action that [env2policy] maps back to the policy action it came
    from. *)
Theorem policy2env_env2policy (Buttons_ALL : list string)
    (self : ActionTransformer) (p : PolicyActionOf array2 (list (Z * Z))) :
  Buttons_ALL <> [] ->
  NoDup Buttons_ALL ->
  shape2 (policy_buttons p)
  = (length (rows (policy_buttons p)), length Buttons_ALL) ->
  Forall (fun r => length r = length Buttons_ALL) (rows (policy_buttons p)) ->
  sizes_in_range (quantizer self) ->
  mu_in_range (quantizer self) ->
  Forall (fun pq => bin_in_range (quantizer self) (fst pq)
                    /\ bin_in_range (quantizer self) (snd pq))
    (policy_camera p) ->
  exists a,
    policy2env Buttons_ALL self p = inr a
    /\ env2policy Buttons_ALL self a = inr p.
Proof.
  intros Hne Hnd Hsh Hrows HB Hmu Hcam.
  destruct p as [[sh rs] cam]. cbn [policy_buttons policy_camera rows shape2] in *.
  subst sh.
  unfold policy2env, numpy_to_dict, undiscretize_camera.
  cbn [policy_buttons policy_camera shape2 snd]. rewrite Nat.eqb_refl.
  rewrite (mu_division_in_range _ Hmu).
  eexists. split; [reflexivity|].
  unfold env2policy. cbn [env_buttons env_camera].
  rewrite (columns_of_dict Buttons_ALL _ Hnd).
  set (b := mkArray2 (length rs, length Buttons_ALL) rs).
  set (cols := map (fun i => column i b) (seq 0 (length Buttons_ALL))).
  assert (Hcne : cols <> []).
  { unfold cols. destruct Buttons_ALL; [done|discriminate]. }
  assert (Hc : Forall (fun c => length c = length rs) cols).
  { apply Forall_forall. intros c Hin.
    apply list_elem_of_In, in_map_iff in Hin as (i & <- & _).
    unfold column. apply length_map. }
  rewrite (np_stack_last_ok cols (length rs) Hcne Hc).
  cbn. f_equal. f_equal.
  - unfold b. f_equal.
    + f_equal. unfold cols. by rewrite length_map, length_seq.
    + unfold cols. apply rows_of_columns. exact Hrows.
  - by apply camera_bins_fixed.
Qed.

Lemma policy2env_env2policy_witness :
  let p := mkPolicyAction (mkArray2 (2, 3)%nat [[1; 0; 0]%Z; [0; 1; 0]%Z])
             [(5, 5)%Z; (0, 10)%Z] in
  exists a,
    policy2env Example.Buttons_ALL FidelityExample.transformer p = inr a
    /\ env2policy Example.Buttons_ALL FidelityExample.transformer a = inr p.
Proof.
  apply (policy2env_env2policy Example.Buttons_ALL FidelityExample.transformer
           (mkPolicyAction (mkArray2 (2, 3)%nat [[1; 0; 0]%Z; [0; 1; 0]%Z])
              [(5, 5)%Z; (0, 10)%Z])).
  - discriminate.
  - apply (bool_decide_unpack _). reflexivity.
  - reflexivity.
  - repeat constructor.
  - split; cbn; lia.
  - intros H. discriminate H.
  - unfold bin_in_range. cbn.
    repeat (apply List.Forall_cons; [cbn; lia|]). apply List.Forall_nil.
Defined.

(** * The path of one event through [to_policy_action] *)

Section PipelineFacts.
Context {A : Type}.
Variable KEYBOARD_BUTTON_MAPPING : gmap string string.
Variable IGNORED_KEYS : list string.
Variable NOOP_ACTION : gmap string Z.
Variable CAMERA_SCALER : Q.
Variable Buttons_ALL : list string.
Variable self : ActionTransformer.

Abbreviation decoded ev :=
  (env_action (decoder_run KEYBOARD_BUTTON_MAPPING IGNORED_KEYS NOOP_ACTION
                 CAMERA_SCALER ev)).

Lemma decoder_entry_is_Some (ev : LowLevelAction) (name : string) :
  camera_fits CAMERA_SCALER (dy (mouse ev)) = true ->
  camera_fits CAMERA_SCALER (dx (mouse ev)) = true ->
  bool_decide (is_Some (env_buttons (decoded ev) !! name))
  = key_sets KEYBOARD_BUTTON_MAPPING (keys (keyboard ev)) name
    || mouse_sets (mouse ev) name
    || bool_decide (is_Some (NOOP_ACTION !! name)).
Proof.
  intros Hy Hx. rewrite (run_buttons _ _ _ _ ev name Hy Hx).
  destruct (key_sets _ _ _ || mouse_sets _ _); cbn [orb]; [|reflexivity].
  apply bool_decide_eq_true_2. eauto.
Qed.

(** [to_policy_action] after the decoder has returned. *)
Lemma to_policy_action_fits
    (from_factored : PolicyActionOf ndarray ndarray -> result A)
    (ev : LowLevelAction) :
  camera_fits CAMERA_SCALER (dy (mouse ev)) = true ->
  camera_fits CAMERA_SCALER (dx (mouse ev)) = true ->
  to_policy_action Buttons_ALL self KEYBOARD_BUTTON_MAPPING IGNORED_KEYS
    NOOP_ACTION CAMERA_SCALER from_factored ev
  = (minerl_action ← env2policy_unbatched Buttons_ALL self (decoded ev);
     from_factored (with_batch_axis minerl_action)).
Proof.
  intros Hy Hx. unfold to_policy_action.
  rewrite (decode_fits _ _ _ _ ev Hy Hx). reflexivity.
Qed.
End PipelineFacts.

(** X14: [to_policy_action] on an event whose camera stores fit [int64],
    when the vocabulary is not empty and the no-op action has every
    vocabulary button: the mapper's [from_factored] is called on a batch of
    one: a button array of shape (1, n) with, in vocabulary order, 1 for a
    button set by a held mapped key or by mouse button 0 (attack) or 2
    (use) and the no-op value otherwise, and a camera array of shape (1, 2)
    with the bins of the decoded pitch and yaw. *)
Theorem to_policy_action_batch_of_one {A : Type}
    (KEYBOARD_BUTTON_MAPPING : gmap string string) (IGNORED_KEYS : list string)
    (NOOP_ACTION : gmap string Z) (CAMERA_SCALER : Q)
    (Buttons_ALL : list string) (self : ActionTransformer)
    (from_factored : PolicyActionOf ndarray ndarray -> result A)
    (ev : LowLevelAction) :
  camera_fits CAMERA_SCALER (dy (mouse ev)) = true ->
  camera_fits CAMERA_SCALER (dx (mouse ev)) = true ->
  Buttons_ALL <> [] ->
  (forall name, name ∈ Buttons_ALL -> is_Some (NOOP_ACTION !! name)) ->
  to_policy_action Buttons_ALL self KEYBOARD_BUTTON_MAPPING IGNORED_KEYS
    NOOP_ACTION CAMERA_SCALER from_factored ev
  = from_factored
      (mkPolicyAction
         (mkNdarray [1; length Buttons_ALL]
            (map (fun name =>
                    if key_sets KEYBOARD_BUTTON_MAPPING (keys (keyboard ev)) name
                       || mouse_sets (mouse ev) name
                    then 1%Z
                    else default 0%Z (NOOP_ACTION !! name))
               Buttons_ALL))
         (mkNdarray [1; 2]
            [discretize (quantizer self)
               (IZR (camera_cell CAMERA_SCALER (dy (mouse ev))));
             discretize (quantizer self)
               (IZR (camera_cell CAMERA_SCALER (dx (mouse ev))))])).
Proof.
  intros Hy Hx Hne Hnoop.
  rewrite (to_policy_action_fits _ _ _ _ _ _ _ ev Hy Hx).
  unfold env2policy_unbatched.
  rewrite (run_camera _ _ _ _ ev Hy Hx). cbn [fst snd].
  set (entries := map _ Buttons_ALL).
  assert (Hall : forallb (fun e : option Z => bool_decide (is_Some e)) entries
                 = true).
  { apply forallb_forall. intros e He.
    apply in_map_iff in He as (name & <- & Hin).
    rewrite (decoder_entry_is_Some _ _ _ _ ev name Hy Hx).
    rewrite (bool_decide_eq_true_2 _ (Hnoop name (proj2 (list_elem_of_In _ _) Hin))).
    apply orb_true_r. }
  assert (Hlen : length entries = length Buttons_ALL) by apply length_map.
  destruct entries as [|e es] eqn:He.
  { destruct Buttons_ALL; [done|discriminate]. }
  rewrite Hall. cbn [mbind result_bind mret result_ret].
  f_equal. unfold with_batch_axis. cbn [policy_camera shape].
  change (length [2%nat] =? 1) with true. cbv iota.
  unfold add_batch_axis. cbn [policy_camera policy_buttons shape data].
  unfold discretize_camera, discretize_xy. cbn [fst snd].
  f_equal. rewrite Hlen. f_equal.
  rewrite <- He. unfold entries. rewrite map_map.
  apply map_ext. intros name. rewrite (run_buttons _ _ _ _ ev name Hy Hx).
  destruct (key_sets _ _ _ || mouse_sets _ _); reflexivity.
Qed.

Lemma to_policy_action_batch_of_one_witness :
  to_policy_action Example.Buttons_ALL FidelityExample.transformer
    Example.KEYBOARD_BUTTON_MAPPING Example.IGNORED_KEYS Example.NOOP_ACTION
    Example.CAMERA_SCALER (fun p => inr p)
    (mkLowLevelAction (mkKeyboard ["key.keyboard.w"]) (mkMouse 0 0 [0%Z]))
  = inr (mkPolicyAction
           (mkNdarray [1; 3]%nat [1; 1; 0]%Z)
           (mkNdarray [1; 2]%nat
              [discretize Example.quantizer (IZR 0);
               discretize Example.quantizer (IZR 0)])).
Proof.
  apply (to_policy_action_batch_of_one Example.KEYBOARD_BUTTON_MAPPING
           Example.IGNORED_KEYS Example.NOOP_ACTION Example.CAMERA_SCALER
           Example.Buttons_ALL FidelityExample.transformer (fun p => inr p)
           (mkLowLevelAction (mkKeyboard ["key.keyboard.w"])
              (mkMouse 0 0 [0%Z]))).
  - reflexivity.
  - reflexivity.
  - discriminate.
  - intros name Hin. unfold Example.Buttons_ALL in Hin.
    repeat (apply elem_of_cons in Hin as [-> | Hin]); try (by eexists).
    by apply elem_of_nil in Hin.
Defined.



(** * Further properties of the batcher *)

Section SingletonFacts.
Variable th_bound : bool.

Lemma mapM_result_fixed {A : Type} (f : A -> result A) (l : list A) :
  Forall (fun a => f a = inr a) l -> mapM_result f l = inr l.
Proof.
  intros H. apply mapM_result_inr.
  induction H; constructor; assumption.
Qed.

Lemma mapMi_result_fixed {A : Type} (f : nat -> A -> result A) (l : list A)
    (s : nat) :
  Forall (fun a => forall i, f i a = inr a) l -> mapMi_result f s l = inr l.
Proof.
  intros H. revert s. induction H as [|a l Ha _ IH]; intros s; [reflexivity|].
  cbn [mapMi_result]. rewrite Ha. cbn [mbind result_bind].
  rewrite IH. reflexivity.
Qed.

Lemma Forall2_diag {A : Type} (R : A -> A -> Prop) (l : list A) :
  Forall2 R l l -> Forall (fun x => R x x) l.
Proof.
  induction l as [|x l IH]; intros H; [constructor|].
  inversion H; subst. constructor; auto.
Qed.

Lemma batch_from_single (o : obj) :
  same_structure th_bound o o ->
  has_unsupported o = false ->
  batch_from th_bound false o [] = inr o.
Proof.
  induction o as [items IH|elems IH|ty fields IH|elems IH| |lib a|s|n]
    using obj_rect_nested; intros Hs Hu; cbn [has_unsupported] in Hu;
    try discriminate Hu.
  - inversion Hs as [? ? Hnd Hall| | | | | |? ? Hx]; subst; [|destruct Hx].
    cbn [batch_from].
    rewrite (mapM_result_fixed _ items); [reflexivity|].
    rewrite Forall_forall in IH. rewrite Forall_forall in Hall. apply Forall_forall. intros [k v] Hin.
    destruct (Hall _ Hin) as (v' & Hv' & Hvv). cbn [fst snd] in *.
    rewrite (assoc_NoDup k items v Hnd (proj1 (list_elem_of_In _ _) Hin)) in Hv'.
    injection Hv' as <-.
    cbn [fst snd mapM_result mbind result_bind mret result_ret].
    pose proof (IH _ Hin) as IHv. cbn [snd] in IHv.
    rewrite (IHv Hvv); [reflexivity|].
    apply not_true_is_false. intros Hv. apply not_true_iff_false in Hu.
    apply Hu, existsb_exists. exists (k, v).
    split; [by apply list_elem_of_In|exact Hv].
  - inversion Hs as [|? ? Hall| | | | |? ? Hx]; subst; [|destruct Hx].
    cbn [batch_from].
    rewrite (mapMi_result_fixed _ elems); [reflexivity|].
    apply Forall2_diag in Hall.
    rewrite Forall_forall in IH. rewrite Forall_forall in Hall. apply Forall_forall. intros v Hin i.
    cbn [fst snd mapM_result mbind result_bind mret result_ret].
    apply (IH _ Hin (Hall _ Hin)).
    apply not_true_is_false. intros Hv. apply not_true_iff_false in Hu.
    apply Hu, existsb_exists. exists v.
    split; [by apply list_elem_of_In|exact Hv].
  - inversion Hs as [| |? ? ? Hnd Hk Hall'| | | |? ? Hx]; subst; [|destruct Hx].
    assert (Hall := Forall2_diag _ _ Hall'). clear Hall'.
    cbn [batch_from].
    rewrite (mapM_result_fixed _ fields); [reflexivity|].
    rewrite Forall_forall in IH. rewrite Forall_forall in Hall. apply Forall_forall. intros [k v] Hin.
    cbn [fst snd] in *.
    cbn [fst snd mapM_result mbind result_bind mret result_ret].
    pose proof (IH _ Hin) as IHv. cbn [snd] in IHv.
    rewrite IHv; [reflexivity| |].
    + apply Hall. apply list_elem_of_In, in_map_iff. exists (k, v).
      split; [reflexivity|by apply list_elem_of_In].
    + apply not_true_is_false. intros Hv. apply not_true_iff_false in Hu.
      apply Hu, existsb_exists. exists (k, v).
      split; [by apply list_elem_of_In|exact Hv].
  - inversion Hs as [| | |? ? Hall| | |? ? Hx]; subst; [|destruct Hx].
    cbn [batch_from].
    rewrite (mapMi_result_fixed _ elems); [reflexivity|].
    apply Forall2_diag in Hall.
    rewrite Forall_forall in IH. rewrite Forall_forall in Hall. apply Forall_forall. intros v Hin i.
    cbn [fst snd mapM_result mbind result_bind mret result_ret].
    apply (IH _ Hin (Hall _ Hin)).
    apply not_true_is_false. intros Hv. apply not_true_iff_false in Hu.
    apply Hu, existsb_exists. exists v.
    split; [by apply list_elem_of_In|exact Hv].
  - reflexivity.
  - inversion Hs as [| | | | |? ? ? m k inner Hth Ha Hb|? ? Hx]; subst;
      [|destruct Hx].
    cbn [batch_from]. rewrite batch_leaf_array by exact Hth.
    change [OArray lib a] with (map (OArray lib) [a]).
    rewrite (concat_axis0_ok lib a [] m inner Ha) by constructor.
    destruct a as [sh d]. cbn in *. subst sh.
    cbn. rewrite Nat.add_0_r, app_nil_r. reflexivity.
Qed.
End SingletonFacts.

(** X16: batching a list of one record returns that record: for a record
    with distinct keys and field names, whose leaves are arrays with a
    batch axis (tensors only if [th] is bound), [batch([o])] is [o], with
    or without the shape check. *)
Theorem batch_singleton (th_bound : bool) (o : obj) (check_shape : bool) :
  same_structure th_bound o o ->
  has_unsupported o = false ->
  batch_recursive_objects th_bound [o] check_shape = inr o.
Proof.
  intros Hs Hu. cbn [batch_recursive_objects].
  destruct check_shape; [|by apply batch_from_single].
  destruct (is_leaf o) eqn:Hl.
  - destruct o; try discriminate Hl; try discriminate Hu.
    inversion Hs as [| | | | |? ? ? m k inner Hth Ha Hb|? ? Hx]; subst;
      [|destruct Hx].
    cbn [batch_from].
    change (@nil obj) with (map (OArray lib) []).
    rewrite (batch_leaf_checked th_bound lib a [] Hth). cbn [forallb].
    rewrite (concat_axis0_ok lib a [] m inner Ha) by constructor.
    destruct a as [sh d]. cbn in *. subst sh.
    cbn. rewrite Nat.add_0_r, app_nil_r. reflexivity.
  - rewrite batch_from_check_shape_container by exact Hl.
    by apply batch_from_single.
Qed.

Lemma batch_singleton_witness :
  let o := ODict [("a", Docstring.a); ("b", Docstring.b);
                  ("t", OTuple [Docstring.a; Docstring.b]); ("n", ONone)] in
  batch_recursive_objects false [o] true = inr o.
Proof.
  apply (batch_singleton false
           (ODict [("a", Docstring.a); ("b", Docstring.b);
                   ("t", OTuple [Docstring.a; Docstring.b]); ("n", ONone)])
           true).
  - exact (List.Forall_inv docstring_same_structure).
  - reflexivity.
Defined.

Lemma Forall2_In_left {A B : Type} (R : A -> B -> Prop) (l : list A)
    (l' : list B) (a : A) :
  Forall2 R l l' -> In a l -> exists b, R a b.
Proof.
  induction 1 as [|x y l l' Hxy _ IH]; cbn; [done|].
  intros [<-|Hin]; eauto.
Qed.

Lemma getitem_key_inr (k : string) (d v : obj) :
  getitem_key k d = inr v -> exists its, d = ODict its /\ assoc k its = Some v.
Proof.
  destruct d as [its| | | | | | |]; try discriminate. cbn.
  destruct (assoc k its) as [v'|] eqn:E; [|discriminate].
  intros H. injection H as <-. eauto.
Qed.

(** X17: what a successful call on records whose first one is a dict
    implies: the result is a dict with the keys of the first record, in
    its order; and if the first record has a key at all, every later
    record is a dict that holds every key of the first one (keys that only
    later records have are not read). *)
Theorem batch_dict_keys (th_bound : bool) (items : list (string * obj))
    (rest : list obj) (check_shape : bool) (out : obj) :
  batch_recursive_objects th_bound (ODict items :: rest) check_shape = inr out ->
  (exists items', out = ODict items' /\ map fst items' = map fst items)
  /\ (items <> [] ->
      Forall (fun d => exists its,
                d = ODict its
                /\ forall k, k ∈ map fst items -> is_Some (assoc k its))
        rest).
Proof.
  cbn [batch_recursive_objects batch_from].
  destruct (mapM_result _ items) as [e|items'] eqn:Hm; [discriminate|].
  cbn [mbind result_bind mret result_ret]. intros H. injection H as <-.
  apply mapM_result_inr in Hm.
  assert (Hkeys : forall kv, kv ∈ items ->
            Forall (fun d => exists v, getitem_key (fst kv) d = inr v) rest).
  { intros kv Hin.
    apply list_elem_of_In in Hin.
    destruct (Forall2_In_left _ _ _ _ Hm Hin) as (kb & Hf).
    destruct (mapM_result (getitem_key (fst kv)) rest) as [e|vs] eqn:Hvs;
      [discriminate|].
    apply mapM_result_inr in Hvs. clear -Hvs.
    induction Hvs; constructor; eauto. }
  split.
  - exists items'. split; [reflexivity|].
    clear Hkeys. induction Hm as [|kv kb items items' Hf _ IH]; [reflexivity|].
    cbn [map]. rewrite IH. f_equal.
    destruct (mapM_result (getitem_key (fst kv)) rest); [discriminate|].
    cbn [mbind result_bind] in Hf.
    destruct (batch_from th_bound false (snd kv) l); [discriminate|].
    cbn [mbind result_bind mret result_ret] in Hf. injection Hf as <-.
    reflexivity.
  - intros Hne. apply Forall_forall. intros d Hd.
    destruct items as [|kv0 items0]; [done|].
    pose proof (Hkeys kv0 (list_elem_of_here _ _)) as H0.
    rewrite Forall_forall in H0. destruct (H0 d Hd) as [v0 Hv0].
    apply getitem_key_inr in Hv0 as (its & -> & _).
    exists its. split; [reflexivity|].
    intros k Hk. apply list_elem_of_In, in_map_iff in Hk as (kv & <- & Hin).
    apply list_elem_of_In in Hin.
    pose proof (Hkeys kv Hin) as Hkv. rewrite Forall_forall in Hkv.
    destruct (Hkv _ Hd) as [v Hv].
    apply getitem_key_inr in Hv as (its' & Heq & Hv).
    injection Heq as <-. eauto.
Qed.

Lemma batch_dict_keys_witness :
  Forall (fun d => exists its,
            d = ODict its
            /\ forall k, k ∈ map fst [("a", Docstring.a)] -> is_Some (assoc k its))
    [ODict [("b", Docstring.b); ("a", Docstring.a)]].
Proof.
  assert (H : batch_recursive_objects true
                 [ODict [("a", Docstring.a)];
                  ODict [("b", Docstring.b); ("a", Docstring.a)]] false
               = inr (ODict [("a", OArray Numpy
                                     (mkNdarray [2; 1; 4] (repeat 0%Z 8)))]))
    by reflexivity.
  apply (proj2 (batch_dict_keys _ _ _ _ _ H)). discriminate.
Defined.

(** ** Batching in chunks *)

Lemma mapM_result_app {A B : Type} (f : A -> result B) (l1 l2 : list A)
    (v1 v2 : list B) :
  mapM_result f l1 = inr v1 -> mapM_result f l2 = inr v2 ->
  mapM_result f (l1 ++ l2) = inr (v1 ++ v2).
Proof. rewrite !mapM_result_inr. apply Forall2_app. Qed.

Lemma mapM_result_pair {A A1 B : Type} (f : A -> result B)
    (g : A1 -> result B) (l : list A) (l1 : list A1) :
  Forall2 (fun a a1 => exists b, f a = inr b /\ g a1 = inr b) l l1 ->
  exists bs, mapM_result f l = inr bs /\ mapM_result g l1 = inr bs.
Proof.
  induction 1 as [|a a1 l l1 (b & Hf & Hg) _ (bs & Hl & Hl1)].
  - exists []. split; reflexivity.
  - exists (b :: bs). cbn [mapM_result]. rewrite Hf, Hg, Hl, Hl1.
    split; reflexivity.
Qed.

Lemma mapMi_result_pair {A A1 B : Type} (f : nat -> A -> result B)
    (g : nat -> A1 -> result B) (l : list A) :
  forall (l1 : list A1) (s : nat),
    length l1 = length l ->
    (forall i a a1, l !! i = Some a -> l1 !! i = Some a1 ->
       exists b, f (s + i) a = inr b /\ g (s + i) a1 = inr b) ->
    exists bs, mapMi_result f s l = inr bs /\ mapMi_result g s l1 = inr bs.
Proof.
  induction l as [|a l IH]; intros [|a1 l1] s Hlen H; try discriminate Hlen.
  - exists []. split; reflexivity.
  - destruct (H 0 a a1 eq_refl eq_refl) as (b & Hf & Hg).
    rewrite Nat.add_0_r in Hf, Hg.
    destruct (IH l1 (S s)) as (bs & Hl & Hl1).
    + cbn in Hlen. lia.
    + intros i x x1 Hx Hx1.
      destruct (H (S i) x x1 Hx Hx1) as (b' & Hf' & Hg'). exists b'.
      replace (S s + i) with (s + S i) by lia. auto.
    + exists (b :: bs). cbn [mapMi_result]. rewrite Hf, Hg. cbn.
      rewrite Hl, Hl1. split; reflexivity.
Qed.

Lemma concat_axis0_inr (lib : array_lib) (ls : list obj) (o : obj) :
  concat_axis0 lib ls = inr o ->
  exists a0 arrs n inner,
    ls = map (OArray lib) (a0 :: arrs)
    /\ shape a0 = n :: inner
    /\ Forall (fun a => exists m, shape a = m :: inner) arrs.
Proof.
  unfold concat_axis0.
  destruct (mapM_result _ ls) as [e|arrs] eqn:Hm; [discriminate|].
  cbn [mbind result_bind].
  assert (Hls : ls = map (OArray lib) arrs).
  { apply mapM_result_inr in Hm.
    induction Hm as [|x a ls arrs Hx _ IH]; [reflexivity|].
    cbn [map]. rewrite IH. f_equal.
    destruct x as [| | | | |lib' a'| |]; try discriminate Hx.
    destruct (decide (lib' = lib)) as [->|]; [|discriminate Hx].
    injection Hx as ->. reflexivity. }
  destruct arrs as [|a0 arrs]; [discriminate|].
  destruct (shape a0) as [|n inner] eqn:Hs; [discriminate|].
  destruct (forallb _ (a0 :: arrs)) eqn:Hb; [|discriminate].
  intros _. exists a0, arrs, n, inner.
  split; [exact Hls|]. split; [exact Hs|].
  rewrite forallb_forall in Hb. apply Forall_forall. intros a Ha.
  specialize (Hb a (or_intror (proj1 (list_elem_of_In _ _) Ha))).
  destruct (shape a) as [|m tl']; [discriminate|].
  apply bool_decide_eq_true_1 in Hb. subst tl'. eauto.
Qed.

Section Chunks.
Variable th_bound : bool.

Abbreviation batch' := (batch_from th_bound false).
Abbreviation same' := (same_structure th_bound).
Abbreviation chunks_at first :=
  (forall rest1 f2 rest2 o1 o2,
     same' first f2 ->
     batch' first rest1 = inr o1 ->
     batch' f2 rest2 = inr o2 ->
     exists out,
       batch' first (rest1 ++ f2 :: rest2) = inr out
       /\ batch' o1 [o2] = inr out).

Lemma batch_leaf_inr (lib : array_lib) (a : ndarray) (rest : list obj)
    (o : obj) :
  batch' (OArray lib a) rest = inr o ->
  (lib = Torch -> th_bound = true)
  /\ concat_axis0 lib (OArray lib a :: rest) = inr o.
Proof.
  cbn [batch_from]. unfold batch_leaf. cbn [mbind result_bind mret result_ret].
  destruct lib; [intros H; split; [discriminate|exact H]|].
  destruct th_bound; [|discriminate].
  intros H. split; [reflexivity|exact H].
Qed.

Lemma concat_of_arrays (lib : array_lib) (a0 : ndarray) (rest : list obj)
    (inner : list nat) (n : nat) (o : obj) :
  shape a0 = n :: inner ->
  concat_axis0 lib (OArray lib a0 :: rest) = inr o ->
  exists arrs,
    rest = map (OArray lib) arrs
    /\ Forall (fun a => exists m, shape a = m :: inner) arrs
    /\ o = OArray lib
             (mkNdarray (list_sum (map batch_size (a0 :: arrs)) :: inner)
                (concat (map data (a0 :: arrs)))).
Proof.
  intros Hs H.
  destruct (concat_axis0_inr _ _ _ H)
    as (a0' & arrs & n' & inner' & Hls & Hs' & Hall).
  cbn [map] in Hls. injection Hls as <- ->.
  rewrite Hs in Hs'. injection Hs' as <- <-.
  exists arrs. split; [reflexivity|]. split; [exact Hall|].
  change (OArray lib a0 :: map (OArray lib) arrs)
    with (map (OArray lib) (a0 :: arrs)) in H.
  rewrite (concat_axis0_ok lib a0 arrs n inner Hs Hall) in H.
  by injection H as <-.
Qed.

Lemma chunks_array (lib : array_lib) (a0 : ndarray) : chunks_at (OArray lib a0).
Proof.
  intros rest1 f2 rest2 o1 o2 Hsame H1 H2.
  apply batch_leaf_inr in H1 as [Hth H1].
  apply same_structure_array_inv in Hsame
    as (_ & a2 & n & m & inner & -> & Hs0 & Hs2).
  apply batch_leaf_inr in H2 as [_ H2].
  destruct (concat_of_arrays _ _ _ _ _ _ Hs0 H1) as (arrs1 & -> & Hall1 & ->).
  destruct (concat_of_arrays _ _ _ _ _ _ Hs2 H2) as (arrs2 & -> & Hall2 & ->).
  cbn [batch_from]. rewrite !(batch_leaf_array th_bound) by exact Hth.
  change (OArray lib a0 :: map (OArray lib) arrs1
            ++ OArray lib a2 :: map (OArray lib) arrs2)
    with (OArray lib a0 :: map (OArray lib) arrs1
            ++ map (OArray lib) (a2 :: arrs2)).
  rewrite <- map_app.
  change (OArray lib a0 :: map (OArray lib) (arrs1 ++ a2 :: arrs2))
    with (map (OArray lib) (a0 :: arrs1 ++ a2 :: arrs2)).
  rewrite (concat_axis0_ok lib a0 (arrs1 ++ a2 :: arrs2) n inner Hs0).
  2:{ apply Forall_app. split; [exact Hall1|].
      apply List.Forall_cons; [eauto|exact Hall2]. }
  set (b1 := mkNdarray (list_sum (map batch_size (a0 :: arrs1)) :: inner)
               (concat (map data (a0 :: arrs1)))).
  set (b2 := mkNdarray (list_sum (map batch_size (a2 :: arrs2)) :: inner)
               (concat (map data (a2 :: arrs2)))).
  change [OArray lib b1; OArray lib b2] with (map (OArray lib) [b1; b2]).
  rewrite (concat_axis0_ok lib b1 [b2] _ inner eq_refl).
  2:{ apply List.Forall_cons; [eexists; reflexivity|apply List.Forall_nil]. }
  eexists. split; [reflexivity|]. f_equal. f_equal. f_equal.
  - f_equal. unfold b1, b2. cbn [map batch_size shape hd].
    rewrite map_app. cbn [map].
    assert (Hc : forall x l, list_sum (x :: l) = x + list_sum l)
      by reflexivity.
    rewrite !Hc, list_sum_app, !Hc. change (list_sum []) with 0. lia.
  - unfold b1, b2. cbn [map concat data].
    rewrite map_app, concat_app. cbn [map concat].
    rewrite app_nil_r, <- !app_assoc. reflexivity.
Qed.
Section KeyedChunks.
Variable getk : string -> obj -> result obj.
Variable mk : list (string * obj) -> obj.

Hypothesis getk_mk :
  forall k its v, getk k (mk its) = inr v <-> assoc k its = Some v.
Hypothesis batch_mk :
  forall items rest,
    batch' (mk items) rest
    = items' ← mapM_result
                 (fun kv =>
                    vs ← mapM_result (getk (fst kv)) rest;
                    b ← batch' (snd kv) vs;
                    mret (fst kv, b)) items;
      mret (mk items').
Hypothesis same_entry :
  forall items r kv, same' (mk items) r -> In kv items ->
    exists v', getk (fst kv) r = inr v' /\ same' (snd kv) v'.
Hypothesis same_mk :
  forall items r, same' (mk items) r -> exists items2, r = mk items2.

Lemma assoc_batched (rest : list obj) (items items' : list (string * obj))
    (k : string) (v : obj) :
  Forall2 (fun kv kv' =>
             (vs ← mapM_result (getk (fst kv)) rest;
              b ← batch' (snd kv) vs;
              mret (fst kv, b)) = inr kv') items items' ->
  assoc k items = Some v ->
  exists vs b, mapM_result (getk k) rest = inr vs
               /\ batch' v vs = inr b
               /\ assoc k items' = Some b.
Proof.
  induction 1 as [|[k1 v1] [k1' b1] items items' Hf _ IH];
    cbn [assoc]; [discriminate|].
  cbn [fst snd] in Hf.
  destruct (mapM_result (getk k1) rest) as [e|vs] eqn:Hvs; [discriminate|].
  cbn [mbind result_bind] in Hf.
  destruct (batch' v1 vs) as [e|b] eqn:Hb; [discriminate|].
  cbn [mbind result_bind mret result_ret] in Hf. injection Hf as <- <-.
  destruct (String.eqb_spec k k1) as [->|Hne]; [|exact IH].
  intros H. injection H as <-. eauto.
Qed.

Lemma keyed_chunks (items : list (string * obj)) :
  Forall (fun kv => chunks_at (snd kv)) items -> chunks_at (mk items).
Proof.
  intros IH rest1 f2 rest2 o1 o2 Hsame H1 H2.
  destruct (same_mk _ _ Hsame) as [items2 ->].
  rewrite batch_mk in H1, H2.
  destruct (mapM_result _ items) as [e|items1] eqn:Hm1; [discriminate|].
  destruct (mapM_result _ items2) as [e|items2'] eqn:Hm2; [discriminate|].
  cbn [mbind result_bind mret result_ret] in H1, H2.
  injection H1 as <-. injection H2 as <-.
  rewrite !batch_mk.
  apply mapM_result_inr in Hm1, Hm2.
  assert (Hin : Forall (fun kv => In kv items /\ chunks_at (snd kv)) items).
  { rewrite Forall_forall in IH. apply Forall_forall. intros kv Hkv.
    split; [by apply list_elem_of_In|by apply IH]. }
  destruct (mapM_result_pair
              (fun kv =>
                 vs ← mapM_result (getk (fst kv)) (rest1 ++ mk items2 :: rest2);
                 b ← batch' (snd kv) vs;
                 mret (fst kv, b))
              (fun kv =>
                 vs ← mapM_result (getk (fst kv)) [mk items2'];
                 b ← batch' (snd kv) vs;
                 mret (fst kv, b))
              items items1) as (bs & HL & HR).
  { apply (Forall2_Forall_impl _ _ _ _ _ Hm1 Hin).
    intros [k v] kv1 [Hkv IHv] Hf. cbn [fst snd] in *.
    destruct (mapM_result (getk k) rest1) as [e|vs1] eqn:Hv1; [discriminate|].
    cbn [mbind result_bind] in Hf.
    destruct (batch' v vs1) as [e|b1] eqn:Hb1; [discriminate|].
    cbn [mbind result_bind mret result_ret] in Hf. injection Hf as <-.
    destruct (same_entry items (mk items2) (k, v) Hsame Hkv)
      as (v2 & Hg2 & Hs2). cbn [fst snd] in *.
    pose proof (proj1 (getk_mk _ _ _) Hg2) as Ha2.
    destruct (assoc_batched rest2 items2 items2' k v2 Hm2 Ha2)
      as (vs2 & b2 & Hv2 & Hb2 & Ha2').
    destruct (IHv vs1 v2 vs2 b1 b2 Hs2 Hb1 Hb2) as (out & HLo & HRo).
    exists (k, out). cbn [fst snd]. split.
    - rewrite (mapM_result_app _ rest1 (mk items2 :: rest2) vs1 (v2 :: vs2) Hv1).
      + cbn [mbind result_bind]. rewrite HLo. reflexivity.
      + cbn [mapM_result]. rewrite Hg2, Hv2. reflexivity.
    - cbn [mapM_result]. rewrite (proj2 (getk_mk _ _ _) Ha2').
      cbn [mbind result_bind mret result_ret]. rewrite HRo. reflexivity. }
  exists (mk bs). rewrite HL, HR. split; reflexivity.
Qed.
End KeyedChunks.

Section PositionalChunks.
Variable mk : list obj -> obj.

Hypothesis getitem_mk : forall i l, getitem_idx i (mk l) = list_item i l.
Hypothesis batch_mk :
  forall elems rest,
    batch' (mk elems) rest
    = elems' ← mapMi_result
                 (fun i v =>
                    vs ← mapM_result (getitem_idx i) rest;
                    batch' v vs) 0 elems;
      mret (mk elems').
Hypothesis same_entry :
  forall elems r i v, same' (mk elems) r -> elems !! i = Some v ->
    exists v', getitem_idx i r = inr v' /\ same' v v'.
Hypothesis same_mk :
  forall elems r, same' (mk elems) r -> exists elems2, r = mk elems2.

Lemma positional_chunks (elems : list obj) :
  Forall (fun v => chunks_at v) elems -> chunks_at (mk elems).
Proof.
  intros IH rest1 f2 rest2 o1 o2 Hsame H1 H2.
  destruct (same_mk _ _ Hsame) as [elems2 ->].
  rewrite batch_mk in H1, H2.
  destruct (mapMi_result _ 0 elems) as [e|elems1] eqn:Hm1; [discriminate|].
  destruct (mapMi_result _ 0 elems2) as [e|elems2'] eqn:Hm2; [discriminate|].
  cbn [mbind result_bind mret result_ret] in H1, H2.
  injection H1 as <-. injection H2 as <-.
  rewrite !batch_mk.
  apply mapMi_result_inr in Hm1 as [Hlen1 Hat1].
  apply mapMi_result_inr in Hm2 as [Hlen2 Hat2].
  destruct (mapMi_result_pair
              (fun i v =>
                 vs ← mapM_result (getitem_idx i) (rest1 ++ mk elems2 :: rest2);
                 batch' v vs)
              (fun i v =>
                 vs ← mapM_result (getitem_idx i) [mk elems2'];
                 batch' v vs)
              elems elems1 0 Hlen1) as (bs & HL & HR).
  { intros i a a1 Hi Hi1. cbn [Nat.add].
    destruct (Hat1 i a Hi) as (b1 & Hb1 & Hf1).
    rewrite Hi1 in Hb1. injection Hb1 as <-. cbn [Nat.add] in Hf1.
    destruct (mapM_result (getitem_idx i) rest1) as [e|vs1] eqn:Hv1;
      [discriminate|].
    cbn [mbind result_bind] in Hf1.
    destruct (same_entry elems (mk elems2) i a Hsame Hi) as (v2 & Hg2 & Hs2).
    pose proof Hg2 as Hi2. rewrite getitem_mk in Hi2. unfold list_item in Hi2.
    destruct (elems2 !! i) as [v2'|] eqn:Hl2; [|discriminate].
    injection Hi2 as ->.
    destruct (Hat2 i v2 Hl2) as (b2 & Hb2 & Hf2). cbn [Nat.add] in Hf2.
    destruct (mapM_result (getitem_idx i) rest2) as [e|vs2] eqn:Hv2;
      [discriminate|].
    cbn [mbind result_bind] in Hf2.
    rewrite Forall_forall in IH.
    assert (Ha : a ∈ elems) by (eapply list_elem_of_lookup_2; exact Hi).
    destruct (IH a Ha vs1 v2 vs2 a1 b2 Hs2 Hf1 Hf2) as (out & HLo & HRo).
    exists out. split.
    - rewrite (mapM_result_app _ rest1 (mk elems2 :: rest2) vs1 (v2 :: vs2) Hv1).
      + cbn [mbind result_bind]. exact HLo.
      + cbn [mapM_result]. rewrite Hg2. cbn [mbind result_bind].
        rewrite Hv2. reflexivity.
    - cbn [mapM_result]. rewrite getitem_mk. unfold list_item. rewrite Hb2.
      cbn [mbind result_bind mret result_ret]. exact HRo. }
  exists (mk bs). rewrite HL, HR. split; reflexivity.
Qed.
End PositionalChunks.

Lemma batch_chunks (first : obj) : chunks_at first.
Proof.
  induction first as [items IH|elems IH|ty fields IH|elems IH| |lib a|s|n]
    using obj_rect_nested.
  - apply (keyed_chunks getitem_key ODict); [| | | |exact IH].
    + intros k its v. cbn. destruct (assoc k its) as [v'|].
      * split; intros H; injection H as ->; reflexivity.
      * split; intros H; discriminate H.
    + reflexivity.
    + intros items0 r kv Hs Hin.
      destruct (same_dict_entry th_bound items0 r kv Hs Hin)
        as (v' & Hg & _ & Hv). eauto.
    + intros items0 r Hs.
      inversion Hs as [? items2 _ _| | | | | |? ? Hx]; subst; [eauto|destruct Hx].
  - apply (positional_chunks OList); [| | | |exact IH].
    + reflexivity.
    + reflexivity.
    + intros elems0 r i v Hs Hi.
      destruct (same_list_entry th_bound elems0 r i v Hs Hi)
        as (v' & Hg & _ & Hv). eauto.
    + intros elems0 r Hs.
      inversion Hs as [|? elems2 _| | | | |? ? Hx]; subst; [eauto|destruct Hx].
  - apply (keyed_chunks getattr (ONamedTuple ty)); [| | | |exact IH].
    + intros k its v. cbn. destruct (assoc k its) as [v'|].
      * split; intros H; injection H as ->; reflexivity.
      * split; intros H; discriminate H.
    + reflexivity.
    + intros fields0 r kv Hs Hin.
      destruct (same_namedtuple_entry th_bound ty fields0 r kv Hs Hin)
        as (v' & Hg & _ & Hv). eauto.
    + intros fields0 r Hs.
      inversion Hs as [| |? ? fields2 _ _ _| | | |? ? Hx]; subst;
        [eauto|destruct Hx].
  - apply (positional_chunks OTuple); [| | | |exact IH].
    + reflexivity.
    + reflexivity.
    + intros elems0 r i v Hs Hi.
      destruct (same_tuple_entry th_bound elems0 r i v Hs Hi)
        as (v' & Hg & _ & Hv). eauto.
    + intros elems0 r Hs.
      inversion Hs as [| | |? elems2 _| | |? ? Hx]; subst; [eauto|destruct Hx].
  - intros rest1 f2 rest2 o1 o2 Hs H1 H2.
    inversion Hs as [| | | | | |? ? Hx]; subst; [|destruct Hx].
    cbn in H1, H2. injection H1 as <-. injection H2 as <-.
    exists ONone. split; reflexivity.
  - apply chunks_array.
  - intros rest1 f2 rest2 o1 o2 _ H1.
    rewrite (batch_from_unsupported th_bound (OStr s) rest1 I) in H1.
    discriminate H1.
  - intros rest1 f2 rest2 o1 o2 _ H1.
    rewrite (batch_from_unsupported th_bound (OInt n) rest1 I) in H1.
    discriminate H1.
Qed.
End Chunks.

(** X18: batching in chunks: when two lists of records batch (without the
    shape check) to [o1] and [o2], and the first record of the second list
    has the structure of the first record of the first list, then batching
    the two lists joined into one returns a record, and batching [[o1, o2]]
    returns the same record. *)
Theorem batch_in_chunks (th_bound : bool) (first : obj) (rest1 : list obj)
    (second : obj) (rest2 : list obj) (o1 o2 : obj) :
  same_structure th_bound first second ->
  batch_recursive_objects th_bound (first :: rest1) false = inr o1 ->
  batch_recursive_objects th_bound (second :: rest2) false = inr o2 ->
  exists out,
    batch_recursive_objects th_bound ((first :: rest1) ++ second :: rest2) false
    = inr out
    /\ batch_recursive_objects th_bound [o1; o2] false = inr out.
Proof.
  cbn [batch_recursive_objects app]. apply batch_chunks.
Qed.

Lemma batch_in_chunks_witness :
  exists out,
    batch_recursive_objects false (Docstring.c ++ Docstring.c) false = inr out
    /\ batch_recursive_objects false
         [ODict [("a", OArray Numpy (Docstring.zeros [2; 1; 4]));
                 ("b", OArray Numpy (Docstring.zeros [4; 2; 4]))];
          ODict [("a", OArray Numpy (Docstring.zeros [2; 1; 4]));
                 ("b", OArray Numpy (Docstring.zeros [4; 2; 4]))]] false
       = inr out.
Proof.
  apply (batch_in_chunks false
           (ODict [("a", Docstring.a); ("b", Docstring.b)])
           [ODict [("a", Docstring.a); ("b", Docstring.b)]]
           (ODict [("a", Docstring.a); ("b", Docstring.b)])
           [ODict [("a", Docstring.a); ("b", Docstring.b)]]).
  - apply ss_dict.
    + apply (bool_decide_unpack _). vm_compute. exact I.
    + repeat apply List.Forall_cons; try apply List.Forall_nil;
        (eexists; split; [reflexivity|]);
        (eapply ss_array; [discriminate|reflexivity|reflexivity]).
  - reflexivity.
  - reflexivity.
Defined.
